(** * Persistent topological naming in [Part::Feature]

    A shallow embedding of the element-name functions of
    [src/Mod/Part/App/PartFeature.cpp]:

    - [Feature::getElementName] and [Feature::getExportElementName]
      (module [ExportName]),
    - [getElementSource] and [Feature::getElementHistory] (module [History]),
    - [Feature::getElementFromSource] (module [FromSource]),
    - [Feature::getRelatedElements] (module [Related]).

    The geometry kernel, [TopoShape], [ComplexGeoData] and [App::GeoFeature]
    are not part of the sources at hand.  Their operations appear as fields
    of interface records, one field per member function the code calls. *)

From Stdlib Require Import ZArith String Ascii List Lia Bool Sorted.
From Stdlib Require Import DecimalNat DecimalString.
From stdpp Require Import base decidable option list gmap strings sorting.

Local Open Scope Z_scope.

(** ** Shared data model *)

(** [TopAbs_ShapeEnum] of the geometry kernel. *)
Inductive TopAbs_ShapeEnum :=
  | TopAbs_COMPOUND | TopAbs_COMPSOLID | TopAbs_SOLID | TopAbs_SHELL
  | TopAbs_FACE | TopAbs_WIRE | TopAbs_EDGE | TopAbs_VERTEX | TopAbs_SHAPE.

#[global] Instance TopAbs_ShapeEnum_eq_dec : EqDecision TopAbs_ShapeEnum.
Proof. solve_decision. Defined.

(** [Data::IndexedName]: an element type with a kernel ordinal.  The null
    name has an empty type. *)
Record IndexedName := mkIndexedName { getType : string; getIndex : Z }.

#[global] Instance IndexedName_eq_dec : EqDecision IndexedName.
Proof. solve_decision. Defined.

#[global] Instance IndexedName_countable : Countable IndexedName.
Proof.
  refine (inj_countable' (fun i => (getType i, getIndex i))
                         (fun p => mkIndexedName p.1 p.2) _).
  intros []; reflexivity.
Defined.

Definition nullIndexedName : IndexedName := mkIndexedName "" 0.

(** [IndexedName::operator bool]. *)
Definition IndexedName_valid (i : IndexedName) : bool :=
  negb (String.eqb (getType i) "").

Definition IndexedName_fromConst (type : string) (idx : Z) : IndexedName :=
  mkIndexedName type idx.

Definition IndexedName_setIndex (i : IndexedName) (idx : Z) : IndexedName :=
  mkIndexedName (getType i) idx.

(** [Data::MappedName] is a byte string; the null name is empty. *)
Abbreviation MappedName := string.

Definition MappedName_valid (n : MappedName) : bool := negb (String.eqb n "").

(** [Data::MappedElement].  The fields live in a module of their own,
    since [name] and [index] are also parameter names of the code. *)
Module MappedElement.
Record t := mk { name : MappedName; index : IndexedName }.
End MappedElement.
Abbreviation MappedElement := MappedElement.t.
Abbreviation mkMappedElement := MappedElement.mk.

#[global] Instance MappedElement_eq_dec : EqDecision MappedElement.
Proof. solve_decision. Defined.

(** ** Outcomes of code that can leave defined behaviour *)

Inductive Fault :=
  | OutOfRangeRead   (* [operator[]] of a vector past its end *)
  | AssertFailed.    (* [assert(0)] reached *)

Inductive result (A : Type) :=
  | Ok (a : A)
  | Err (f : Fault).
Arguments Ok {A} a.
Arguments Err {A} f.

#[global] Instance result_ret : MRet result := fun _ a => Ok a.

#[global] Instance result_bind : MBind result := fun _ _ k r =>
  match r with
  | Ok a => k a
  | Err f => Err f
  end.

(** ** String helpers of the C and C++ libraries *)

Fixpoint string_drop (n : nat) (s : string) : string :=
  match n, s with
  | O, _ => s
  | S n', String _ s' => string_drop n' s'
  | S _, EmptyString => EmptyString
  end.

(** [strchr(s, c)]: the suffix of [s] that starts at the first [c]. *)
Fixpoint strchr (s : string) (c : ascii) : option string :=
  match s with
  | EmptyString => None
  | String a s' => if Ascii.eqb a c then Some s else strchr s' c
  end.

(** [boost::starts_with(s, p)]. *)
Definition starts_with (s p : string) : bool := String.prefix p s.

(** [std::to_string] of a non-negative position. *)
Definition to_string (n : nat) : string :=
  NilEmpty.string_of_uint (Nat.to_uint n).

Definition isspace (c : ascii) : bool :=
  let n := nat_of_ascii c in
  (Nat.eqb n 32 || (Nat.leb 9 n && Nat.leb n 13))%bool.

Definition digit_of (c : ascii) : option Z :=
  let n := nat_of_ascii c in
  if (Nat.leb 48 n && Nat.leb n 57)%bool then Some (Z.of_nat n - 48) else None.

Fixpoint skip_space (s : string) : string :=
  match s with
  | String a s' => if isspace a then skip_space s' else s
  | EmptyString => s
  end.

(** The digits at the head of [s], accumulated in base ten: [None] when
    there is no digit. *)
Fixpoint read_digits (s : string) (acc : option Z) : option Z :=
  match s with
  | String a s' =>
      match digit_of a with
      | Some d => read_digits s' (Some (10 * default 0 acc + d))
      | None => acc
      end
  | EmptyString => acc
  end.

Definition INT_MIN : Z := - 2 ^ 31.
Definition INT_MAX : Z := 2 ^ 31 - 1.

(** [std::istringstream iss(s); int idx; iss >> idx]: leading white space
    is skipped, a sign is accepted, at least one digit is required and a
    value outside [int] sets the fail bit. *)
Definition istream_read_int (s : string) : option Z :=
  let s := skip_space s in
  let '(neg, body) :=
    match s with
    | String "-" s' => (true, s')
    | String "+" s' => (false, s')
    | _ => (false, s)
    end in
  match read_digits body None with
  | Some v =>
      let v := if neg then - v else v in
      if ((INT_MIN <=? v) && (v <=? INT_MAX))%bool then Some v else None
  | None => None
  end.

(** [std::vector::resize(count, value)]: shrinking keeps the first
    [count] elements, growing appends copies of [value]. *)
Definition vector_resize {A} (count : nat) (value : A) (v : list A) : list A :=
  take count v ++ replicate (count - length v) value.

(** Position of the first occurrence, as [std::find] followed by
    [it - begin()]; [None] stands for [end()]. *)
Fixpoint find_pos (x : Z) (l : list Z) : option nat :=
  match l with
  | [] => None
  | y :: l' => if Z.eqb y x then Some O else S <$> find_pos x l'
  end.

Definition contains (x : Z) (l : list Z) : bool := bool_decide (x ∈ l).

(** ** [Feature::getElementName] and [Feature::getExportElementName] *)

Module ExportName.

(** Modelled from the spec: the element map of section 3, whose class
    ([Data::ElementMap], held by [TopoShape]) is not among the sources.
    [forward] takes a durable name to its index name, [reverse] an index
    name to its durable name. *)
Record ElementMap := mkElementMap {
  forward : gmap string IndexedName;
  reverse : gmap IndexedName string
}.

(** Modelled from the spec: [TopoShape::getIndexedName], the lookup of a
    durable name in [forward]; a miss is the null index name. *)
Definition getIndexedName (em : ElementMap) (n : MappedName) : IndexedName :=
  default nullIndexedName (forward em !! n).

(** Modelled from the spec: [TopoShape::getMappedName], the lookup of an
    index name in [reverse]; a miss is the null name. *)
Definition getMappedName (em : ElementMap) (i : IndexedName) : MappedName :=
  default ""%string (reverse em !! i).

(** Modelled from the spec: the combo name of [TopoShape::setElementComboName],
    the durable names concatenated with the operation code, followed by the
    disambiguation suffix. *)
Definition comboName (names : list MappedName) (marker op : string) : MappedName :=
  (foldr String.append "" names +:+ marker +:+ op)%string.

(** Modelled from the spec: [TopoShape::setElementComboName] stores the
    combo name in both maps before returning it; without names there is no
    name to store. *)
Definition setElementComboName (em : ElementMap) (element : IndexedName)
    (names : list MappedName) (marker op : string) : ElementMap * MappedName :=
  match names with
  | [] => (em, ""%string)
  | _ =>
      let d := comboName names marker op in
      (mkElementMap (<[d := element]> (forward em)) (<[element := d]> (reverse em)), d)
  end.

(** The members of [TopoShape] and [ComplexGeoData] that
    [getExportElementName] calls and that do not touch the element map.
    [TopoDS_Shape] is the kernel's shape handle; a null handle is [None]. *)
Record TopoShape (TopoDS_Shape : Type) := mkTopoShape {
  (* Data::IndexedName(name): the index name spelled by a string, if any *)
  parseIndexedName : string -> option IndexedName;
  (* the mapped name spelled by a string that is no index name *)
  parseMappedName : string -> MappedName;
  shapeTypeAndIndex : IndexedName -> TopAbs_ShapeEnum * Z;
  shapeTypeAndIndexStr : string -> TopAbs_ShapeEnum * Z;
  shapeName : TopAbs_ShapeEnum -> string;
  getSubTopoShape : TopAbs_ShapeEnum -> Z -> option TopoDS_Shape;
  getSubTopoShapes : TopoDS_Shape -> TopAbs_ShapeEnum -> list TopoDS_Shape;
  (* ss.getMappedName(idxName) of a sub-shape *)
  subMappedName : TopoDS_Shape -> IndexedName -> MappedName;
  getSubShape : TopAbs_ShapeEnum -> Z -> option TopoDS_Shape;
  findAncestors : TopoDS_Shape -> TopAbs_ShapeEnum -> list Z;
  decodeElementComboName :
    IndexedName -> MappedName -> string -> list MappedName * string;
  indexPostfix : string;
  missingPrefix : string;
  hasMissingElement : string -> bool;
  (* App::GeoFeature::_getElementName(name, mapped) *)
  _getElementName : string -> MappedElement -> string * string
}.
Arguments parseIndexedName {_} _ _.
Arguments parseMappedName {_} _ _.
Arguments shapeTypeAndIndex {_} _ _.
Arguments shapeTypeAndIndexStr {_} _ _.
Arguments shapeName {_} _ _.
Arguments getSubTopoShape {_} _ _ _.
Arguments getSubTopoShapes {_} _ _ _.
Arguments subMappedName {_} _ _ _.
Arguments getSubShape {_} _ _ _.
Arguments findAncestors {_} _ _ _.
Arguments decodeElementComboName {_} _ _ _ _.
Arguments indexPostfix {_} _.
Arguments missingPrefix {_} _.
Arguments hasMissingElement {_} _ _.
Arguments _getElementName {_} _ _ _.

Definition MinLowerTopoNames : nat := 3.
Definition MaxLowerTopoNames : nat := 10.

(** [NameEntry]: the first component is what the code stores there, the
    size of the mapped name. *)
Definition NameEntry : Type := nat * list Z.

Section ExportElementName.
Context {TopoDS_Shape : Type} (shape : TopoShape TopoDS_Shape).

(** Modelled from the spec: [TopoShape::getElementName], which answers
    an index name with its durable name from [reverse] and a durable
    name with its index name from [forward]. *)
Definition getElementName (em : ElementMap) (name : string) : MappedElement :=
  match parseIndexedName shape name with
  | Some idx => mkMappedElement (getMappedName em idx) idx
  | None =>
      let n := parseMappedName shape name in
      mkMappedElement n (getIndexedName em n)
  end.

(** The lower kind whose names make up the combo name of a higher kind,
    with the index name handed to [getMappedName]. *)
Definition lowerKind (k : TopAbs_ShapeEnum) : TopAbs_ShapeEnum * IndexedName :=
  match k with
  | TopAbs_WIRE => (TopAbs_EDGE, IndexedName_fromConst "Edge" 1)
  | TopAbs_SHELL | TopAbs_SOLID | TopAbs_COMPOUND | TopAbs_COMPSOLID =>
      (TopAbs_FACE, IndexedName_fromConst "Face" 1)
  | _ => (TopAbs_SHAPE, nullIndexedName)
  end.

(** The loop over [subshape.getSubTopoShapes(lower)]. *)
Fixpoint collectLower (kind : TopAbs_ShapeEnum) (idxName : IndexedName)
    (subs : list TopoDS_Shape) (indices : list NameEntry)
    (names : list MappedName) (count : nat)
    : list NameEntry * list MappedName :=
  match subs with
  | [] => (indices, names)
  | ss :: rest =>
      let name := subMappedName shape ss idxName in
      if negb (MappedName_valid name) then
        collectLower kind idxName rest indices names count
      else
        let anc := findAncestors shape ss kind in
        let indices' := indices ++ [(String.length name, anc)] in
        let names' := names ++ [name] in
        if Nat.eqb (length anc) 1 then
          if Nat.leb MinLowerTopoNames (S count) then (indices', names')
          else collectLower kind idxName rest indices' names' (S count)
        else collectLower kind idxName rest indices' names' count
  end.

(** [std::stable_sort] on the number of ancestors. *)
Fixpoint insertEntry (e : NameEntry) (l : list NameEntry) : list NameEntry :=
  match l with
  | [] => [e]
  | x :: r =>
      if Nat.ltb (length x.2) (length e.2) then x :: insertEntry e r
      else e :: x :: r
  end.

Definition stable_sort (l : list NameEntry) : list NameEntry :=
  foldr insertEntry [] l.

(** The inner loop that erases from [ancestors] what [v] lacks and
    leaves as soon as one ancestor is left after an erasure. *)
Fixpoint eraseLoop (kept rest v : list Z) : list Z :=
  match rest with
  | [] => kept
  | a :: rest' =>
      if contains a v then eraseLoop (kept ++ [a]) rest' v
      else if Nat.eqb (length (kept ++ rest')) 1 then kept ++ rest'
      else eraseLoop kept rest' v
  end.

(** The loop over the sorted entries.  [names[v.first]] reads the vector
    at the stored name size. *)
Fixpoint selectLoop (names : list MappedName) (indices : list NameEntry)
    (ancestors : list Z) (sorted : list MappedName) (pos : nat)
    : result (list Z * list MappedName) :=
  match indices with
  | [] => Ok (ancestors, sorted)
  | v :: rest =>
      let size := length ancestors in
      let ancestors' :=
        if Nat.eqb size 0 then v.2
        else if Nat.ltb 1 size then eraseLoop [] ancestors v.2
        else ancestors in
      let atPos := (Nat.eqb size 1 || negb (Nat.eqb size (length ancestors')))%bool in
      match names !! v.1 with
      | None => Err OutOfRangeRead
      | Some n =>
          let sorted' :=
            if atPos then take pos sorted ++ n :: drop pos sorted
            else sorted ++ [n] in
          let pos' := if atPos then S pos else pos in
          if (Nat.eqb size 1 && Nat.leb MinLowerTopoNames (length sorted'))%bool
          then Ok (ancestors', sorted')
          else selectLoop names rest ancestors' sorted' pos'
      end
  end.

(** The ancestors left when the names are about to be set: the block
    that fills [ancestors] runs only for [MaxLowerTopoNames] names or more. *)
Definition survivingAncestors (indices : list NameEntry) (names : list MappedName)
    : result (list Z) :=
  if Nat.leb MaxLowerTopoNames (length names)
  then sel ← selectLoop names (stable_sort indices) [] [] 0; Ok sel.1
  else Ok [].

(** The suffix [op]: the index postfix and the position of [idx] among
    the ancestors left, when more than one is left.  An index that is not
    among them runs into [assert(0)]; a build without assertions goes on
    with an empty suffix there. *)
Definition indexSuffix (idx : Z) (ancestors : list Z) : result string :=
  if Nat.ltb 1 (length ancestors) then
    match find_pos idx ancestors with
    | None => Err AssertFailed
    | Some k => Ok (indexPostfix shape +:+ to_string k)%string
    end
  else Ok ""%string.

(** The names and the suffix handed to [setElementComboName] for the
    element of kind [kind] and index [idx]; [None] when no name is set. *)
Definition chooseNames (kind : TopAbs_ShapeEnum) (idx : Z)
    (lower : TopAbs_ShapeEnum) (idxName : IndexedName) (subshape : TopoDS_Shape)
    : result (option (list MappedName * string)) :=
  let '(indices, names) :=
    collectLower kind idxName (getSubTopoShapes shape subshape lower) [] [] 0 in
  ancestors ← survivingAncestors indices names;
  let names := take (Nat.min (length names) MaxLowerTopoNames) names in
  match names with
  | [] => Ok None
  | _ =>
      op ← indexSuffix idx ancestors;
      Ok (Some (names, op))
  end.

(** The loop over the names decoded from a combo name. *)
Fixpoint decodeLoop (em : ElementMap) (kind : TopAbs_ShapeEnum)
    (names : list MappedName) (ancestors : list Z) : list Z :=
  match names with
  | [] => ancestors
  | n :: rest =>
      let index := getIndexedName em n in
      if negb (IndexedName_valid index) then []
      else
        let oidx := shapeTypeAndIndex shape index in
        match getSubShape shape oidx.1 oidx.2 with
        | None => []
        | Some subshape =>
            let current := findAncestors shape subshape kind in
            match ancestors with
            | [] => decodeLoop em kind rest current
            | _ =>
                let ancestors' := filter (fun a => contains a current = true) ancestors in
                match ancestors' with
                | [] => []
                | _ => decodeLoop em kind rest ancestors'
                end
            end
        end
  end.

(** The use of the index suffix after the loop. *)
Definition applyOrdinal (ancestors : list Z) (postfix : string) : list Z :=
  if (Nat.ltb 1 (length ancestors) && starts_with postfix (indexPostfix shape))%bool
  then
    match istream_read_int (string_drop (String.length (indexPostfix shape)) postfix) with
    | Some idx =>
        if ((0 <=? idx) && (idx <? Z.of_nat (length ancestors)))%bool then
          match ancestors !! Z.to_nat idx with
          | Some a => vector_resize 1 a ancestors
          | None => ancestors
          end
        else ancestors
    | None => ancestors
    end
  else ancestors.

(** The branch taken for a mapped name without index name. *)
Definition decodeIndex (em : ElementMap) (name : string) (mapped : MappedElement)
    : MappedElement :=
  match strchr name "." with
  | None => mapped
  | Some dot =>
      let dot := string_drop 1 dot in
      let dot :=
        if hasMissingElement shape dot
        then string_drop (String.length (missingPrefix shape)) dot else dot in
      let occindex := shapeTypeAndIndexStr shape dot in
      if 0 <? occindex.2 then
        let idxName := IndexedName_fromConst (shapeName shape occindex.1) occindex.2 in
        let '(names, postfix) :=
          decodeElementComboName shape idxName (MappedElement.name mapped) (getType idxName) in
        let ancestors := decodeLoop em occindex.1 names [] in
        let ancestors := applyOrdinal ancestors postfix in
        match ancestors with
        | [a] => mkMappedElement (MappedElement.name mapped) (IndexedName_setIndex idxName a)
        | _ => mapped
        end
      else mapped
  end.

(** The element handed to [_getElementName], with the element map as
    the call leaves it. *)
Definition exportMapped (em : ElementMap) (name : string)
    : result (ElementMap * MappedElement) :=
  let mapped := getElementName em name in
  let res := shapeTypeAndIndex shape (MappedElement.index mapped) in
  if (negb (Z.eqb res.2 0) && negb (MappedName_valid (MappedElement.name mapped)))%bool then
    match getSubTopoShape shape res.1 res.2 with
    | None => Ok (em, mapped)
    | Some subshape =>
        let '(lower, idxName) := lowerKind res.1 in
        if bool_decide (lower = TopAbs_SHAPE) then Ok (em, mapped)
        else
          chosen ← chooseNames res.1 res.2 lower idxName subshape;
          match chosen with
          | None => Ok (em, mapped)
          | Some (names, op) =>
              let '(em', d) :=
                setElementComboName em (MappedElement.index mapped) names
                                    (getType (MappedElement.index mapped)) op in
              Ok (em', mkMappedElement d (MappedElement.index mapped))
          end
    end
  else if (Z.eqb res.2 0 && MappedName_valid (MappedElement.name mapped))%bool then
    Ok (em, decodeIndex em name mapped)
  else Ok (em, mapped).

Definition getExportElementName (em : ElementMap) (name : string)
    : result (ElementMap * (string * string)) :=
  r ← exportMapped em name;
  Ok (r.1, _getElementName shape name r.2).

End ExportElementName.

(** The data-model invariant that links the two tables: an index name
    that has a durable name is what that durable name resolves to. *)
Definition coherent (em : ElementMap) : Prop :=
  forall i d, reverse em !! i = Some d -> forward em !! d = Some i.


(** The lower sub-shapes that have a durable name, in kernel order, each
    with its name and its ancestors of kind [kind]. *)
Definition lowerEntries {T} (shape : TopoShape T) (kind : TopAbs_ShapeEnum)
    (idxName : IndexedName) (subs : list T) : list (MappedName * list Z) :=
  omap (fun ss =>
          let n := subMappedName shape ss idxName in
          if MappedName_valid n then Some (n, findAncestors shape ss kind) else None)
       subs.

(** A lower sub-shape with exactly one ancestor of the target kind. *)
Definition owned (e : MappedName * list Z) : bool := Nat.eqb (length e.2) 1.

Definition ownedCount (es : list (MappedName * list Z)) : nat :=
  length (filter (fun e => owned e = true) es).

(** The candidates of the target kind that contain every one of the given
    lower sub-elements: the intersection of their ancestor lists. *)
Definition commonAncestors (es : list (MappedName * list Z)) : list Z :=
  match es with
  | [] => []
  | e :: rest =>
      foldl (fun acc e' => filter (fun a => contains a e'.2 = true) acc) e.2 rest
  end.

(** The ancestors of kind [kind] of the sub-shape that a decoded name
    resolves to; [None] when the name has no index name or the index
    name has no sub-shape. *)
Definition nameAncestors {T} (shape : TopoShape T) (em : ElementMap)
    (kind : TopAbs_ShapeEnum) (n : MappedName) : option (list Z) :=
  let index := getIndexedName em n in
  if IndexedName_valid index then
    (fun subshape => findAncestors shape subshape kind)
      <$> getSubShape shape (shapeTypeAndIndex shape index).1
                            (shapeTypeAndIndex shape index).2
  else None.

(** The ancestors that are in every one of the given lists, in their
    own order. *)
Definition keepCommon (ancestors : list Z) (lists : list (list Z)) : list Z :=
  foldl (fun acc current => filter (fun a => contains a current = true) acc)
        ancestors lists.

(** [GeoFeature::ElementNameType]. *)
Inductive ElementNameType := Normal | Import | Export.

#[global] Instance ElementNameType_eq_dec : EqDecision ElementNameType.
Proof. solve_decision. Defined.

(** What [getPropertyOfGeometry()] yields: a [PropertyPartShape] with its
    shape and the element map the shape shares, another property, or
    none. *)
Inductive Property (TopoDS_Shape : Type) :=
  | PropertyPartShape (shape : TopoShape TopoDS_Shape) (em : ElementMap)
  | PropertyOther
  | PropertyNull.
Arguments PropertyPartShape {_} _ _.
Arguments PropertyOther {_}.
Arguments PropertyNull {_}.

Definition isPartShape {T} (prop : Property T) : bool :=
  match prop with
  | PropertyPartShape _ _ => true
  | _ => false
  end.

(** [Feature::getElementName].  [base] is [App::GeoFeature::getElementName].
    The property is returned as the call leaves it. *)
Definition Feature_getElementName {T}
    (base : string -> ElementNameType -> string * string)
    (prop : Property T) (name : string) (type : ElementNameType)
    : result (Property T * (string * string)) :=
  if negb (bool_decide (type = Export)) then Ok (prop, base name type)
  else
    match prop with
    | PropertyPartShape shape em =>
        r ← getExportElementName shape em name;
        Ok (PropertyPartShape shape r.1, r.2)
    | _ => Ok (prop, base name type)
    end.

(** *** Table-driven shapes for concrete runs

    A shape given by its wires (each the list of its edge indices) and the
    durable names of its edges.  The kernel handle of a sub-shape is its
    kind and index. *)
Definition Handle : Type := TopAbs_ShapeEnum * Z.

Definition kindOfType (t : string) : TopAbs_ShapeEnum :=
  if String.eqb t "Wire" then TopAbs_WIRE
  else if String.eqb t "Edge" then TopAbs_EDGE
  else if String.eqb t "Face" then TopAbs_FACE
  else TopAbs_SHAPE.

Definition typeOfKind (k : TopAbs_ShapeEnum) : string :=
  match k with
  | TopAbs_WIRE => "Wire"
  | TopAbs_EDGE => "Edge"
  | TopAbs_FACE => "Face"
  | _ => ""
  end.

(** Indices (from 1) of the wires that contain edge [e]. *)
Fixpoint wiresWith (e : Z) (wires : list (list Z)) (i : Z) : list Z :=
  match wires with
  | [] => []
  | w :: rest =>
      if contains e w then i :: wiresWith e rest (i + 1) else wiresWith e rest (i + 1)
  end.

Definition tableShape (wires : list (list Z)) (edgeNames : list (Z * string))
    (spelled : list (string * IndexedName))
    (decode : MappedName -> list MappedName * string) : TopoShape Handle :=
  {| parseIndexedName := fun s => snd <$> List.find (fun p => String.eqb (fst p) s) spelled;
     parseMappedName := fun s =>
       match strchr s "." with
       | Some tail => String.substring 0 (String.length s - String.length tail) s
       | None => s
       end;
     shapeTypeAndIndex := fun i =>
       let k := kindOfType (getType i) in
       match k with
       | TopAbs_WIRE =>
           if ((0 <? getIndex i) && (getIndex i <=? Z.of_nat (length wires)))%bool
           then (k, getIndex i) else (k, 0)
       | TopAbs_EDGE => (k, getIndex i)
       | _ => (TopAbs_SHAPE, 0)
       end;
     shapeTypeAndIndexStr := fun s =>
       match List.find (fun p => String.eqb (fst p) s) spelled with
       | Some p => (kindOfType (getType (snd p)), getIndex (snd p))
       | None => (TopAbs_SHAPE, 0)
       end;
     shapeName := typeOfKind;
     getSubTopoShape := fun k i =>
       match k with
       | TopAbs_WIRE => if (Z.to_nat i <=? length wires)%nat then Some (k, i) else None
       | _ => Some (k, i)
       end;
     getSubTopoShapes := fun h lower =>
       match h.1, lower with
       | TopAbs_WIRE, TopAbs_EDGE =>
           (fun e => (TopAbs_EDGE, e)) <$> default [] (wires !! Z.to_nat (h.2 - 1))
       | _, _ => []
       end;
     subMappedName := fun h _ =>
       match List.find (fun p => Z.eqb (fst p) h.2) edgeNames with
       | Some p => snd p
       | None => ""%string
       end;
     getSubShape := fun k i => Some (k, i);
     findAncestors := fun h k =>
       match h.1, k with
       | TopAbs_EDGE, TopAbs_WIRE => wiresWith h.2 wires 1
       | _, _ => []
       end;
     decodeElementComboName := fun _ n _ => decode n;
     indexPostfix := ";:I";
     missingPrefix := "?";
     hasMissingElement := fun s => String.prefix "?" s;
     _getElementName := fun _ m =>
       (MappedElement.name m, (getType (MappedElement.index m)
                               +:+ to_string (Z.to_nat (getIndex (MappedElement.index m))))%string)
  |}.

Definition emptyMap : ElementMap := mkElementMap ∅ ∅.

Definition spelledWires : list (string * IndexedName) :=
  [("Wire1"%string, mkIndexedName "Wire" 1); ("Wire2"%string, mkIndexedName "Wire" 2);
   ("Wire3"%string, mkIndexedName "Wire" 3)].

(** One wire made of a single edge, a closed circle for example. *)
Definition circleWire : TopoShape Handle :=
  tableShape [[1]] [(1, "E1"%string)] spelledWires (fun _ => ([], ""%string)).

(** Two wires over the same two edges. *)
Definition twinWires : TopoShape Handle :=
  tableShape [[1; 2]; [1; 2]] [(1, "A"%string); (2, "B"%string)] spelledWires
             (fun _ => ([], ""%string)).

(** The element map of [twinWires] after the combo name of the first
    wire was stored, and after the one of the second wire was stored as
    well. *)
Definition twinFirst : ElementMap :=
  (setElementComboName emptyMap (mkIndexedName "Wire" 1) ["A"; "B"]%string "Wire" "").1.

Definition twinBoth : ElementMap :=
  (setElementComboName twinFirst (mkIndexedName "Wire" 2) ["A"; "B"]%string "Wire" "").1.

(** One wire of a single edge with its combo name stored. *)
Definition circleNamed : ElementMap :=
  mkElementMap {[ "E1Wire"%string := mkIndexedName "Wire" 1 ]}
               {[ mkIndexedName "Wire" 1 := "E1Wire"%string ]}.

Definition tenEdges : list Z := [1; 2; 3; 4; 5; 6; 7; 8; 9; 10].

Definition tenNames : list (Z * string) :=
  [(1, "a"); (2, "b"); (3, "c"); (4, "d"); (5, "e");
   (6, "f"); (7, "g"); (8, "h"); (9, "i"); (10, "j")]%string.

(** The name that [getExportElementName] gives to the second of two
    wires over the same ten edges, and what it encodes. *)
Definition secondTwinName : MappedName := "abcdefghijWire;:I1"%string.

Definition decodeTwin (n : MappedName) : list MappedName * string :=
  if String.eqb n secondTwinName then (snd <$> tenNames, ";:I1"%string)
  else ([], ""%string).

(** Two wires over the same ten edges. *)
Definition bigTwins : TopoShape Handle :=
  tableShape [tenEdges; tenEdges] tenNames spelledWires decodeTwin.

(** The element map of [bigTwins] with the names of its edges only. *)
Definition edgeMap : ElementMap :=
  mkElementMap
    (list_to_map ((fun p => (snd p, mkIndexedName "Edge" (fst p))) <$> tenNames))
    (list_to_map ((fun p => (mkIndexedName "Edge" (fst p), snd p)) <$> tenNames)).

(** The same two wires when the first edge has a name of twelve
    characters. *)
Definition bigTwinsLongName : TopoShape Handle :=
  tableShape [tenEdges; tenEdges]
             ((1, "edge-name-01"%string) :: List.tl tenNames) spelledWires decodeTwin.

(** One wire of five edges that belong to no other wire. *)
Definition pentagon : TopoShape Handle :=
  tableShape [[1; 2; 3; 4; 5]] (List.firstn 5 tenNames) spelledWires
             (fun _ => ([], ""%string)).

(** A shape with one wire made of edge 2, and a free edge 1 that belongs
    to no wire. *)
Definition freeEdge : TopoShape Handle :=
  tableShape [[2]] [(1, "p"%string); (2, "q"%string)] spelledWires
             (fun _ => (["p"; "q"]%string, ""%string)).

Definition freeEdgeMap : ElementMap :=
  mkElementMap
    {[ "p"%string := mkIndexedName "Edge" 1; "q"%string := mkIndexedName "Edge" 2 ]}
    {[ mkIndexedName "Edge" 1 := "p"%string; mkIndexedName "Edge" 2 := "q"%string ]}.

End ExportName.


(** ** [getElementSource] and [Feature::getElementHistory] *)

Module History.

(** A [DocumentObject*] and a [Document*] are addresses; a null pointer
    is [None]. *)
Abbreviation Obj := nat.
Abbreviation Doc := nat.

(** The feature graph and the members of [TopoShape] that the two
    functions call.  [Shape] is the type of [TopoShape] values. *)
Record World (Shape : Type) := mkWorld {
  getID : Obj -> Z;
  getDocument : Obj -> Doc;
  (* getLinkedObject(false, nullptr, false, depth) *)
  getLinkedObject : Obj -> nat -> Obj;
  isGeoFeature : Obj -> bool;
  getElementOwner : Obj -> MappedName -> option Obj;
  getObjectByID : Doc -> Z -> option Obj;
  (* Feature::getTopoShape(obj) *)
  getTopoShape : Obj -> Shape;
  (* Feature::getTopoShape(obj, 0, false, 0, &owner): the shape and the owner *)
  getTopoShapeOwner : Obj -> Shape * option Obj;
  (* TopoShape::getElementHistory(name, &original, &history): the tag,
     the original name and the intermediate names *)
  shapeElementHistory : Shape -> MappedName -> Z * MappedName * list MappedName;
  getIndexedName : Shape -> MappedName -> IndexedName;
  (* getMappedName(idx, true) *)
  getMappedName : Shape -> IndexedName -> MappedName;
  (* TopoShape::elementType; the zero character when there is none *)
  elementType : Shape -> MappedName -> ascii;
  hasHasher : Shape -> bool;
  (* shape.Hasher = doc->getStringHasher() *)
  setHasher : Shape -> Doc -> Shape;
  (* shape.setShape(TopoDS_Shape()) *)
  setNullShape : Shape -> Shape;
  (* Data::IndexedName idx(name) *)
  parseIndexedName : string -> IndexedName;
  isMappedElement : string -> bool;
  newElementName : string -> string
}.
Arguments getID {_} _ _.
Arguments getDocument {_} _ _.
Arguments getLinkedObject {_} _ _ _.
Arguments isGeoFeature {_} _ _.
Arguments getElementOwner {_} _ _ _.
Arguments getObjectByID {_} _ _ _.
Arguments getTopoShape {_} _ _.
Arguments getTopoShapeOwner {_} _ _.
Arguments shapeElementHistory {_} _ _ _.
Arguments getIndexedName {_} _ _ _.
Arguments getMappedName {_} _ _ _.
Arguments elementType {_} _ _ _.
Arguments hasHasher {_} _ _.
Arguments setHasher {_} _ _ _.
Arguments setNullShape {_} _ _.
Arguments parseIndexedName {_} _ _.
Arguments isMappedElement {_} _ _.
Arguments newElementName {_} _ _.

(** [Data::HistoryItem]; its constructor takes the tag from the object. *)
Record HistoryItem := mkHistoryItem {
  hObj : option Obj;
  hTag : Z;
  hElement : MappedName;
  hIndex : IndexedName;
  hIntermediates : list MappedName
}.

Definition zeroChar : ascii := Ascii.zero.

Section Trace.
Context {Shape : Type} (W : World Shape).

Definition newHistoryItem (obj : option Obj) (name : MappedName) : HistoryItem :=
  mkHistoryItem obj (from_option (getID W) 0 obj) name nullIndexedName [].

(** The loop [for(;;++depth)] that looks through links: it ends at an
    object that links to itself or at the first object of another
    document.  [None] when [fuel] rounds do not reach the end. *)
Fixpoint followLinks (fuel : nat) (feature : Obj) (doc : Doc) (depth : nat)
    : option (Obj * Doc * nat) :=
  match fuel with
  | O => None
  | S fuel' =>
      let linked := getLinkedObject W feature depth in
      if Nat.eqb linked feature then Some (feature, doc, depth)
      else if negb (Nat.eqb (getDocument W linked) doc)
           then Some (linked, getDocument W linked, depth)
           else followLinks fuel' linked doc (S depth)
  end.

(** The document in which a tag is looked up, after the links are
    followed: the one of the element owner for a [GeoFeature]. *)
Definition ownerDocument (feature : Obj) (doc : Doc) (element : MappedName) : Doc :=
  if isGeoFeature W feature then
    match getElementOwner W feature element with
    | Some o => getDocument W o
    | None => doc
    end
  else doc.

(** [true] when every name has the element type [type]. *)
Definition allOfType (shape : Shape) (type : ascii) (names : list MappedName) : bool :=
  forallb (fun hist => Ascii.eqb (elementType W shape hist) type) names.

(** *** [Feature::getElementHistory] *)

(** The variables that live across the rounds of the [do] loop. *)
Record HState := mkHState {
  feature : Obj;
  shape : Shape;
  element : MappedName;
  prevElement : MappedName;
  depth : nat;
  ret : list HistoryItem
}.

(** What one round of the loop does: go on with a new state, or leave
    with the list. *)
Inductive Round :=
  | Continue (st : HState)
  | Return (r : list HistoryItem).

(** One round of the [do] loop of [getElementHistory]; [None] when the
    links are not followed to the end within [linkFuel]. *)
Definition historyRound (linkFuel : nat) (recursive : bool) (element_type : ascii)
    (st : HState) : option Round :=
  let '(tag, original, intermediates) := shapeElementHistory W (shape st) (element st) in
  let item := newHistoryItem (Some (feature st)) (element st) in
  let index := getIndexedName W (shape st) (element st) in
  let item :=
    if (negb (IndexedName_valid index) && MappedName_valid (prevElement st))%bool then
      let index' := getIndexedName W (shape st) (prevElement st) in
      if IndexedName_valid index' then
        mkHistoryItem (hObj item) (hTag item) (prevElement st) index'
                      (element st :: intermediates)
      else mkHistoryItem (hObj item) (hTag item) (element st) index' intermediates
    else mkHistoryItem (hObj item) (hTag item) (element st) index intermediates in
  let prevElement' := List.last (hIntermediates item) ""%string in
  located ←
    (if Z.eqb tag 0 then Some (feature st, depth st, None)
     else
       '(f, doc, d) ← followLinks linkFuel (feature st) (getDocument W (feature st)) (depth st);
       Some (f, d, getObjectByID W (ownerDocument f doc (element st)) (Z.abs tag)));
  let '(feature', depth', obj) := located in
  let ret' := ret st ++ [item] in
  if negb recursive then
    let last := newHistoryItem obj original in
    Some (Return (ret' ++ [mkHistoryItem (hObj last) tag (hElement last)
                                          (hIndex last) (hIntermediates last)]))
  else
    match obj with
    | None => Some (Return ret')
    | Some o =>
        if (negb (Ascii.eqb element_type zeroChar)
            && negb (allOfType (shape st) element_type (hIntermediates item)))%bool
        then Some (Return ret')
        else
          let shape' := getTopoShape W o in
          if (negb (Ascii.eqb element_type zeroChar)
              && negb (Ascii.eqb (elementType W shape' original) element_type))%bool
          then Some (Return ret')
          else Some (Continue (mkHState o shape' original prevElement' depth' ret'))
    end.

(** The [do] loop; [None] when [fuel] rounds do not end it. *)
Fixpoint historyLoop (fuel linkFuel : nat) (recursive : bool) (element_type : ascii)
    (st : HState) : option (list HistoryItem) :=
  match fuel with
  | O => None
  | S fuel' =>
      match historyRound linkFuel recursive element_type st with
      | None => None
      | Some (Return r) => Some r
      | Some (Continue st') => historyLoop fuel' linkFuel recursive element_type st'
      end
  end.

(** The state in which the loop is entered. *)
Definition historyStart (feature : Obj) (name : string) : HState :=
  let shape := getTopoShape W feature in
  let idx := parseIndexedName W name in
  let element :=
    if IndexedName_valid idx then getMappedName W shape idx
    else if isMappedElement W name then newElementName W name
    else name in
  mkHState feature shape element ""%string 0 [].

Definition getElementHistory (fuel linkFuel : nat) (feature : Obj) (name : string)
    (recursive sameType : bool) : option (list HistoryItem) :=
  let st := historyStart feature name in
  let element_type :=
    if sameType then elementType W (shape st) (element st) else zeroChar in
  historyLoop fuel linkFuel recursive element_type st.

(** The state reached after [n] rounds, when none of them leaves. *)
Fixpoint historyRounds (n linkFuel : nat) (recursive : bool) (element_type : ascii)
    (st : HState) : option Round :=
  match n with
  | O => Some (Continue st)
  | S n' =>
      match historyRounds n' linkFuel recursive element_type st with
      | Some (Continue st') => historyRound linkFuel recursive element_type st'
      | other => other
      end
  end.

(** An item that was made for an object: it names the object and carries
    the identity of the object as its tag. *)
Definition ownItem (it : HistoryItem) : Prop :=
  exists o, hObj it = Some o /\ hTag it = getID W o.

(** *** [getElementSource] *)

Record SState := mkSState {
  sOwner : option Obj;
  sShape : Shape;
  sDepth : nat;
  tagSet : gset (option Doc * Z);
  sRet : list (Z * MappedName)
}.

(** How the [while] loop of [getElementSource] is left. *)
Inductive Exit :=
  | OriginReached      (* no tag *)
  | TypeChanged        (* an intermediate or the original is of another type *)
  | CircularMapping.   (* the tag was seen before: FC_WARN *)

Inductive SourceRound :=
  | SContinue (st : SState)
  | SReturn (r : list (Z * MappedName)) (why : Exit).

(** One round of the [while(1)] loop of [getElementSource]. *)
Definition sourceRound (linkFuel : nat) (type : ascii) (st : SState)
    : option SourceRound :=
  let back := List.last (sRet st) (0, ""%string) in
  let shape :=
    match sOwner st with
    | Some o => if negb (hasHasher W (sShape st))
                then setHasher W (sShape st) (getDocument W o) else sShape st
    | None => sShape st
    end in
  let '(tag, original, history) := shapeElementHistory W shape back.2 in
  if Z.eqb tag 0 then Some (SReturn (sRet st) OriginReached)
  else
    located ←
      match sOwner st with
      | None => Some (None, None, sDepth st, true)
      | Some owner =>
          '(o, doc, d) ← followLinks linkFuel owner (getDocument W owner) (sDepth st);
          let doc := ownerDocument o doc back.2 in
          let obj := getObjectByID W doc (if tag <? 0 then - tag else tag) in
          Some (obj, Some doc, d,
                (Ascii.eqb type zeroChar || allOfType shape type history)%bool)
      end;
    let '(obj, doc, depth', sameKind) := located in
    if negb sameKind then Some (SReturn (sRet st) TypeChanged)
    else
      let '(shape', owner', doc') :=
        match obj with
        | None => (setNullShape W shape, None, None)
        | Some ob => let so := getTopoShapeOwner W ob in (so.1, so.2, doc)
        end in
      if (negb (Ascii.eqb type zeroChar)
          && negb (Ascii.eqb (elementType W shape' original) type))%bool
      then Some (SReturn (sRet st) TypeChanged)
      else if negb (Z.eqb (Z.abs tag) back.1) then
        if bool_decide ((doc', tag) ∈ tagSet st)
        then Some (SReturn (sRet st) CircularMapping)
        else Some (SContinue (mkSState owner' shape' depth' ({[ (doc', tag) ]} ∪ tagSet st)
                                       (sRet st ++ [(tag, original)])))
      else Some (SContinue (mkSState owner' shape' depth' (tagSet st)
                                     (sRet st ++ [(tag, original)]))).

Fixpoint sourceLoop (fuel linkFuel : nat) (type : ascii) (st : SState)
    : option (list (Z * MappedName) * Exit) :=
  match fuel with
  | O => None
  | S fuel' =>
      match sourceRound linkFuel type st with
      | None => None
      | Some (SReturn r why) => Some (r, why)
      | Some (SContinue st') => sourceLoop fuel' linkFuel type st'
      end
  end.

Definition getElementSource (fuel linkFuel : nat) (owner : option Obj) (shape : Shape)
    (name : MappedName) (type : ascii) : option (list (Z * MappedName) * Exit) :=
  sourceLoop fuel linkFuel type (mkSState owner shape 0 ∅ [(0, name)]).

End Trace.

(** Generation records in which the original name is shorter than the
    name generated from it, as when a record strips the last operation
    from the name. *)
Definition shrinking {Shape} (W : World Shape) : Prop :=
  forall shape n,
    (shapeElementHistory W shape n).1.1 <> 0 ->
    (String.length (shapeElementHistory W shape n).1.2 < String.length n)%nat.

(** [linkFuel] rounds suffice to look through any chain of links. *)
Definition linksEnd {Shape} (W : World Shape) (linkFuel : nat) : Prop :=
  forall o doc d, is_Some (followLinks W linkFuel o doc d).

(** *** A feature graph with a circular element map

    Two features of one document.  The shape of the first derives its
    element [x] from element [y] of the second, whose shape derives [y]
    from [x] of the first.  A shape is named by the object that owns it. *)
Definition circularWorld : World nat :=
  {| getID := Z.of_nat;
     getDocument := fun _ => O;
     getLinkedObject := fun o _ => o;
     isGeoFeature := fun _ => true;
     getElementOwner := fun _ _ => None;
     getObjectByID := fun _ id =>
       if ((1 <=? id) && (id <=? 2))%bool then Some (Z.to_nat id) else None;
     getTopoShape := fun o => o;
     getTopoShapeOwner := fun o => (o, Some o);
     shapeElementHistory := fun s n =>
       if (Nat.eqb s 1 && String.eqb n "x")%bool then (2, "y"%string, [])
       else if (Nat.eqb s 2 && String.eqb n "y")%bool then (1, "x"%string, [])
       else (0, n, []);
     getIndexedName := fun _ _ => nullIndexedName;
     getMappedName := fun _ _ => ""%string;
     elementType := fun _ _ => "E"%char;
     hasHasher := fun _ => true;
     setHasher := fun s _ => s;
     setNullShape := fun _ => O;
     parseIndexedName := fun _ => nullIndexedName;
     isMappedElement := fun _ => false;
     newElementName := fun n => n |}.

(** *** A feature graph whose records shorten the names

    Feature 2 derives its edge [x;F] from edge [x] of feature 1; the
    record strips the operation from the name. *)
Definition strippingWorld : World nat :=
  {| getID := Z.of_nat;
     getDocument := fun _ => O;
     getLinkedObject := fun o _ => o;
     isGeoFeature := fun _ => true;
     getElementOwner := fun _ _ => None;
     getObjectByID := fun _ id =>
       if ((1 <=? id) && (id <=? 2))%bool then Some (Z.to_nat id) else None;
     getTopoShape := fun o => o;
     getTopoShapeOwner := fun o => (o, Some o);
     shapeElementHistory := fun s n =>
       if String.eqb n "x;F" then (1, "x"%string, []) else (0, n, []);
     getIndexedName := fun _ _ => nullIndexedName;
     getMappedName := fun _ _ => ""%string;
     elementType := fun _ _ => "E"%char;
     hasHasher := fun _ => true;
     setHasher := fun s _ => s;
     setNullShape := fun _ => O;
     parseIndexedName := fun _ => nullIndexedName;
     isMappedElement := fun _ => false;
     newElementName := fun n => n |}.

(** The two states the walk alternates between on [circularWorld]. *)
Definition onCycle (st : @HState nat) : Prop :=
  (feature st = 1%nat /\ shape st = 1%nat /\ element st = "x"%string)
  \/ (feature st = 2%nat /\ shape st = 2%nat /\ element st = "y"%string).

End History.

(** ** [Feature::getElementFromSource] *)

Module FromSource.

Abbreviation Obj := nat.

(** What the calls of [getElementFromSource] into the absent classes
    yield for the arguments [obj], [subname], [src] and [srcSub] of one
    query.  [shape] is [getTopoShape(obj, subname, ...)], [srcShape] is
    [getTopoShape(src, srcSub, ..., &owner)]. *)
Record Query := mkQuery {
  (* owner->getID() *)
  ownerID : Z;
  (* Data::ComplexGeoData::noElementName(subname) *)
  noElementName : string;
  (* GeoFeature::resolveElement(src, srcSub, objElement, false) *)
  resolveSource : string * string;
  (* GeoFeature::resolveElement(obj, sub, objElement) *)
  resolveTarget : string -> string * string;
  newElementName : string -> string;
  (* isMappedElement: the mapped part of the name, or a null pointer *)
  isMappedElement : string -> option string;
  (* TopoShape::shapeType(findElementName(name), true) *)
  shapeTypeOf : string -> TopAbs_ShapeEnum;
  shapeName : TopAbs_ShapeEnum -> string;
  (* Data::IndexedName(const char * ) *)
  IndexedName_ofString : string -> IndexedName;
  (* the text that IndexedName::toString appends *)
  IndexedName_text : IndexedName -> string;
  (* shape.countSubShapes and srcShape.countSubShapes *)
  countSubShapes : TopAbs_ShapeEnum -> nat;
  srcCountSubShapes : TopAbs_ShapeEnum -> nat;
  (* shape.getMappedName(index, allowUnmapped) *)
  getMappedName : IndexedName -> bool -> MappedName;
  (* the names and tags with which shape.traceElement calls back, for as
     long as the callback returns false *)
  traceSteps : MappedName -> list (MappedName * Z);
  (* the names that shape.searchSubShape finds for
     getTopoShape(src, srcSub, true) *)
  searchSubShape : list string
}.

(** The calls into the target shape that a run makes, in order. *)
Inductive Call :=
  | CallTraceElement (mapped : MappedName)
  | CallSearchSubShape.

Section Search.
Context (Q : Query).

(** The lambda [checkHistory].  The state is [tagChanges] and [res];
    [elementName] is [element.name].  The first component of the outcome
    is the returned flag, which stops the trace when set. *)
Definition checkHistory (elementName : MappedName) (checkingSubname : IndexedName)
    (st : Z * list MappedElement) (name : MappedName) (tag : Z)
    : bool * (Z * list MappedElement) :=
  let '(tagChanges, res) := st in
  let '(cut, tagChanges) :=
    if Z.eqb (Z.abs tag) (ownerID Q) then
      (false, if Z.eqb tagChanges 0 then 1 else tagChanges)
    else if negb (Z.eqb tagChanges 0) then (3 <? tagChanges + 1, tagChanges + 1)
    else (false, tagChanges) in
  if cut then (true, (tagChanges, res))
  else if String.eqb name elementName then
    let objElement :=
      resolveTarget Q (noElementName Q +:+ IndexedName_text Q checkingSubname) in
    if negb (String.eqb objElement.2 "") then
      (true, (tagChanges,
              res ++ [mkMappedElement objElement.1 (IndexedName_ofString Q objElement.2)]))
    else (false, (tagChanges, res))
  else (false, (tagChanges, res)).

(** [shape.traceElement(mapped, cb)] on the steps of [mapped]: the state
    when the trace ends or is stopped. *)
Fixpoint traceElement {S} (steps : list (MappedName * Z))
    (cb : S -> MappedName -> Z -> bool * S) (st : S) : S :=
  match steps with
  | [] => st
  | (n, t) :: rest =>
      let '(stop, st') := cb st n t in
      if stop then st' else traceElement rest cb st'
  end.

(** The steps on which the callback is invoked. *)
Fixpoint invoked {S} (steps : list (MappedName * Z))
    (cb : S -> MappedName -> Z -> bool * S) (st : S) : list (MappedName * Z) :=
  match steps with
  | [] => []
  | (n, t) :: rest =>
      let '(stop, st') := cb st n t in
      (n, t) :: (if stop then [] else invoked rest cb st')
  end.

(** One traced element: [tagChanges] is reset and the trace runs. *)
Definition traceFor (elementName : MappedName) (checkingSubname : IndexedName)
    (res : list MappedElement) : MappedName * list MappedElement :=
  let mapped := getMappedName Q checkingSubname false in
  (mapped,
   (traceElement (traceSteps Q mapped) (checkHistory elementName checkingSubname) (0, res)).2).

(** [element.name] as taken from the resolved source element. *)
Definition sourceName : MappedName :=
  if negb (String.eqb (resolveSource Q).1 "") then
    default ""%string (isMappedElement Q (newElementName Q (resolveSource Q).1))
  else ""%string.

Definition sourceIndex : IndexedName := IndexedName_ofString Q (resolveSource Q).2.

(** The old style name after the translation of datum names. *)
Definition sourceOldName : string :=
  let second := (resolveSource Q).2 in
  if String.eqb second "Plane" then "Face1"
  else if String.eqb second "Line" then "Edge1"
  else if String.eqb second "Point" then "Vertex1"
  else second.

Definition sourceType : TopAbs_ShapeEnum := shapeTypeOf Q sourceOldName.

(** The guard of the shortcut. *)
Definition shortcutApplies : bool :=
  (negb (bool_decide (sourceType = TopAbs_SHAPE))
   && MappedName_valid sourceName
   && Nat.eqb (countSubShapes Q sourceType) (srcCountSubShapes Q sourceType))%bool.

(** [res] and the calls made when the shortcut block is left. *)
Definition shortcut : list MappedElement * list Call :=
  if shortcutApplies then
    let t := traceFor sourceName sourceIndex [] in
    (t.2, [CallTraceElement t.1])
  else ([], []).

(** The loop over the names that the geometric search found. *)
Definition geometric (single : bool) (names : list string) (res : list MappedElement)
    : list MappedElement :=
  let element := fun n : string =>
    let index := IndexedName_ofString Q n in
    mkMappedElement (getMappedName Q index true) index in
  res ++ (element <$> (if single then take 1 names else names)).

(** The loop over every element of the type, [i] running over the given
    indices. *)
Fixpoint scan (single : bool) (indices : list nat) (res : list MappedElement)
    (log : list Call) : list MappedElement * list Call :=
  match indices with
  | [] => (res, log)
  | i :: rest =>
      let checkingSubname :=
        IndexedName_fromConst (shapeName Q sourceType) (Z.of_nat i + 1) in
      let t := traceFor sourceName checkingSubname res in
      let log' := log ++ [CallTraceElement t.1] in
      if (single && negb (Nat.eqb (length t.2) 0))%bool then (t.2, log')
      else scan single rest t.2 log'
  end.

(** [getElementFromSource]: the returned vector and the calls made. *)
Definition getElementFromSource (obj src : option Obj) (single : bool)
    : list MappedElement * list Call :=
  match obj, src with
  | Some _, Some _ =>
      let '(res, log) := shortcut in
      if (shortcutApplies && negb (Nat.eqb (length res) 0))%bool then (res, log)
      else
        let names := searchSubShape Q in
        let log := log ++ [CallSearchSubShape] in
        if negb (Nat.eqb (length names) 0) then (geometric single names res, log)
        else if (negb (MappedName_valid sourceName)
                 || bool_decide (sourceType = TopAbs_SHAPE))%bool then (res, log)
        else scan single (seq 0 (countSubShapes Q sourceType)) res log
  | _, _ => ([], [])
  end.

(** A step whose tag is the identity of the source object. *)
Definition matchesSource (p : MappedName * Z) : bool := Z.eqb (Z.abs p.2) (ownerID Q).

(** The steps that follow the first one whose tag matches. *)
Fixpoint afterFirstMatch (l : list (MappedName * Z)) : list (MappedName * Z) :=
  match l with
  | [] => []
  | p :: rest => if matchesSource p then rest else afterFirstMatch rest
  end.

(** The number of steps whose tag is not the one of the source. *)
Definition tagChangesIn (l : list (MappedName * Z)) : nat :=
  length (List.filter (fun p => negb (matchesSource p)) l).

End Search.

(** *** Concrete queries *)

(** A target whose edges 1 and 2 both come from edge 1 of the source
    object, of identity 7; the source shape has two edges as well. *)
Definition twoEdges : Query :=
  {| ownerID := 7;
     noElementName := "";
     resolveSource := (";e1.Edge1", "Edge1")%string;
     resolveTarget := fun s => ((";t" +:+ s)%string, s);
     newElementName := fun s => s;
     isMappedElement := fun s =>
       if String.prefix ";" s then Some "e1"%string else None;
     shapeTypeOf := fun s =>
       if String.prefix "Edge" s then TopAbs_EDGE else TopAbs_SHAPE;
     shapeName := fun _ => "Edge"%string;
     IndexedName_ofString := fun s =>
       if String.eqb s "" then nullIndexedName
       else mkIndexedName "Edge" (if String.eqb s "Edge2" then 2 else 1);
     IndexedName_text := fun i => ("Edge" +:+ to_string (Z.to_nat (getIndex i)))%string;
     countSubShapes := fun _ => 2%nat;
     srcCountSubShapes := fun _ => 2%nat;
     getMappedName := fun i _ => ("t" +:+ to_string (Z.to_nat (getIndex i)))%string;
     traceSteps := fun m => [(m, 9); ("e1"%string, 7)];
     searchSubShape := ["Edge1"; "Edge2"]%string |}.

(** The same target when the source shape has three edges and the source
    element cannot be traced: only the geometric search answers. *)
Definition geometricOnly : Query :=
  {| ownerID := 7;
     noElementName := "";
     resolveSource := (";e1.Edge1", "Edge1")%string;
     resolveTarget := fun s => ((";t" +:+ s)%string, s);
     newElementName := fun s => s;
     isMappedElement := fun s =>
       if String.prefix ";" s then Some "e1"%string else None;
     shapeTypeOf := fun s =>
       if String.prefix "Edge" s then TopAbs_EDGE else TopAbs_SHAPE;
     shapeName := fun _ => "Edge"%string;
     IndexedName_ofString := fun s =>
       if String.eqb s "" then nullIndexedName
       else mkIndexedName "Edge" (if String.eqb s "Edge2" then 2 else 1);
     IndexedName_text := fun i => ("Edge" +:+ to_string (Z.to_nat (getIndex i)))%string;
     countSubShapes := fun _ => 2%nat;
     srcCountSubShapes := fun _ => 3%nat;
     getMappedName := fun i _ => ("t" +:+ to_string (Z.to_nat (getIndex i)))%string;
     traceSteps := fun m => [(m, 9)];
     searchSubShape := ["Edge1"; "Edge2"]%string |}.

(** A source element that does not resolve, and nothing congruent in the
    target. *)
Definition unresolved : Query :=
  {| ownerID := 7;
     noElementName := "";
     resolveSource := ("", "")%string;
     resolveTarget := fun s => (""%string, ""%string);
     newElementName := fun s => s;
     isMappedElement := fun _ => None;
     shapeTypeOf := fun s =>
       if String.prefix "Edge" s then TopAbs_EDGE else TopAbs_SHAPE;
     shapeName := fun _ => "Edge"%string;
     IndexedName_ofString := fun _ => nullIndexedName;
     IndexedName_text := fun _ => ""%string;
     countSubShapes := fun _ => 2%nat;
     srcCountSubShapes := fun _ => 0%nat;
     getMappedName := fun _ _ => ""%string;
     traceSteps := fun _ => [];
     searchSubShape := [] |}.

(** A trace that meets the tag of the source, 7, and then other tags. *)
Definition longTrace : list (MappedName * Z) :=
  [("a", 5); ("b", -7); ("c", 4); ("d", 7); ("e", 3); ("f", 2); ("g", 1); ("h", 7)]%string.

End FromSource.

(** ** [Feature::getRelatedElements] *)

Module Related.
Import History.

(** The further members of [TopoShape] that [getRelatedElements] calls. *)
Record ShapeOps (Shape : Type) := mkShapeOps {
  (* shape.getElementName(name) *)
  getElementName : Shape -> string -> MappedElement;
  (* TopoShape::shapeType(char, true) *)
  shapeTypeOfChar : ascii -> TopAbs_ShapeEnum;
  shapeName : TopAbs_ShapeEnum -> string;
  countSubShapes : Shape -> TopAbs_ShapeEnum -> nat;
  (* shape.getMappedName(index) *)
  getMappedNameOf : Shape -> IndexedName -> MappedName
}.
Arguments getElementName {_} _ _ _.
Arguments shapeTypeOfChar {_} _ _.
Arguments shapeName {_} _ _.
Arguments countSubShapes {_} _ _ _.
Arguments getMappedNameOf {_} _ _ _.

(** Modelled from the spec: the cache of related elements that the
    element map of a shape holds (section 4.4), one entry per
    (element, sameType) pair.  The class that holds it is not among the
    sources. *)
Abbreviation Cache := (gmap (string * bool) (list MappedElement)).

(** Modelled from the spec: [TopoShape::getRelatedElementsCached], the
    read of the entry of a pair; [None] stands for the returned [false]. *)
Definition getRelatedElementsCached (cache : Cache) (name : MappedName) (sameType : bool)
    : option (list MappedElement) :=
  cache !! (name, sameType).

(** Modelled from the spec: [TopoShape::cacheRelatedElements], the write
    of the entry of a pair. *)
Definition cacheRelatedElements (cache : Cache) (name : MappedName) (sameType : bool)
    (ret : list MappedElement) : Cache :=
  <[(name, sameType) := ret]> cache.

(** [std::map<int, QVector<MappedElement>>] as a list in key order;
    [retMap[idx].push_back(e)]. *)
Fixpoint retMap_push (idx : Z) (e : MappedElement) (m : list (Z * list MappedElement))
    : list (Z * list MappedElement) :=
  match m with
  | [] => [(idx, [e])]
  | (k, v) :: rest =>
      if idx <? k then (idx, [e]) :: m
      else if idx =? k then (k, v ++ [e]) :: rest
      else (k, v) :: retMap_push idx e rest
  end.

(** The loop that compares two sources from their ends: [rsrc] is [src]
    from its last entry on; the value of [idx] when the loop is left. *)
Fixpoint compareSources (rsrc source : list (Z * MappedName)) (idx : Z) : Z :=
  match rsrc with
  | [] => idx
  | r :: rest =>
      if idx <? 0 then idx
      else
        match source !! Z.to_nat idx with
        | Some s =>
            if negb (String.eqb r.2 s.2) then idx + 1
            else compareSources rest source (idx - 1)
        | None => idx
        end
  end.

(** The name at the end of a list of sources: the oldest name that the
    trace reached. *)
Definition origin (source : list (Z * MappedName)) : MappedName :=
  (List.last source (0, ""%string)).2.

Section Query.
Context {Shape : Type} (W : World Shape) (X : ShapeOps Shape).

(** The first entry of [source] that has an index name in the shape. *)
Definition firstIndexed (shape : Shape) (source : list (Z * MappedName))
    : option MappedElement :=
  (fun src => mkMappedElement src.2 (getIndexedName W shape src.2))
    <$> List.find (fun src => IndexedName_valid (getIndexedName W shape src.2)) source.

(** The loop over every element of the type. *)
Fixpoint scanRelated (fuel linkFuel : nat) (owner : option Obj) (shape : Shape)
    (type : TopAbs_ShapeEnum) (srcType : ascii) (source : list (Z * MappedName))
    (indices : list nat) (retMap : list (Z * list MappedElement))
    : option (list (Z * list MappedElement)) :=
  match indices with
  | [] => Some retMap
  | i :: rest =>
      let index := IndexedName_fromConst (shapeName X type) (Z.of_nat i) in
      let related := mkMappedElement (getMappedNameOf X shape index) index in
      if negb (MappedName_valid (MappedElement.name related)) then
        scanRelated fuel linkFuel owner shape type srcType source rest retMap
      else
        src ← getElementSource W fuel linkFuel owner shape (MappedElement.name related) srcType;
        let idx := compareSources (rev src.1) source (Z.of_nat (length source) - 1) in
        let retMap' :=
          if idx <? Z.of_nat (length source) then retMap_push idx related retMap
          else retMap in
        scanRelated fuel linkFuel owner shape type srcType source rest retMap'
  end.

(** A scanned element of the shape whose sources end in the oldest name
    of [source]. *)
Definition sameOrigin (fuel linkFuel : nat) (owner : option Obj) (shape : Shape)
    (srcType : ascii) (source : list (Z * MappedName)) (e : MappedElement) : Prop :=
  MappedName_valid (MappedElement.name e) = true
  /\ MappedElement.name e = getMappedNameOf X shape (MappedElement.index e)
  /\ exists src,
       getElementSource W fuel linkFuel owner shape (MappedElement.name e) srcType = Some src
       /\ origin src.1 = origin source.

(** [getRelatedElements] for a non-null object: the returned vector and
    the cache as the call leaves it; [None] when a trace of sources does
    not end within the fuel. *)
Definition getRelatedElements (fuel linkFuel : nat) (obj : Obj) (name : string)
    (sameType withCache : bool) (cache : Cache)
    : option (list MappedElement * Cache) :=
  let '(shape, owner) := getTopoShapeOwner W obj in
  let mapped := getElementName X shape name in
  if negb (MappedName_valid (MappedElement.name mapped)) then Some ([], cache)
  else
    match (if withCache
           then getRelatedElementsCached cache (MappedElement.name mapped) sameType
           else None) with
    | Some ret => Some (ret, cache)
    | None =>
        let element_type := elementType W shape (MappedElement.name mapped) in
        let type := shapeTypeOfChar X element_type in
        if bool_decide (type = TopAbs_SHAPE) then Some ([], cache)
        else
          let srcType := if sameType then element_type else zeroChar in
          source ← getElementSource W fuel linkFuel owner shape
                                    (MappedElement.name mapped) srcType;
          match firstIndexed shape source.1 with
          | Some e =>
              let ret := [e] in
              Some (ret, cacheRelatedElements cache (MappedElement.name mapped) sameType ret)
          | None =>
              retMap ← scanRelated fuel linkFuel owner shape type srcType source.1
                                   (seq 1 (countSubShapes X shape type)) [];
              let ret := match retMap with
                         | [] => []
                         | first :: _ => first.2
                         end in
              Some (ret, cacheRelatedElements cache (MappedElement.name mapped) sameType ret)
          end
    end.

End Query.

(** *** A feature graph with a short lineage

    Feature 2 derives its edge [y] from edge [x] of feature 1.  The name
    [z] is no longer in the shape of feature 2 but has the same origin. *)
Definition chainWorld : World nat :=
  {| getID := Z.of_nat;
     getDocument := fun _ => O;
     getLinkedObject := fun o _ => o;
     isGeoFeature := fun _ => true;
     getElementOwner := fun _ _ => None;
     getObjectByID := fun _ id =>
       if ((1 <=? id) && (id <=? 2))%bool then Some (Z.to_nat id) else None;
     getTopoShape := fun o => o;
     getTopoShapeOwner := fun o => (o, Some o);
     shapeElementHistory := fun s n =>
       if (Nat.eqb s 2 && (String.eqb n "y" || String.eqb n "z"))%bool
       then (1, "x"%string, [])
       else (0, n, []);
     getIndexedName := fun s n =>
       if (Nat.eqb s 2 && String.eqb n "y")%bool then mkIndexedName "Edge" 1
       else if (Nat.eqb s 1 && String.eqb n "x")%bool then mkIndexedName "Edge" 1
       else nullIndexedName;
     getMappedName := fun _ _ => ""%string;
     elementType := fun _ n => if String.eqb n "?" then zeroChar else "E"%char;
     hasHasher := fun _ => true;
     setHasher := fun s _ => s;
     setNullShape := fun _ => O;
     parseIndexedName := fun _ => nullIndexedName;
     isMappedElement := fun _ => false;
     newElementName := fun n => n |}.

Definition chainOps : ShapeOps nat :=
  {| getElementName := fun s n =>
       if String.eqb n "Edge1" then
         mkMappedElement (if Nat.eqb s 2 then "y" else "x")%string (mkIndexedName "Edge" 1)
       else if String.eqb n "Edge9" then mkMappedElement ""%string (mkIndexedName "Edge" 9)
       else mkMappedElement n nullIndexedName;
     shapeTypeOfChar := fun c => if Ascii.eqb c "E" then TopAbs_EDGE else TopAbs_SHAPE;
     shapeName := fun _ => "Edge"%string;
     countSubShapes := fun _ _ => 1%nat;
     getMappedNameOf := fun s i =>
       if Z.eqb (getIndex i) 1 then (if Nat.eqb s 2 then "y" else "x")%string
       else ""%string |}.

End Related.

(** ** [FilletBase::syncEdgeLink] and [FilletBase::onUpdateElementReference] *)

Module FilletBase.

Abbreviation Obj := nat.

(** [std::to_string(int)]. *)
Definition int_to_string (z : Z) : string :=
  if z <? 0 then ("-" +:+ to_string (Z.to_nat (- z)))%string
  else to_string (Z.to_nat z).

(** What a [%d] directive of [sscanf] does with its input. *)
Inductive Conversion :=
  | Converted (v : Z)
  | Unmatched            (* no digits: the directive fails *)
  | Unrepresentable.     (* the value does not fit an [int]: undefined *)

(** The directive [%d]: white space is skipped, a sign is accepted and
    the decimal digits that follow are converted. *)
Definition scan_d (s : string) : Conversion :=
  let s := skip_space s in
  let '(neg, body) :=
    match s with
    | String "-" s' => (true, s')
    | String "+" s' => (false, s')
    | _ => (false, s)
    end in
  match read_digits body None with
  | Some v =>
      let v := if neg then - v else v in
      if ((INT_MIN <=? v) && (v <=? INT_MAX))%bool then Converted v else Unrepresentable
  | None => Unmatched
  end.

(** [sscanf(s, "Edge%d", &idx)]: the value of [idx] after the call, [None]
    when the conversion is undefined.  The characters of [Edge] have to be
    matched one by one before the directive is reached. *)
Definition sscanf_Edge_d (s : string) (idx : Z) : option Z :=
  if String.prefix "Edge" s then
    match scan_d (string_drop 4 s) with
    | Converted v => Some v
    | Unmatched => Some idx
    | Unrepresentable => None
    end
  else Some idx.

(** The name of the edge with number [id], as [syncEdgeLink] spells it. *)
Definition edgeLink (id : Z) : string := ("Edge" +:+ int_to_string id)%string.

(** [Part::FilletElement]; the radii are floating point numbers, of which
    nothing but their identity is used. *)
Record FilletElement (R : Type) := mkFilletElement {
  edgeid : Z;
  radius1 : R;
  radius2 : R
}.
Arguments mkFilletElement {R} _ _ _.
Arguments edgeid {R} _.
Arguments radius1 {R} _.
Arguments radius2 {R} _.

(** The properties [Base], [Edges] and [EdgeLinks] of a fillet feature;
    [EdgeLinks] holds the linked object and its sub-element names. *)
Record Fillet (R : Type) := mkFillet {
  Base : option Obj;
  Edges : list (FilletElement R);
  EdgeLinks : option Obj * list string
}.
Arguments mkFillet {R} _ _ _.
Arguments Base {R} _.
Arguments Edges {R} _.
Arguments EdgeLinks {R} _.

Inductive Warning :=
  | CountMismatch               (* fillet edge count mismatch *)
  | InvalidLink (sub : string). (* invalid fillet edge link *)

Section Fillets.
Context {R : Type}.

Definition syncEdgeLink (f : Fillet R) : Fillet R :=
  match Base f, Edges f with
  | None, _ | _, [] => mkFillet (Base f) (Edges f) (None, [])
  | Some base, _ =>
      mkFillet (Base f) (Edges f)
               (Some base, (fun info => ("Edge" +:+ int_to_string (edgeid info))%string)
                             <$> Edges f)
  end.

(** The loop over [values] of [onUpdateElementReference]; [subs] are the
    sub-element names from position [i] on. *)
Fixpoint updateEdgeIds (values : list (FilletElement R)) (subs : list string)
    : option (list (FilletElement R) * list Warning) :=
  match values with
  | [] => Some ([], [])
  | v :: values' =>
      match subs with
      | [] => Some (values, [CountMismatch])
      | sub :: subs' =>
          idx ← sscanf_Edge_d sub 0;
          rest ← updateEdgeIds values' subs';
          if negb (Z.eqb idx 0)
          then Some (mkFilletElement idx (radius1 v) (radius2 v) :: rest.1, rest.2)
          else Some (v :: rest.1, InvalidLink sub :: rest.2)
      end
  end.

(** [onUpdateElementReference(prop)]: [isEdgeLinks] tells whether [prop]
    is [EdgeLinks], [attached] whether the feature has a name in a
    document.  The result is the feature and the warnings, in order. *)
Definition onUpdateElementReference (isEdgeLinks attached : bool) (f : Fillet R)
    : option (Fillet R * list Warning) :=
  if (negb isEdgeLinks || negb attached)%bool then Some (f, [])
  else
    r ← updateEdgeIds (Edges f) (EdgeLinks f).2;
    Some (mkFillet (Base f) r.1 (EdgeLinks f), r.2).

End Fillets.

(** A fillet of two edges of object 1; radii are numbered. *)
Definition twoFillets : Fillet nat :=
  mkFillet (Some 1%nat)
           [mkFilletElement 3 10%nat 10%nat; mkFilletElement 7 20%nat 25%nat]
           (None, []).

(** The same fillet after its links were redirected: the first to edge 4,
    the second to a face. *)
Definition relinked : Fillet nat :=
  mkFillet (Base twoFillets) (Edges twoFillets) (Some 1%nat, ["Edge4"; "Face7"]%string).


End FilletBase.

(** ** The element cache of [Part::Feature]

    [registerElementCache], [onBeforeChange] and [searchElementCache]. *)

Module ElementCache.

(** The address of a shape property: the [Shape] property of the feature
    or another [PropertyPartShape]. *)
Inductive PropRef :=
  | ShapeRef
  | OtherRef (p : nat).

#[global] Instance PropRef_eq_dec : EqDecision PropRef.
Proof. solve_decision. Defined.

Fixpoint string_take (n : nat) (s : string) : string :=
  match n, s with
  | S n', String a s' => String a (string_take n' s')
  | _, _ => EmptyString
  end.

(** [strrchr(s, c) - s]: the position of the last [c]. *)
Fixpoint strrchr_pos (s : string) (c : ascii) : option nat :=
  match s with
  | EmptyString => None
  | String a s' =>
      match strrchr_pos s' c with
      | Some k => Some (S k)
      | None => if Ascii.eqb a c then Some O else None
      end
  end.

(** [name.insert(pos, prefix)] at the position after the last dot, or at
    the front of a name without dot. *)
Definition insertPrefix (prefix name : string) : string :=
  match strrchr_pos name "." with
  | Some k =>
      String.append (string_take (S k) name)
                    (String.append prefix (string_drop (S k) name))
  | None => String.append prefix name
  end.

Section Cache.
(** [H] stands for a [TopoShape] that is not null, [Opt] for the search
    options and tolerances. *)
Context {H Opt : Type}.

(** [Feature::ElementCache]; a null shape is [None]. *)
Record Entry := mkEntry {
  shape : option H;
  names : list string;
  searched : bool
}.

(** [_elementCachePrefixMap] and [_elementCache] of a feature. *)
Record Caches := mkCaches {
  prefixMap : list (string * PropRef);
  cache : gmap string Entry
}.

(** The calls into the shape of a property. *)
Record ShapeOps := mkShapeOps {
  (* prop->getShape().getSubTopoShape(name, true) *)
  getSubTopoShape : PropRef -> string -> option H;
  (* the names that prop->getShape().searchSubShape(shape, &names, ...) adds *)
  searchSubShape : PropRef -> H -> Opt -> list string;
  hasMissingElement : string -> bool
}.

Context (K : ShapeOps).

(** The loop of [registerElementCache] for a null property: the iterator
    is advanced nowhere, so a round that does not erase is followed by the
    same round.  [None] when [fuel] rounds do not end the loop. *)
Fixpoint unregisterLoop (fuel : nat) (prefix : string) (map : list (string * PropRef))
    : option (list (string * PropRef)) :=
  match fuel with
  | O => None
  | S fuel' =>
      match map with
      | [] => Some map
      | first :: rest =>
          if String.eqb first.1 prefix then Some rest
          else unregisterLoop fuel' prefix map
      end
  end.

Definition registerElementCache (fuel : nat) (prefix : string) (prop : option PropRef)
    (st : Caches) : option Caches :=
  match prop with
  | Some p => Some (mkCaches (prefixMap st ++ [(prefix, p)]) (cache st))
  | None => map ← unregisterLoop fuel prefix (prefixMap st); Some (mkCaches map (cache st))
  end.

(** The property and the prefix that [onBeforeChange] settles on: the
    [Shape] property without prefix, or the last registered entry of the
    property. *)
Definition changedShape (map : list (string * PropRef)) (prop : PropRef)
    : option (option string * PropRef) :=
  if bool_decide (prop = ShapeRef) then Some (None, ShapeRef)
  else
    foldl (fun found v =>
             if bool_decide (prop = v.2) then Some (Some v.1, v.2) else found)
          None map.

(** The keys of the cache in the order of [std::map]. *)
Definition keysInOrder (c : gmap string Entry) : list string :=
  merge_sort (fun a b : string => String.leb a b) (map_to_list c).*1.

(** One round of the loop over the cache: whether the entry at [key] is
    erased. *)
Definition evictStep (prefix : option string) (c : gmap string Entry) (key : string)
    : gmap string Entry :=
  let remove :=
    match prefix with
    | Some p => starts_with key p
    | None => negb (existsb (fun k => starts_with key k) (map_to_list c).*1)
    end in
  if remove then delete key c else c.

Definition evictLoop (prefix : option string) (keys : list string) (c : gmap string Entry)
    : gmap string Entry :=
  foldl (evictStep prefix) c keys.

(** One round of the loop over the referenced elements; [element] is
    [findElementName(sub)], a null pointer being [None]. *)
Definition cacheStep (map : list (string * PropRef)) (prefix : option string)
    (propShape : PropRef) (c : gmap string Entry) (element : option string)
    : gmap string Entry :=
  match element with
  | None => c
  | Some el =>
      if (String.eqb el "" || hasMissingElement K el)%bool then c
      else if (match prefix with
               | Some p => negb (starts_with el p)
               | None => existsb (fun v : string * PropRef => starts_with el v.1) map
               end) then c
      else
        match c !! el with
        | Some _ => c
        | None =>
            let plen := from_option String.length O prefix in
            <[el := mkEntry (getSubTopoShape K propShape (string_drop plen el)) [] false]> c
        end
  end.

(** [onBeforeChange(prop)] up to the call of the base class.  [recording]
    says that the feature has a document which is neither restoring nor
    in a transaction; [elements] are the element names of the sub-names of
    all element references that have a container. *)
Definition onBeforeChange (prop : PropRef) (recording : bool)
    (elements : list (option string)) (st : Caches) : Caches :=
  match changedShape (prefixMap st) prop with
  | None => st
  | Some (prefix, propShape) =>
      let c1 :=
        match prefixMap st with
        | [] => ∅
        | _ => evictLoop prefix (keysInOrder (cache st)) (cache st)
        end in
      let c2 :=
        if recording then foldl (cacheStep (prefixMap st) prefix propShape) c1 elements
        else c1 in
      mkCaches (prefixMap st) c2
  end.

(** Whether an element name passes the filters of the loop over the
    references: not empty, not missing, and with the prefix of the changed
    property or, for [Shape], with no registered prefix. *)
Definition eligible (map : list (string * PropRef)) (prefix : option string)
    (el : string) : bool :=
  (negb (String.eqb el "") && negb (hasMissingElement K el)
   && match prefix with
      | Some p => starts_with el p
      | None => negb (existsb (fun v : string * PropRef => starts_with el v.1) map)
      end)%bool.

(** The entry that the loop over the references inserts. *)
Definition freshEntry (prefix : option string) (propShape : PropRef) (el : string)
    : Entry :=
  mkEntry (getSubTopoShape K propShape (string_drop (from_option String.length O prefix) el))
          [] false.

(** The property whose shape is searched: the first registered entry
    whose prefix starts the element name, or [Shape]. *)
Definition searchedShape (map : list (string * PropRef)) (element : string)
    : PropRef * option string :=
  match List.find (fun v : string * PropRef => starts_with element v.1) map with
  | Some v => (v.2, Some v.1)
  | None => (ShapeRef, None)
  end.

(** [searchElementCache]: the returned names and the caches as the call
    leaves them. *)
Definition searchElementCache (element : string) (options : Opt) (st : Caches)
    : list string * Caches :=
  if String.eqb element "" then ([], st)
  else
    match cache st !! element with
    | None => ([], st)
    | Some e =>
        match shape e with
        | None => ([], st)
        | Some sh =>
            if searched e then (names e, st)
            else
              let '(propShape, prefix) := searchedShape (prefixMap st) element in
              let found := names e ++ searchSubShape K propShape sh options in
              let names' :=
                match prefix with
                | Some p => insertPrefix p <$> found
                | None => found
                end in
              (names', mkCaches (prefixMap st)
                                (<[element := mkEntry (Some sh) names' true]> (cache st)))
        end
    end.

End Cache.

(** The shape property of a tool, registered under the prefix [Tool;]. *)
Definition toolProp : PropRef := OtherRef 1.

(** Shapes are numbered: [Face1] is shape 1 in [Shape] and shape 2 in any
    other property; a search in [Shape] finds [Face6], one in another
    property finds [Face2] and [Pad.Face3]; names that start with [?] are
    missing. *)
Definition boxOps : @ShapeOps nat unit :=
  mkShapeOps
    (fun prop name =>
       if String.eqb name "Face1"
       then Some (match prop with ShapeRef => 1 | OtherRef _ => 2 end)%nat
       else None)
    (fun prop sh _ =>
       match prop with
       | ShapeRef => ["Face6"]
       | OtherRef _ => ["Face2"; "Pad.Face3"]
       end%string)
    (fun name => starts_with name "?").

(** A cache with a searched entry under the prefix and an entry without
    shape. *)
Definition withTool : @Caches nat :=
  mkCaches [("Tool;"%string, toolProp)]
           (<["Tool;Face1"%string := mkEntry (Some 7%nat) ["Face9"%string] true]>
              (<["Edge1"%string := mkEntry None [] false]> ∅)).

(** The same entries with no prefix registered. *)
Definition noPrefix : @Caches nat := mkCaches [] (cache withTool).

End ElementCache.

(** ** [checkLinkVisibility] *)

Module LinkVisibility.

Definition NUL : ascii := Ascii.zero.

(** A [std::string] read through [c_str()] as a C string: the characters
    before the first zero character. *)
Fixpoint c_str (s : string) : string :=
  match s with
  | EmptyString => EmptyString
  | String a s' => if Ascii.eqb a NUL then EmptyString else String a (c_str s')
  end.

(** A string that holds no zero character, as every C string does. *)
Fixpoint nul_free (s : string) : bool :=
  match s with
  | EmptyString => true
  | String a s' => (negb (Ascii.eqb a NUL) && nul_free s')%bool
  end.

(** [s[i] = c] for [i <= s.size()]; at [s.size()] only the zero
    character is written, which leaves the string as it is. *)
Fixpoint set_char (i : nat) (c : ascii) (s : string) : string :=
  match s, i with
  | EmptyString, _ => EmptyString
  | String _ s', O => String c s'
  | String a s', S i' => String a (set_char i' c s')
  end.

(** The positions that [sub.find('.', from)] yields one after the other,
    [i] being the position of the first character of [s]. *)
Fixpoint dots_from (i : nat) (s : string) : list nat :=
  match s with
  | EmptyString => []
  | String a s' =>
      if Ascii.eqb a "." then i :: dots_from (S i) s' else dots_from (S i) s'
  end.

Definition dots (s : string) : list nat := dots_from 0 s.

Section Links.
Context {Obj : Type}.

(** The calls on document objects; an [Obj] is not null. *)
Record Objects := mkObjects {
  getNameInDocument : Obj -> bool;
  checkLink : Obj -> bool;
  (* App::LinkBaseExtension::getHiddenSubnames(obj) *)
  getHiddenSubnames : Obj -> list string;
  (* obj->getSubObject(subname) *)
  getSubObject : Obj -> string -> option Obj;
  (* Data::ComplexGeoData::findElementName(subname) - subname *)
  findElementName : string -> nat
}.

Context (D : Objects).

(** The two reference arguments, [hiddens] and [lastLink]. *)
Record State := mkState {
  hiddens : gset string;
  lastLink : option Obj
}.

(** [sub] while the character after the dot at [pos] is overwritten. *)
Definition marked (sub : string) (pos : nat) : string := set_char (S pos) NUL sub.

(** One round of the loop over the dots of [sub]; [None] is the return
    of [false]. *)
Definition visitDot (check : bool) (obj : Obj) (sub : string) (st : option State)
    (pos : nat) : option State :=
  st ← st;
  let range := ElementCache.string_take (S pos) (marked sub pos) in
  let kept := filter (fun h => starts_with h range = true) (hiddens st) in
  if (check && bool_decide (set_Exists (fun h => String.length h = S pos) kept))%bool
  then None
  else
    sobj ← getSubObject D obj (c_str (marked sub pos));
    if negb (getNameInDocument D sobj) then None
    else if checkLink D sobj then
      Some (mkState (kept ∪ list_to_set ((fun s => marked sub pos +:+ s)
                                           <$> getHiddenSubnames D sobj))
                    (Some sobj))
    else Some (mkState kept (lastLink st)).

(** The state after the first block: the hidden names of [obj] are added
    when it is a link. *)
Definition enter (st : State) (obj : Obj) : State :=
  if checkLink D obj
  then mkState (hiddens st ∪ list_to_set (getHiddenSubnames D obj)) (Some obj)
  else st.

(** [checkLinkVisibility]: [None] is the return of [false], otherwise
    the reference arguments as the call leaves them. *)
Definition checkLinkVisibility (st : State) (check : bool) (obj : option Obj)
    (subname : option string) : option State :=
  match obj with
  | None => None
  | Some o =>
      if negb (getNameInDocument D o) then None
      else
        let st := enter st o in
        match subname with
        | None | Some EmptyString => Some st
        | Some subname =>
            let sub := ElementCache.string_take (findElementName D subname) subname in
            st ← foldl (visitDot check o sub) (Some st) (dots sub);
            Some (mkState
                    (set_map (fun s => c_str (string_drop (String.length sub) s))
                             (filter (fun s => (String.length sub < String.length s)%nat)
                                     (hiddens st)))
                    (lastLink st))
        end
  end.

(** A name of [hiddens] is one of [from] or was declared by the link
    met at the dot [last] of the path [sub] of [obj]. *)
Definition declaredAt (obj : Obj) (sub : string) (from : gset string)
    (last : option nat) (h : string) : Prop :=
  h ∈ from
  \/ exists pos sobj s,
       last = Some pos
       /\ getSubObject D obj (c_str (marked sub pos)) = Some sobj
       /\ checkLink D sobj = true
       /\ s ∈ getHiddenSubnames D sobj
       /\ h = (marked sub pos +:+ s)%string.

(** The hidden name [r] is what is left of a name of [from] behind the
    path [sub]. *)
Definition remainderOf (sub : string) (from : gset string) (r : string) : Prop :=
  exists h, h ∈ from /\ (String.length sub < String.length h)%nat
            /\ r = c_str (string_drop (String.length sub) h).

End Links.

(** Objects are numbered; object 1 holds the link 2 at [a.], which holds
    the link 3 at [b.]; link 2 hides its child [b.] and link 3 hides its
    child [c.]. *)
Definition nested : @Objects nat :=
  {| getNameInDocument := fun _ => true;
     checkLink := fun o => (Nat.eqb o 2 || Nat.eqb o 3)%bool;
     getHiddenSubnames := fun o =>
       if Nat.eqb o 2 then ["b."%string] else if Nat.eqb o 3 then ["c."%string] else [];
     getSubObject := fun _ s =>
       if String.eqb s "a." then Some 2%nat
       else if String.eqb s "a.b." then Some 3%nat else None;
     findElementName := fun s => (String.length s - 5)%nat |}.

End LinkVisibility.

(** ** [Feature::disableElementMapping] and [Feature::isElementMappingDisabled] *)

Module ElementMapping.

Section Flags.
(** [Store] is the state of the property containers, [Container] an
    [App::PropertyContainer*] that is not null and [BoolProp] an
    [App::PropertyBool*] that is not null. *)
Context {Store Container BoolProp : Type} `{EqDecision Container}.

(** The calls into the property system, for the property name
    [Part_NoElementMap]. *)
Record PropertySystem := mkPropertySystem {
  (* freecad_dynamic_cast<App::PropertyBool>(container->getPropertyByName(name)) *)
  getPropertyByName : Store -> Container -> option BoolProp;
  (* prop->getContainer() *)
  getContainer : Store -> BoolProp -> Container;
  (* container->addDynamicProperty("App::PropertyBool", name, "Part") *)
  addDynamicProperty : Store -> Container -> Store * BoolProp;
  setValue : Store -> BoolProp -> bool -> Store;
  getValue : Store -> BoolProp -> bool;
  (* obj->getDocument() of a container that is a DocumentObject *)
  getDocument : Container -> option Container
}.

Context (P : PropertySystem).

(** [propDisableMapping]: the store, which changes when the property is
    created, and the returned property. *)
Definition propDisableMapping (s : Store) (container : Container) (forced : bool)
    : Store * option BoolProp :=
  let own :=
    match getPropertyByName P s container with
    | Some prop => if bool_decide (getContainer P s prop = container) then Some prop else None
    | None => None
    end in
  match own with
  | Some prop => (s, Some prop)
  | None =>
      if negb forced then (s, None)
      else let '(s', prop) := addDynamicProperty P s container in (s', Some prop)
  end.

Definition disableElementMapping (s : Store) (container : option Container)
    (disable : bool) : Store :=
  match container with
  | None => s
  | Some c =>
      let '(s', prop) := propDisableMapping s c disable in
      match prop with
      | Some p => setValue P s' p disable
      | None => s'
      end
  end.

Definition isElementMappingDisabled (s : Store) (container : option Container) : bool :=
  match container with
  | None => false
  | Some c =>
      let own :=
        match (propDisableMapping s c false).2 with
        | Some p => getValue P s p
        | None => false
        end in
      if own then true
      else
        match getDocument P c with
        | Some doc =>
            match (propDisableMapping s doc false).2 with
            | Some p => getValue P s p
            | None => false
            end
        | None => false
        end
  end.

(** A property that some container answers for the name. *)
Definition live (s : Store) (p : BoolProp) : Prop :=
  exists c, getPropertyByName P s c = Some p.

(** What the functions need of the property system: a value that is set
    is the value read, setting a value changes neither which property a
    container answers nor who owns it nor the value of another property,
    and a property that is added is answered by its container and owned
    by it. *)
Definition lawful : Prop :=
  (forall s p v, live s p -> getValue P (setValue P s p v) p = v)
  /\ (forall s p v c, live s p ->
        getPropertyByName P (setValue P s p v) c = getPropertyByName P s c)
  /\ (forall s p v q, live s p ->
        getContainer P (setValue P s p v) q = getContainer P s q)
  /\ (forall s p v q, live s p -> q <> p ->
        getValue P (setValue P s p v) q = getValue P s q)
  /\ (forall s c, getPropertyByName P (addDynamicProperty P s c).1 c
                  = Some (addDynamicProperty P s c).2
                  /\ getContainer P (addDynamicProperty P s c).1 (addDynamicProperty P s c).2
                     = c).

End Flags.

(** Containers are numbered, container 0 being the document of the
    others; the store holds the flag of each container that has one, and
    a property is named by its container. *)
Definition flagTable : @PropertySystem (gmap nat bool) nat nat :=
  {| getPropertyByName := fun s c =>
       match s !! c with
       | Some _ => Some c
       | None => None
       end;
     getContainer := fun _ p => p;
     addDynamicProperty := fun s c => (<[c := false]> s, c);
     setValue := fun s p v => alter (fun _ => v) p s;
     getValue := fun s p => default false (s !! p);
     getDocument := fun c => if Nat.eqb c 0 then None else Some 0%nat |}.

End ElementMapping.

(** * Verified properties *)

(** ** Properties of [Feature::getElementName] *)

Section ExportFacts.
Import ExportName.
Context {TopoDS_Shape : Type}.
Implicit Types (shape : TopoShape TopoDS_Shape) (em : ElementMap).

(** C9.  A query of a type other than [Export], and any query on a
    feature whose geometry property is not a shape property, returns
    exactly what the base [GeoFeature::getElementName] returns and leaves
    the property as it was; the property (and with it the element map)
    can only change for an [Export] query on a shape property. *)
Theorem getElementName_delegates_to_base
    (base : string -> ElementNameType -> string * string)
    (prop : Property TopoDS_Shape) (name : string) (type : ElementNameType) :
  (type <> Export \/ isPartShape prop = false ->
     Feature_getElementName base prop name type = Ok (prop, base name type))
  /\ (forall prop' r,
        Feature_getElementName base prop name type = Ok (prop', r) ->
        prop' <> prop \/ r <> base name type ->
        type = Export /\ isPartShape prop = true).
Proof.
  assert (Hbase : type <> Export \/ isPartShape prop = false ->
            Feature_getElementName base prop name type = Ok (prop, base name type)).
  { intros [Hty | Hprop]; unfold Feature_getElementName.
    - rewrite bool_decide_eq_false_2 by assumption. reflexivity.
    - destruct (bool_decide (type = Export)); simpl; [|reflexivity].
      destruct prop; simpl in Hprop; [discriminate | reflexivity | reflexivity]. }
  split; [exact Hbase|].
  intros prop' r Hrun Hdiff.
  destruct (decide (type = Export)) as [Hty | Hty].
  - split; [assumption|].
    destruct (isPartShape prop) eqn:Hp; [reflexivity|].
    rewrite Hbase in Hrun by (right; reflexivity).
    injection Hrun as <- <-. destruct Hdiff; congruence.
  - rewrite Hbase in Hrun by (left; assumption).
    injection Hrun as <- <-. destruct Hdiff; congruence.
Qed.

Lemma MappedName_valid_false (n : MappedName) :
  MappedName_valid n = false -> n = ""%string.
Proof.
  unfold MappedName_valid. intros H. apply negb_false_iff in H.
  apply String.eqb_eq in H. exact H.
Qed.

Lemma MappedName_valid_true (n : MappedName) :
  MappedName_valid n = true -> n <> ""%string.
Proof.
  unfold MappedName_valid. intros H. apply negb_true_iff in H.
  apply String.eqb_neq in H. exact H.
Qed.

Lemma setElementComboName_stored em element names marker op em' d :
  names <> [] ->
  setElementComboName em element names marker op = (em', d) ->
  d = comboName names marker op
  /\ forward em' !! d = Some element
  /\ reverse em' !! element = Some d.
Proof.
  intros Hne Hset. unfold setElementComboName in Hset.
  destruct names as [|n names]; [congruence|].
  injection Hset as <- <-. simpl.
  split; [reflexivity|]. split; apply lookup_insert_eq.
Qed.

Lemma chooseNames_nonempty shape kind idx lower idxName subshape names op :
  chooseNames shape kind idx lower idxName subshape = Ok (Some (names, op)) ->
  names <> [].
Proof.
  unfold chooseNames.
  destruct (collectLower _ _ _ _ _ _ _) as [indices collected].
  destruct (survivingAncestors _ _) as [sel|f]; simpl; [|discriminate].
  destruct (take _ collected) as [|n l] eqn:Htake; [discriminate|].
  destruct (indexSuffix _ _ _) as [o|f]; simpl; [|discriminate].
  intros H. injection H as <- _. discriminate.
Qed.

Lemma decodeIndex_name shape em name mapped :
  MappedElement.name (decodeIndex shape em name mapped) = MappedElement.name mapped.
Proof.
  unfold decodeIndex.
  destruct (strchr name ".") as [dot|]; [|reflexivity].
  destruct (0 <? _); [|reflexivity].
  destruct (decodeElementComboName _ _ _ _) as [names postfix].
  destruct (applyOrdinal _ _ _) as [|a [|b l]]; reflexivity.
Qed.

(** With the element map modelled from the spec: for a query by
    index name [idx] on a coherent element map, any durable name that
    [getExportElementName] hands on resolves, on the element map as the call
    leaves it, back to [idx]; the name is present in both tables, also when
    it has just been synthesized. *)
Theorem export_name_round_trip shape em name idx em' m :
  coherent em ->
  parseIndexedName shape name = Some idx ->
  exportMapped shape em name = Ok (em', m) ->
  MappedElement.name m <> ""%string ->
  getIndexedName em' (MappedElement.name m) = idx
  /\ forward em' !! MappedElement.name m = Some idx
  /\ reverse em' !! idx = Some (MappedElement.name m).
Proof.
  intros Hcoh Hparse Hrun Hname.
  assert (Hhit : forall m0, MappedElement.name m0 = getMappedName em idx ->
            MappedElement.name m0 <> ""%string ->
            getIndexedName em (MappedElement.name m0) = idx
            /\ forward em !! MappedElement.name m0 = Some idx
            /\ reverse em !! idx = Some (MappedElement.name m0)).
  { intros m0 Hm0 Hne. rewrite Hm0 in *. unfold getMappedName in *.
    destruct (reverse em !! idx) as [d|] eqn:Hrev; simpl in *; [|congruence].
    pose proof (Hcoh _ _ Hrev) as Hfwd.
    unfold getIndexedName. rewrite Hfwd. auto. }
  unfold exportMapped, getElementName in Hrun. rewrite Hparse in Hrun.
  simpl in Hrun.
  set (res := shapeTypeAndIndex shape idx) in *.
  destruct (negb (res.2 =? 0) && negb (MappedName_valid (getMappedName em idx)))%bool
    eqn:Hsyn.
  - apply andb_true_iff in Hsyn as [_ Hnull].
    apply negb_true_iff, MappedName_valid_false in Hnull.
    destruct (getSubTopoShape shape res.1 res.2) as [subshape|].
    2:{ injection Hrun as <- <-. simpl in Hname. congruence. }
    destruct (lowerKind res.1) as [lower idxName].
    destruct (bool_decide (lower = TopAbs_SHAPE)).
    { injection Hrun as <- <-. simpl in Hname. congruence. }
    destruct (chooseNames shape res.1 res.2 lower idxName subshape)
      as [[[names op]|]|f] eqn:Hch; simpl in Hrun; [| |discriminate].
    2:{ injection Hrun as <- <-. simpl in Hname. congruence. }
    destruct (setElementComboName em idx names (getType idx) op) as [em1 d] eqn:Hset.
    injection Hrun as <- <-. simpl.
    apply chooseNames_nonempty in Hch.
    destruct (setElementComboName_stored _ _ _ _ _ _ _ Hch Hset) as (_ & Hf & Hr).
    unfold getIndexedName. rewrite Hf. auto.
  - destruct (res.2 =? 0) eqn:Hz;
      destruct (MappedName_valid (getMappedName em idx)) eqn:Hv; simpl in Hrun;
      injection Hrun as <- <-; apply Hhit; try assumption;
      try rewrite decodeIndex_name; reflexivity.
Qed.

Lemma synthesis_is_stored shape em name idx em' m :
  parseIndexedName shape name = Some idx ->
  getMappedName em idx = ""%string ->
  exportMapped shape em name = Ok (em', m) ->
  MappedElement.name m <> ""%string ->
  MappedElement.index m = idx
  /\ (shapeTypeAndIndex shape idx).2 <> 0
  /\ forward em' = <[MappedElement.name m := idx]> (forward em)
  /\ reverse em' = <[idx := MappedElement.name m]> (reverse em).
Proof.
  intros Hparse Hnull Hrun Hname.
  unfold exportMapped, getElementName in Hrun. rewrite Hparse in Hrun.
  cbn [MappedElement.name MappedElement.index] in Hrun. rewrite Hnull in Hrun.
  set (res := shapeTypeAndIndex shape idx) in *.
  change (MappedName_valid "") with false in Hrun. cbn [negb] in Hrun.
  rewrite andb_true_r, andb_false_r in Hrun.
  destruct (res.2 =? 0) eqn:Hz; cbn [negb] in Hrun.
  { injection Hrun as <- <-. cbn in Hname. congruence. }
  apply Z.eqb_neq in Hz.
  destruct (getSubTopoShape shape res.1 res.2) as [subshape|].
  2:{ injection Hrun as <- <-. cbn in Hname. congruence. }
  destruct (lowerKind res.1) as [lower idxName].
  destruct (bool_decide (lower = TopAbs_SHAPE)).
  { injection Hrun as <- <-. cbn in Hname. congruence. }
  destruct (chooseNames shape res.1 res.2 lower idxName subshape)
    as [[[names op]|]|f] eqn:Hch; cbn in Hrun; [| |discriminate].
  2:{ injection Hrun as <- <-. cbn in Hname. congruence. }
  apply chooseNames_nonempty in Hch.
  unfold setElementComboName in Hrun. destruct names as [|n names]; [congruence|].
  injection Hrun as <- <-. cbn. auto.
Qed.

(** C2 on the code, with the element map modelled from the spec.  A
    combo name is stored in both tables before it is returned, so right
    after its synthesis it resolves to its index name.  But when two
    elements without durable name are given the same combo name one after
    the other, the second synthesis takes the forward entry over: the
    first element is still answered with the name, and the name now
    resolves to the second element.  Two elements that are answered with
    one name cannot both be resolved from it, however the table treats a
    name that is stored twice. *)
Theorem shared_combo_name_breaks_round_trip shape em n1 n2 i1 i2 em1 em2 m1 m2 :
  parseIndexedName shape n1 = Some i1 ->
  parseIndexedName shape n2 = Some i2 ->
  i1 <> i2 ->
  getMappedName em i1 = ""%string ->
  getMappedName em i2 = ""%string ->
  exportMapped shape em n1 = Ok (em1, m1) ->
  exportMapped shape em1 n2 = Ok (em2, m2) ->
  MappedElement.name m1 <> ""%string ->
  MappedElement.name m2 = MappedElement.name m1 ->
  (getIndexedName em1 (MappedElement.name m1) = i1
   /\ reverse em1 !! i1 = Some (MappedElement.name m1))
  /\ (getIndexedName em2 (MappedElement.name m2) = i2
      /\ reverse em2 !! i2 = Some (MappedElement.name m2))
  /\ exportMapped shape em2 n1 = Ok (em2, m1)
  /\ getIndexedName em2 (MappedElement.name m1) = i2
  /\ getIndexedName em2 (MappedElement.name m1) <> i1
  /\ (forall resolve : MappedName -> IndexedName,
        resolve (MappedElement.name m1) <> i1 \/ resolve (MappedElement.name m2) <> i2).
Proof.
  intros Hp1 Hp2 Hne Hnull1 Hnull2 Hrun1 Hrun2 Hname Hsame.
  destruct (synthesis_is_stored _ _ _ _ _ _ Hp1 Hnull1 Hrun1 Hname)
    as (Hidx1 & Hres1 & Hf1 & Hr1).
  assert (Hnull2' : getMappedName em1 i2 = ""%string).
  { unfold getMappedName in *. rewrite Hr1, lookup_insert_ne by exact Hne. exact Hnull2. }
  assert (Hname2 : MappedElement.name m2 <> ""%string) by (rewrite Hsame; exact Hname).
  destruct (synthesis_is_stored _ _ _ _ _ _ Hp2 Hnull2' Hrun2 Hname2)
    as (Hidx2 & _ & Hf2 & Hr2).
  assert (Hback : getIndexedName em2 (MappedElement.name m1) = i2).
  { unfold getIndexedName. rewrite Hf2, Hsame, lookup_insert_eq. reflexivity. }
  split; [|split; [|split; [|split; [|split]]]].
  - unfold getIndexedName. rewrite Hf1, Hr1, !lookup_insert_eq. auto.
  - unfold getIndexedName. rewrite Hf2, Hr2, !lookup_insert_eq. auto.
  - unfold exportMapped, getElementName. rewrite Hp1.
    cbn [MappedElement.name MappedElement.index].
    assert (Hd : getMappedName em2 i1 = MappedElement.name m1).
    { unfold getMappedName. rewrite Hr2, lookup_insert_ne by congruence.
      rewrite Hr1, lookup_insert_eq. reflexivity. }
    rewrite Hd.
    assert (Hvalid : MappedName_valid (MappedElement.name m1) = true).
    { unfold MappedName_valid. apply negb_true_iff, String.eqb_neq. exact Hname. }
    rewrite Hvalid. apply Z.eqb_neq in Hres1. rewrite Hres1. cbn.
    destruct m1 as [d1 x1]. cbn in *. subst x1. reflexivity.
  - exact Hback.
  - rewrite Hback. congruence.
  - intros resolve. rewrite Hsame.
    destruct (decide (resolve (MappedElement.name m1) = i1)) as [Heq|Hneq];
      [right; congruence | left; exact Hneq].
Qed.

(** [stable_sort] orders the entries by their number of ancestors, keeps
    every entry, and keeps entries with the same number in their order. *)
Lemma insertEntry_perm (e : NameEntry) l : insertEntry e l ≡ₚ e :: l.
Proof.
  induction l as [|x l IH]; simpl; [reflexivity|].
  destruct (Nat.ltb (length x.2) (length e.2)); [|reflexivity].
  rewrite IH. apply Permutation_swap.
Qed.

Lemma stable_sort_perm l : stable_sort l ≡ₚ l.
Proof.
  induction l as [|e l IH]; simpl; [reflexivity|].
  rewrite insertEntry_perm, IH. reflexivity.
Qed.

Lemma insertEntry_sorted (e : NameEntry) l :
  StronglySorted (fun a b : NameEntry => (length a.2 <= length b.2)%nat) l ->
  StronglySorted (fun a b : NameEntry => (length a.2 <= length b.2)%nat) (insertEntry e l).
Proof.
  induction 1 as [|x l Hs IH Hx]; simpl.
  - repeat constructor.
  - destruct (Nat.ltb (length x.2) (length e.2)) eqn:Hlt.
    + apply Nat.ltb_lt in Hlt. constructor; [exact IH|].
      rewrite insertEntry_perm. constructor; [lia | exact Hx].
    + apply Nat.ltb_ge in Hlt. constructor; [constructor; assumption|].
      constructor; [exact Hlt|].
      eapply Forall_impl; [exact Hx|]. simpl. intros; lia.
Qed.

Lemma stable_sort_sorted l :
  StronglySorted (fun a b : NameEntry => (length a.2 <= length b.2)%nat) (stable_sort l).
Proof.
  induction l as [|e l IH]; simpl; [constructor|].
  apply insertEntry_sorted. exact IH.
Qed.

Lemma insertEntry_stable (k : nat) (e : NameEntry) l :
  filter (fun x : NameEntry => length x.2 = k) (insertEntry e l)
  = filter (fun x : NameEntry => length x.2 = k) (e :: l).
Proof.
  induction l as [|x l IH]; simpl; [reflexivity|].
  destruct (Nat.ltb (length x.2) (length e.2)) eqn:Hlt; [|reflexivity].
  apply Nat.ltb_lt in Hlt.
  rewrite (filter_cons _ x (insertEntry e l)), IH.
  rewrite !filter_cons.
  repeat case_decide; try reflexivity; lia.
Qed.

Lemma stable_sort_stable (k : nat) l :
  filter (fun x : NameEntry => length x.2 = k) (stable_sort l)
  = filter (fun x : NameEntry => length x.2 = k) l.
Proof.
  induction l as [|e l IH]; simpl; [reflexivity|].
  rewrite insertEntry_stable, !filter_cons, IH. reflexivity.
Qed.

(** Below [MaxLowerTopoNames] collected names the choice of names always
    completes. *)
Lemma chooseNames_defined_below_max shape kind idx lower idxName subshape :
  (length (collectLower shape kind idxName
             (getSubTopoShapes shape subshape lower) [] [] 0).2
   < MaxLowerTopoNames)%nat ->
  exists r, chooseNames shape kind idx lower idxName subshape = Ok r.
Proof.
  unfold chooseNames.
  destruct (collectLower _ _ _ _ _ _ _) as [indices collected]. cbn [snd].
  intros Hlt. unfold survivingAncestors.
  apply Nat.leb_gt in Hlt. rewrite Hlt. cbn.
  destruct (take _ collected); eexists; reflexivity.
Qed.

Lemma collectLower_cons shape kind idxName ss rest indices names count :
  collectLower shape kind idxName (ss :: rest) indices names count =
    let name := subMappedName shape ss idxName in
    if negb (MappedName_valid name) then
      collectLower shape kind idxName rest indices names count
    else
      let anc := findAncestors shape ss kind in
      let indices' := indices ++ [(String.length name, anc)] in
      let names' := names ++ [name] in
      if Nat.eqb (length anc) 1 then
        if Nat.leb MinLowerTopoNames (S count) then (indices', names')
        else collectLower shape kind idxName rest indices' names' (S count)
      else collectLower shape kind idxName rest indices' names' count.
Proof. reflexivity. Qed.

Lemma collectLower_spec shape kind idxName subs indices names count :
  (count < MinLowerTopoNames)%nat ->
  exists es,
    es `prefix_of` lowerEntries shape kind idxName subs
    /\ collectLower shape kind idxName subs indices names count
        = (indices ++ ((fun e => (String.length e.1, e.2)) <$> es), names ++ es.*1)
    /\ (ownedCount es + count <= MinLowerTopoNames)%nat
    /\ ((ownedCount es + count < MinLowerTopoNames)%nat ->
        es = lowerEntries shape kind idxName subs)
    /\ ((ownedCount es + count = MinLowerTopoNames)%nat ->
        exists es' e, es = es' ++ [e] /\ owned e = true).
Proof.
  revert indices names count.
  induction subs as [|ss subs IH]; intros indices names count Hcount.
  - exists []. simpl. rewrite !app_nil_r.
    split; [reflexivity|]. split; [reflexivity|].
    split; [unfold ownedCount; simpl; lia|].
    split; [reflexivity|]. unfold ownedCount; simpl; lia.
  - rewrite collectLower_cons. cbv zeta.
    unfold lowerEntries. cbn [omap list_omap].
    fold (lowerEntries shape kind idxName subs).
    destruct (MappedName_valid (subMappedName shape ss idxName)) eqn:Hv;
      cbn [negb].
    + set (e := (subMappedName shape ss idxName, findAncestors shape ss kind)).
      destruct (Nat.eqb (length (findAncestors shape ss kind)) 1) eqn:Hown.
      * assert (Howned : owned e = true) by exact Hown.
        destruct (Nat.leb MinLowerTopoNames (S count)) eqn:Hstop.
        -- exists [e]. apply Nat.leb_le in Hstop.
           assert (Hoc : ownedCount [e] = 1%nat).
           { unfold ownedCount. rewrite filter_cons.
             rewrite decide_True by exact Howned. reflexivity. }
           split; [|split; [|split; [|split]]].
           ++ exists (lowerEntries shape kind idxName subs). reflexivity.
           ++ reflexivity.
           ++ rewrite Hoc; lia.
           ++ rewrite Hoc. intros; lia.
           ++ intros _. exists [], e. split; [reflexivity | exact Howned].
        -- apply Nat.leb_gt in Hstop.
           destruct (IH (indices ++ [(String.length e.1, e.2)]) (names ++ [e.1]) (S count))
             as (es & Hpre & Heq & Hle & Hall & Hlast); [lia|].
           exists (e :: es).
           assert (Hoc : ownedCount (e :: es) = S (ownedCount es)).
           { unfold ownedCount. rewrite filter_cons.
             rewrite decide_True by exact Howned. reflexivity. }
           split; [|split; [|split; [|split]]].
           ++ apply prefix_cons. exact Hpre.
           ++ subst e; simpl in *. rewrite Heq. rewrite <- !app_assoc. reflexivity.
           ++ rewrite Hoc; lia.
           ++ rewrite Hoc. intros H. f_equal. apply Hall. lia.
           ++ rewrite Hoc. intros H.
              destruct Hlast as (es' & e0 & -> & He0); [lia|].
              exists (e :: es'), e0. split; [reflexivity | exact He0].
      * assert (Howned : owned e = false) by exact Hown.
        destruct (IH (indices ++ [(String.length e.1, e.2)]) (names ++ [e.1]) count)
          as (es & Hpre & Heq & Hle & Hall & Hlast); [lia|].
        exists (e :: es).
        assert (Hoc : ownedCount (e :: es) = ownedCount es).
        { unfold ownedCount. rewrite filter_cons.
          rewrite decide_False by (rewrite Howned; discriminate). reflexivity. }
        split; [|split; [|split; [|split]]].
        ++ apply prefix_cons. exact Hpre.
        ++ subst e; simpl in *. rewrite Heq. rewrite <- !app_assoc. reflexivity.
        ++ rewrite Hoc; lia.
        ++ rewrite Hoc. intros H. f_equal. apply Hall. lia.
        ++ rewrite Hoc. intros H.
           destruct (Hlast H) as (es' & e0 & -> & He0).
           exists (e :: es'), e0. split; [reflexivity | exact He0].
    + apply IH. exact Hcount.
Qed.

Lemma chooseNames_run shape kind idx lower idxName subshape r :
  chooseNames shape kind idx lower idxName subshape = Ok r ->
  exists es,
    es `prefix_of` lowerEntries shape kind idxName (getSubTopoShapes shape subshape lower)
    /\ (ownedCount es <= MinLowerTopoNames)%nat
    /\ ((ownedCount es < MinLowerTopoNames)%nat ->
        es = lowerEntries shape kind idxName (getSubTopoShapes shape subshape lower))
    /\ ((ownedCount es = MinLowerTopoNames)%nat ->
        exists es' e, es = es' ++ [e] /\ owned e = true)
    /\ match r with
       | None => es = []
       | Some (names, op) => names = take MaxLowerTopoNames es.*1 /\ es <> []
       end.
Proof.
  unfold chooseNames. intros Hrun.
  destruct (collectLower_spec shape kind idxName
              (getSubTopoShapes shape subshape lower) [] [] 0)
    as (es & Hpre & Heq & Hle & Hall & Hlast); [unfold MinLowerTopoNames; lia|].
  rewrite Heq in Hrun. simpl app in Hrun.
  exists es. rewrite Nat.add_0_r in Hle, Hall, Hlast.
  split; [exact Hpre|]. split; [exact Hle|]. split; [exact Hall|].
  split; [exact Hlast|].
  destruct (survivingAncestors _ _) as [sel|f]; simpl in Hrun; [|discriminate].
  assert (Htake : take (Nat.min (length es.*1) MaxLowerTopoNames) es.*1
                  = take MaxLowerTopoNames es.*1).
  { destruct (Nat.le_ge_cases (length es.*1) MaxLowerTopoNames) as [H|H].
    - rewrite Nat.min_l by exact H. rewrite !take_ge by lia. reflexivity.
    - rewrite Nat.min_r by exact H. reflexivity. }
  rewrite Htake in Hrun.
  destruct (take MaxLowerTopoNames es.*1) as [|n l] eqn:Hnames.
  - injection Hrun as <-. destruct es; [reflexivity|discriminate].
  - destruct (indexSuffix _ _ _) as [op|f]; simpl in Hrun; [|discriminate].
    injection Hrun as <-. split; [reflexivity|].
    intros ->. discriminate.
Qed.

Lemma chooseNames_enumerated shape kind idx lower idxName subshape :
  exists es,
    es `prefix_of` lowerEntries shape kind idxName (getSubTopoShapes shape subshape lower)
    /\ (ownedCount es <= MinLowerTopoNames)%nat
    /\ ((ownedCount es < MinLowerTopoNames)%nat ->
        es = lowerEntries shape kind idxName (getSubTopoShapes shape subshape lower))
    /\ ((ownedCount es = MinLowerTopoNames)%nat ->
        exists es' e, es = es' ++ [e] /\ owned e = true)
    /\ (collectLower shape kind idxName (getSubTopoShapes shape subshape lower) [] [] 0).2
       = es.*1
    /\ ((length es < MaxLowerTopoNames)%nat -> es <> [] ->
        chooseNames shape kind idx lower idxName subshape = Ok (Some (es.*1, ""%string)))
    /\ (forall r, chooseNames shape kind idx lower idxName subshape = Ok r ->
        match r with
        | None => es = []
        | Some (names, op) => names = take MaxLowerTopoNames es.*1 /\ es <> []
        end).
Proof.
  destruct (collectLower_spec shape kind idxName
              (getSubTopoShapes shape subshape lower) [] [] 0)
    as (es & Hpre & Heq & Hle & Hall & Hlast); [unfold MinLowerTopoNames; lia|].
  cbn [app] in Heq. rewrite Nat.add_0_r in Hle, Hall, Hlast.
  exists es. split; [exact Hpre|]. split; [exact Hle|]. split; [exact Hall|].
  split; [exact Hlast|]. split; [rewrite Heq; reflexivity|].
  assert (Htake : take (Nat.min (length es.*1) MaxLowerTopoNames) es.*1
                  = take MaxLowerTopoNames es.*1).
  { destruct (Nat.le_ge_cases (length es.*1) MaxLowerTopoNames) as [H|H].
    - rewrite Nat.min_l by exact H. rewrite !take_ge by lia. reflexivity.
    - rewrite Nat.min_r by exact H. reflexivity. }
  split.
  - intros Hlt Hne. unfold chooseNames. rewrite Heq. unfold survivingAncestors.
    assert (Hleb : Nat.leb MaxLowerTopoNames (length es.*1) = false).
    { apply Nat.leb_gt. rewrite length_fmap. exact Hlt. }
    rewrite Hleb. cbn [mbind]. cbn. rewrite Htake.
    rewrite take_ge by (rewrite length_fmap; lia).
    destruct es as [|e es]; [congruence|]. reflexivity.
  - intros r Hrun. unfold chooseNames in Hrun. rewrite Heq in Hrun.
    destruct (survivingAncestors _ _) as [sel|f]; simpl in Hrun; [|discriminate].
    rewrite Htake in Hrun.
    destruct (take MaxLowerTopoNames es.*1) as [|n l] eqn:Hnames.
    + injection Hrun as <-. destruct es; [reflexivity|discriminate].
    + destruct (indexSuffix _ _ _) as [op|f]; simpl in Hrun; [|discriminate].
      injection Hrun as <-. split; [reflexivity|].
      intros ->. discriminate.
Qed.





Lemma find_pos_lookup x l k : find_pos x l = Some k -> l !! k = Some x.
Proof.
  revert k. induction l as [|y l IH]; intros k; simpl; [discriminate|].
  destruct (Z.eqb y x) eqn:Heq.
  - intros [= <-]. apply Z.eqb_eq in Heq. subst. reflexivity.
  - destruct (find_pos x l) as [k'|]; simpl; [|discriminate].
    intros [= <-]. simpl. apply IH. reflexivity.
Qed.

Lemma to_string_inj a b : to_string a = to_string b -> a = b.
Proof.
  unfold to_string. intros H.
  assert (Hu : Nat.to_uint a = Nat.to_uint b).
  { pose proof (NilEmpty.usu (Nat.to_uint a)) as Ha.
    pose proof (NilEmpty.usu (Nat.to_uint b)) as Hb.
    rewrite H in Ha. rewrite Ha in Hb. injection Hb as Hb. exact Hb. }
  rewrite <- (Unsigned.of_to a), <- (Unsigned.of_to b), Hu. reflexivity.
Qed.

Lemma append_cancel_l (s a b : string) : (s +:+ a = s +:+ b)%string -> a = b.
Proof.
  induction s as [|c s IH]; simpl; intros H; [exact H|].
  injection H as H. apply IH. exact H.
Qed.

Lemma comboName_suffix_inj names marker a b :
  comboName names marker a = comboName names marker b -> a = b.
Proof.
  unfold comboName. intros H.
  apply append_cancel_l in H. apply append_cancel_l in H. exact H.
Qed.

Lemma indexSuffix_cases shape idx anc op :
  indexSuffix shape idx anc = Ok op ->
  ((length anc <= 1)%nat -> op = ""%string)
  /\ ((1 < length anc)%nat ->
      exists k, anc !! k = Some idx /\ op = (indexPostfix shape +:+ to_string k)%string).
Proof.
  unfold indexSuffix. destruct (Nat.ltb 1 (length anc)) eqn:Hlt.
  - apply Nat.ltb_lt in Hlt.
    destruct (find_pos idx anc) as [k|] eqn:Hfind; [|discriminate].
    intros [= <-]. split; [lia|]. intros _. exists k.
    split; [apply find_pos_lookup; exact Hfind | reflexivity].
  - apply Nat.ltb_ge in Hlt. intros [= <-]. split; [reflexivity | lia].
Qed.

Lemma chooseNames_suffix shape kind idx lower idxName subshape names op :
  chooseNames shape kind idx lower idxName subshape = Ok (Some (names, op)) ->
  let c := collectLower shape kind idxName (getSubTopoShapes shape subshape lower) [] [] 0 in
  exists anc,
    survivingAncestors c.1 c.2 = Ok anc
    /\ ((length c.2 < MaxLowerTopoNames)%nat -> anc = [])
    /\ indexSuffix shape idx anc = Ok op.
Proof.
  unfold chooseNames.
  destruct (collectLower _ _ _ _ _ _ _) as [indices collected]. simpl.
  destruct (survivingAncestors indices collected) as [anc|f] eqn:Hanc; simpl;
    [|discriminate].
  destruct (take _ collected) as [|n l]; [discriminate|].
  destruct (indexSuffix shape idx anc) as [o|f] eqn:Hop; simpl; [|discriminate].
  intros [= _ <-]. exists anc. split; [reflexivity|]. split; [|exact Hop].
  intros Hlt. unfold survivingAncestors in Hanc.
  apply Nat.leb_gt in Hlt. rewrite Hlt in Hanc. injection Hanc as <-. reflexivity.
Qed.

(** Where the suffix is computed.  The index suffix is appended exactly when
    [MaxLowerTopoNames] names or more were collected and the selection loop
    leaves more than one ancestor: it is the index postfix followed by the
    position of the element among those ancestors, and it is empty when
    fewer names were collected or at most one ancestor is left.  Two
    distinct elements for which the loop leaves the same ancestors, more
    than one, receive different suffixes; when their runs of names are the
    same, their combo names differ and, stored one after the other, each
    resolves to its own index name. *)
Theorem index_suffix_when_truncated shape kind lower idxName
    (i j : Z) (si sj : TopoDS_Shape) ni opi :
  chooseNames shape kind i lower idxName si = Ok (Some (ni, opi)) ->
  let ci := collectLower shape kind idxName (getSubTopoShapes shape si lower) [] [] 0 in
  let cj := collectLower shape kind idxName (getSubTopoShapes shape sj lower) [] [] 0 in
  (exists anc,
     survivingAncestors ci.1 ci.2 = Ok anc
     /\ ((length ci.2 < MaxLowerTopoNames)%nat -> anc = [] /\ opi = ""%string)
     /\ ((length anc <= 1)%nat -> opi = ""%string)
     /\ ((1 < length anc)%nat ->
         exists k, anc !! k = Some i
                   /\ opi = (indexPostfix shape +:+ to_string k)%string))
  /\ (forall nj opj anc,
        i <> j ->
        chooseNames shape kind j lower idxName sj = Ok (Some (nj, opj)) ->
        survivingAncestors ci.1 ci.2 = Ok anc ->
        survivingAncestors cj.1 cj.2 = Ok anc ->
        (1 < length anc)%nat ->
        opi <> opj
        /\ (ni = nj ->
            forall em ei ej marker,
              let di := comboName ni marker opi in
              let dj := comboName nj marker opj in
              let em1 := (setElementComboName em ei ni marker opi).1 in
              let em2 := (setElementComboName em1 ej nj marker opj).1 in
              di <> dj
              /\ getIndexedName em2 di = ei
              /\ getIndexedName em2 dj = ej)).
Proof.
  intros Hi ci cj.
  destruct (chooseNames_suffix _ _ _ _ _ _ _ _ Hi) as (anci & Hanci & Hshort & Hopi).
  fold ci in Hanci, Hshort.
  destruct (indexSuffix_cases _ _ _ _ Hopi) as [Hle Hgt].
  split.
  - exists anci. split; [exact Hanci|]. split; [|split; assumption].
    intros Hlt. specialize (Hshort Hlt). subst anci.
    split; [reflexivity|]. apply Hle. simpl. lia.
  - intros nj opj anc Hij Hj Hai Haj Hlen.
    destruct (chooseNames_suffix _ _ _ _ _ _ _ _ Hj) as (ancj & Hancj & _ & Hopj).
    fold cj in Hancj.
    rewrite Hai in Hanci. injection Hanci as <-.
    rewrite Haj in Hancj. injection Hancj as <-.
    destruct (Hgt Hlen) as (ki & Hki & ->).
    destruct (indexSuffix_cases _ _ _ _ Hopj) as [_ Hgtj].
    destruct (Hgtj Hlen) as (kj & Hkj & ->).
    assert (Hne : (indexPostfix shape +:+ to_string ki)%string
                  <> (indexPostfix shape +:+ to_string kj)%string).
    { intros Heq. apply append_cancel_l, to_string_inj in Heq. subst kj.
      rewrite Hki in Hkj. injection Hkj as Hkj. contradiction. }
    split; [exact Hne|].
    intros <- em ei ej marker di dj em1 em2.
    assert (Hnn : ni <> []) by (eapply chooseNames_nonempty; exact Hi).
    assert (Hd : di <> dj).
    { subst di dj. intros Heq. apply comboName_suffix_inj in Heq. contradiction. }
    split; [exact Hd|].
    subst em1 em2. unfold setElementComboName, getIndexedName.
    destruct ni as [|n0 ni]; [congruence|]. simpl.
    fold di dj. rewrite lookup_insert_eq.
    rewrite lookup_insert_ne by (intros Heq; apply Hd; symmetry; exact Heq).
    rewrite lookup_insert_eq. split; reflexivity.
Qed.

(** C4 on the code.  The ancestors that the suffix is made from are
    filled only when [MaxLowerTopoNames] names or more were collected.
    With fewer names the test for more than one ancestor never fires:
    the names are handed on without suffix, whatever the index of the
    element is and however many candidates the chosen sub-elements leave,
    so two elements with the same named lower sub-elements receive the
    same names and the same, empty, suffix. *)
Theorem no_suffix_below_ten_names shape kind lower idxName
    (i j : Z) (si sj : TopoDS_Shape) :
  let ci := (collectLower shape kind idxName (getSubTopoShapes shape si lower) [] [] 0).2 in
  let cj := (collectLower shape kind idxName (getSubTopoShapes shape sj lower) [] [] 0).2 in
  ci <> [] -> (length ci < MaxLowerTopoNames)%nat -> cj = ci ->
  chooseNames shape kind i lower idxName si = Ok (Some (ci, ""%string))
  /\ chooseNames shape kind j lower idxName sj = Ok (Some (ci, ""%string))
  /\ forall marker, comboName ci marker "" = comboName cj marker "".
Proof.
  intros ci cj Hne Hlt Hsame.
  assert (Hrun : forall (k : Z) (s : TopoDS_Shape),
            (collectLower shape kind idxName (getSubTopoShapes shape s lower) [] [] 0).2 = ci ->
            chooseNames shape kind k lower idxName s = Ok (Some (ci, ""%string))).
  { intros k s Hc.
    destruct (chooseNames_enumerated shape kind k lower idxName s)
      as (es & _ & _ & _ & _ & Hes & Hbelow & _).
    rewrite Hc in Hes. rewrite Hes in *. apply Hbelow.
    - rewrite length_fmap in Hlt. exact Hlt.
    - intros ->. apply Hne. reflexivity. }
  split; [apply Hrun; reflexivity|]. split; [apply Hrun; exact Hsame|].
  intros marker. rewrite Hsame. reflexivity.
Qed.

End ExportFacts.

(** *** Concrete runs of [getExportElementName] *)

Section ExportRuns.
Import ExportName.

Lemma getElementName_delegates_to_base_witness :
  Feature_getElementName (T := Handle) (fun n _ => (n, n))
    (PropertyPartShape circleWire emptyMap) "Wire1" Normal
  = Ok (PropertyPartShape circleWire emptyMap, ("Wire1", "Wire1")%string)
  /\ (Export = Export
      /\ isPartShape (PropertyPartShape circleWire emptyMap) = true).
Proof.
  split.
  - apply (proj1 (getElementName_delegates_to_base (fun n _ => (n, n))
                    (PropertyPartShape circleWire emptyMap) "Wire1" Normal)).
    left. discriminate.
  - apply (proj2 (getElementName_delegates_to_base (fun n _ => (n, n))
                    (PropertyPartShape circleWire emptyMap) "Wire1" Export)
             (PropertyPartShape circleWire circleNamed) ("E1Wire", "Wire1")%string).
    + vm_compute. reflexivity.
    + right. discriminate.
Defined.

Lemma export_name_round_trip_witness :
  getIndexedName circleNamed "E1Wire" = mkIndexedName "Wire" 1
  /\ forward circleNamed !! "E1Wire"%string = Some (mkIndexedName "Wire" 1)
  /\ reverse circleNamed !! mkIndexedName "Wire" 1 = Some "E1Wire"%string.
Proof.
  apply (export_name_round_trip circleWire emptyMap "Wire1" (mkIndexedName "Wire" 1)
           circleNamed (mkMappedElement "E1Wire" (mkIndexedName "Wire" 1))).
  - intros i d H. vm_compute in H. discriminate H.
  - reflexivity.
  - vm_compute. reflexivity.
  - discriminate.
Defined.

(** The round trip also covers a name that was stored earlier: the second
    query is answered from the tables. *)
Example stored_name_round_trip :
  exportMapped circleWire circleNamed "Wire1"
  = Ok (circleNamed, mkMappedElement "E1Wire" (mkIndexedName "Wire" 1)).
Proof. vm_compute. reflexivity. Qed.


Example single_edge_wire_name :
  exportMapped circleWire emptyMap "Wire1"
  = Ok (circleNamed, mkMappedElement "E1Wire" (mkIndexedName "Wire" 1)).
Proof. vm_compute. reflexivity. Qed.


(** The enumeration stops at the third edge that belongs to the wire
    alone. *)
Example pentagon_uses_three_names :
  chooseNames pentagon TopAbs_WIRE 1 TopAbs_EDGE (IndexedName_fromConst "Edge" 1)
              (TopAbs_WIRE, 1)
  = Ok (Some (["a"; "b"; "c"]%string, ""%string)).
Proof. vm_compute. reflexivity. Qed.

(** With ten names or more the block that orders the entries reads
    [names] at the size of a name: a name of twelve characters is a read
    past the end of the ten names. *)
Example long_name_reads_past_the_end :
  chooseNames bigTwinsLongName TopAbs_WIRE 1 TopAbs_EDGE (IndexedName_fromConst "Edge" 1)
              (TopAbs_WIRE, 1)
  = Err OutOfRangeRead.
Proof. vm_compute. reflexivity. Qed.

(** The two edges chosen for the first of two wires over the same edges
    leave both wires as candidates, and no suffix is appended. *)
Lemma twin_wires_without_suffix :
  ~ (forall (shape : TopoShape Handle) kind idx lower idxName subshape names op,
       chooseNames shape kind idx lower idxName subshape = Ok (Some (names, op)) ->
       (1 < length (commonAncestors
                      (filter (fun e => e.1 ∈ names)
                         (lowerEntries shape kind idxName
                            (getSubTopoShapes shape subshape lower)))))%nat ->
       op <> ""%string).
Proof.
  intros H.
  apply (H twinWires TopAbs_WIRE 1 TopAbs_EDGE (IndexedName_fromConst "Edge" 1)
           (TopAbs_WIRE, 1) ["A"; "B"]%string ""%string).
  - vm_compute. reflexivity.
  - vm_compute. apply le_n.
  - reflexivity.
Qed.

Lemma index_suffix_when_truncated_witness :
  ";:I0"%string <> ";:I1"%string
  /\ (forall em ei ej marker,
        let names := snd <$> tenNames in
        let di := comboName names marker ";:I0" in
        let dj := comboName names marker ";:I1" in
        let em1 := (setElementComboName em ei names marker ";:I0").1 in
        let em2 := (setElementComboName em1 ej names marker ";:I1").1 in
        di <> dj /\ getIndexedName em2 di = ei /\ getIndexedName em2 dj = ej).
Proof.
  assert (Hfirst : chooseNames bigTwins TopAbs_WIRE 1 TopAbs_EDGE
                     (IndexedName_fromConst "Edge" 1) (TopAbs_WIRE, 1)
                   = Ok (Some (snd <$> tenNames, ";:I0"%string))).
  { vm_compute. reflexivity. }
  destruct (proj2 (index_suffix_when_truncated bigTwins TopAbs_WIRE TopAbs_EDGE
                     (IndexedName_fromConst "Edge" 1) 1 2 (TopAbs_WIRE, 1) (TopAbs_WIRE, 2)
                     (snd <$> tenNames) ";:I0"%string Hfirst)
                  (snd <$> tenNames) ";:I1"%string [1; 2])
    as [Hne Hres].
  - discriminate.
  - vm_compute. reflexivity.
  - vm_compute. reflexivity.
  - vm_compute. reflexivity.
  - vm_compute. apply le_n.
  - split; [exact Hne | exact (Hres eq_refl)].
Defined.

Lemma shared_combo_name_breaks_round_trip_witness :
  (exportMapped twinWires emptyMap "Wire1"
   = Ok (twinFirst, mkMappedElement "ABWire" (mkIndexedName "Wire" 1))
   /\ exportMapped twinWires twinFirst "Wire2"
      = Ok (twinBoth, mkMappedElement "ABWire" (mkIndexedName "Wire" 2)))
  /\ getIndexedName twinFirst "ABWire" = mkIndexedName "Wire" 1
  /\ exportMapped twinWires twinBoth "Wire1"
     = Ok (twinBoth, mkMappedElement "ABWire" (mkIndexedName "Wire" 1))
  /\ getIndexedName twinBoth "ABWire" = mkIndexedName "Wire" 2
  /\ getIndexedName twinBoth "ABWire" <> mkIndexedName "Wire" 1.
Proof.
  assert (Hrun1 : exportMapped twinWires emptyMap "Wire1"
                  = Ok (twinFirst, mkMappedElement "ABWire" (mkIndexedName "Wire" 1)))
    by (vm_compute; reflexivity).
  assert (Hrun2 : exportMapped twinWires twinFirst "Wire2"
                  = Ok (twinBoth, mkMappedElement "ABWire" (mkIndexedName "Wire" 2)))
    by (vm_compute; reflexivity).
  split; [split; assumption|].
  destruct (shared_combo_name_breaks_round_trip twinWires emptyMap "Wire1" "Wire2"
              (mkIndexedName "Wire" 1) (mkIndexedName "Wire" 2) twinFirst twinBoth
              (mkMappedElement "ABWire" (mkIndexedName "Wire" 1))
              (mkMappedElement "ABWire" (mkIndexedName "Wire" 2))
              eq_refl eq_refl ltac:(discriminate) eq_refl eq_refl Hrun1 Hrun2
              ltac:(discriminate) eq_refl)
    as ([Hfirst _] & _ & Hagain & Hback & Hlost & _).
  auto.
Defined.

Lemma no_suffix_below_ten_names_witness :
  (chooseNames twinWires TopAbs_WIRE 1 TopAbs_EDGE (IndexedName_fromConst "Edge" 1)
               (TopAbs_WIRE, 1) = Ok (Some (["A"; "B"]%string, ""%string))
   /\ chooseNames twinWires TopAbs_WIRE 2 TopAbs_EDGE (IndexedName_fromConst "Edge" 1)
                  (TopAbs_WIRE, 2) = Ok (Some (["A"; "B"]%string, ""%string)))
  /\ commonAncestors (lowerEntries twinWires TopAbs_WIRE (IndexedName_fromConst "Edge" 1)
                        (getSubTopoShapes twinWires (TopAbs_WIRE, 1) TopAbs_EDGE))
     = [1; 2]
  /\ exportMapped twinWires emptyMap "Wire1"
     = Ok (twinFirst, mkMappedElement "ABWire" (mkIndexedName "Wire" 1))
  /\ exportMapped twinWires twinFirst "Wire2"
     = Ok (twinBoth, mkMappedElement "ABWire" (mkIndexedName "Wire" 2)).
Proof.
  destruct (no_suffix_below_ten_names twinWires TopAbs_WIRE TopAbs_EDGE
              (IndexedName_fromConst "Edge" 1) 1 2 (TopAbs_WIRE, 1) (TopAbs_WIRE, 2)
              ltac:(vm_compute; discriminate)
              ltac:(vm_compute; apply le_n_S, le_n_S, le_n_S, le_0_n)
              ltac:(vm_compute; reflexivity))
    as (Hi & Hj & _).
  split; [split; [exact Hi | exact Hj]|].
  split; [vm_compute; reflexivity|].
  split; vm_compute; reflexivity.
Defined.

(** C5 on the code.  When the intersection leaves several ancestors and
    the postfix carries a valid position, the code keeps the first
    ancestor, whatever the position is: [resize(1, ancestors[idx])] shrinks
    the vector to its first element.  The ancestor that the position
    addresses is returned only when it is the first. *)
Theorem applyOrdinal_keeps_first {T} (shape : TopoShape T) anc postfix idx :
  (1 < length anc)%nat ->
  starts_with postfix (indexPostfix shape) = true ->
  istream_read_int (string_drop (String.length (indexPostfix shape)) postfix) = Some idx ->
  0 <= idx < Z.of_nat (length anc) ->
  applyOrdinal shape anc postfix = take 1 anc
  /\ (anc !! Z.to_nat idx <> anc !! 0%nat ->
      applyOrdinal shape anc postfix <> option_list (anc !! Z.to_nat idx)).
Proof.
  intros Hlen Hpre Hread Hidx.
  assert (Hfirst : applyOrdinal shape anc postfix = take 1 anc).
  { unfold applyOrdinal.
    apply Nat.ltb_lt in Hlen as Hlt. rewrite Hlt, Hpre, Hread. simpl.
    assert (Hin : ((0 <=? idx) && (idx <? Z.of_nat (length anc)))%bool = true).
    { apply andb_true_iff. split; [apply Z.leb_le | apply Z.ltb_lt]; lia. }
    rewrite Hin.
    destruct (anc !! Z.to_nat idx) as [a|] eqn:Hlook.
    - unfold vector_resize.
      replace (1 - length anc)%nat with 0%nat by lia. simpl. apply app_nil_r.
    - apply lookup_ge_None in Hlook. lia. }
  split; [exact Hfirst|].
  intros Hother. rewrite Hfirst.
  destruct anc as [|a0 anc]; [simpl in Hlen; lia|].
  simpl. destruct ((a0 :: anc) !! Z.to_nat idx) as [a|] eqn:Hlook; simpl.
  - intros [= ->]. apply Hother. reflexivity.
  - discriminate.
Qed.

(** The name made for the second of two wires over the same ten edges
    carries the suffix for position 1; when it has to be decoded, both
    wires survive the intersection and the first one is returned. *)
Lemma decode_returns_first_survivor :
  chooseNames bigTwins TopAbs_WIRE 2 TopAbs_EDGE (IndexedName_fromConst "Edge" 1)
              (TopAbs_WIRE, 2)
  = Ok (Some (snd <$> tenNames, ";:I1"%string))
  /\ comboName (snd <$> tenNames) "Wire" ";:I1" = secondTwinName
  /\ decodeLoop bigTwins edgeMap TopAbs_WIRE (snd <$> tenNames) [] = [1; 2]
  /\ (applyOrdinal bigTwins [1; 2] ";:I1" = [1]
      /\ applyOrdinal bigTwins [1; 2] ";:I1" <> [2])
  /\ exportMapped bigTwins edgeMap "abcdefghijWire;:I1.Wire2"
     = Ok (edgeMap, mkMappedElement secondTwinName (mkIndexedName "Wire" 1)).
Proof.
  split; [vm_compute; reflexivity|].
  split; [vm_compute; reflexivity|].
  split; [vm_compute; reflexivity|].
  split; [|vm_compute; reflexivity].
  destruct (applyOrdinal_keeps_first bigTwins [1; 2] ";:I1" 1) as [Hfirst Hother].
  - simpl. lia.
  - reflexivity.
  - reflexivity.
  - simpl. lia.
  - split; [exact Hfirst|]. apply Hother. discriminate.
Defined.

(** A decoded sub-element without any ancestor of the target kind is
    passed over: the free edge and the edge of the wire have no wire in
    common, yet the wire is returned. *)
Example decode_skips_leading_empty :
  commonAncestors [("p"%string, findAncestors freeEdge (TopAbs_EDGE, 1) TopAbs_WIRE);
                   ("q"%string, findAncestors freeEdge (TopAbs_EDGE, 2) TopAbs_WIRE)] = []
  /\ exportMapped freeEdge freeEdgeMap "pqWire.Wire1"
     = Ok (freeEdgeMap, mkMappedElement "pqWire" (mkIndexedName "Wire" 1)).
Proof. split; vm_compute; reflexivity. Qed.

End ExportRuns.

(** ** Properties of [Feature::getElementHistory] *)

Section HistoryFacts.
Import History.

Lemma circular_round lf sameType_char st :
  sameType_char = zeroChar \/ sameType_char = "E"%char ->
  onCycle st ->
  exists st',
    historyRound circularWorld (S lf) true sameType_char st = Some (Continue st')
    /\ onCycle st'
    /\ length (ret st') = S (length (ret st)).
Proof.
  intros Hty Hst. destruct st as [f s e p d r].
  destruct Hst as [(Hf & Hs & He) | (Hf & Hs & He)]; simpl in Hf, Hs, He; subst;
    destruct Hty as [-> | ->];
    unfold historyRound; simpl; destruct (MappedName_valid p); simpl;
    eexists; (split; [reflexivity|]); simpl;
    (split; [unfold onCycle; simpl; tauto | rewrite length_app; simpl; lia]).
Qed.

Lemma circular_rounds lf ty st n :
  ty = zeroChar \/ ty = "E"%char ->
  onCycle st ->
  exists st',
    historyRounds circularWorld n (S lf) true ty st = Some (Continue st')
    /\ onCycle st'
    /\ length (ret st') = (n + length (ret st))%nat.
Proof.
  intros Hty Hst. induction n as [|n IH]; simpl.
  - exists st. auto.
  - destruct IH as (st1 & -> & Hcyc & Hlen).
    destruct (circular_round lf ty st1 Hty Hcyc) as (st2 & Hround & Hcyc2 & Hlen2).
    exists st2. split; [exact Hround|]. split; [exact Hcyc2|]. lia.
Qed.

Lemma circular_loop lf ty fuel st :
  ty = zeroChar \/ ty = "E"%char ->
  onCycle st ->
  historyLoop circularWorld fuel (S lf) true ty st = None.
Proof.
  intros Hty. revert st. induction fuel as [|fuel IH]; intros st Hst; [reflexivity|].
  destruct (circular_round lf ty st Hty Hst) as (st' & Hround & Hcyc & _).
  cbn [historyLoop]. rewrite Hround. apply IH. exact Hcyc.
Qed.

(** With shrinking records both walks end, within as many rounds as the
    name is long. *)
Lemma sourceLoop_ends {Shape} (W : World Shape) lf type fuel st :
  shrinking W -> linksEnd W lf ->
  (String.length (List.last (sRet st) (0%Z, ""%string)).2 < fuel)%nat ->
  is_Some (sourceLoop W fuel lf type st).
Proof.
  intros Hshrink Hlinks. revert st.
  induction fuel as [|fuel IH]; intros st Hlen; [lia|].
  cbn [sourceLoop]. unfold sourceRound.
  set (back := List.last (sRet st) (0%Z, ""%string)) in *.
  set (shp := match sOwner st with
              | Some o => if negb (hasHasher W (sShape st))
                          then setHasher W (sShape st) (getDocument W o) else sShape st
              | None => sShape st
              end).
  pose proof (Hshrink shp back.2) as Hs.
  destruct (shapeElementHistory W shp back.2) as [[tag original] history].
  cbn [fst snd] in Hs.
  destruct (Z.eqb tag 0) eqn:Htag; [eexists; reflexivity|].
  apply Z.eqb_neq in Htag. specialize (Hs Htag).
  assert (Hnext : forall owner' shape' depth' ts,
            is_Some (sourceLoop W fuel lf type
                       (mkSState owner' shape' depth' ts (sRet st ++ [(tag, original)])))).
  { intros. apply IH. cbn [sRet]. rewrite List.last_last. cbn [snd]. lia. }
  clearbody shp.
  destruct (sOwner st) as [owner|].
  - destruct (Hlinks owner (getDocument W owner) (sDepth st)) as [[[o doc] d] ->]. cbn.
    destruct (getObjectByID W _ _) as [ob|];
      repeat match goal with
             | |- is_Some (Some _) => eexists; reflexivity
             | |- is_Some (sourceLoop _ _ _ _ _) => apply Hnext
             | |- context [if ?b then _ else _] => destruct b; cbn
             end.
  - cbn.
    repeat match goal with
           | |- is_Some (Some _) => eexists; reflexivity
           | |- is_Some (sourceLoop _ _ _ _ _) => apply Hnext
           | |- context [if ?b then _ else _] => destruct b; cbn
           end.
Qed.

Lemma getElementSource_ends {Shape} (W : World Shape) fuel lf owner shape name type :
  shrinking W -> linksEnd W lf ->
  (String.length name < fuel)%nat ->
  is_Some (getElementSource W fuel lf owner shape name type).
Proof.
  intros Hshrink Hlinks Hfuel. unfold getElementSource.
  apply sourceLoop_ends; [assumption | assumption |]. cbn. lia.
Qed.

Lemma historyLoop_ends {Shape} (W : World Shape) lf recursive ty fuel st :
  shrinking W -> linksEnd W lf ->
  (String.length (element st) < fuel)%nat ->
  is_Some (historyLoop W fuel lf recursive ty st).
Proof.
  intros Hshrink Hlinks. revert st.
  induction fuel as [|fuel IH]; intros st Hlen; [lia|].
  cbn [historyLoop]. unfold historyRound.
  pose proof (Hshrink (shape st) (element st)) as Hs.
  destruct (shapeElementHistory W (shape st) (element st)) as [[tag original] inter].
  cbn [fst snd] in Hs.
  destruct (Z.eqb tag 0) eqn:Htag.
  - cbn. destruct (negb recursive); eexists; reflexivity.
  - apply Z.eqb_neq in Htag. specialize (Hs Htag).
    destruct (Hlinks (feature st) (getDocument W (feature st)) (depth st))
      as [[[f doc] d] ->]. cbn.
    destruct (negb recursive); [eexists; reflexivity|].
    destruct (getObjectByID W _ _) as [o|]; [|eexists; reflexivity].
    repeat match goal with
           | |- is_Some (Some _) => eexists; reflexivity
           | |- is_Some (historyLoop _ _ _ _ _ _) => apply IH; cbn [element]; lia
           | |- context [if ?b then _ else _] => destruct b; cbn
           end.
Qed.

(** When every generation record has an original name shorter than the
    name it explains and the chains of links end, [getElementHistory]
    returns within one round more than the element name has characters,
    recursive or not. *)
Lemma getElementHistory_ends {Shape} (W : World Shape) lf feature name recursive sameType :
  shrinking W -> linksEnd W lf ->
  is_Some (getElementHistory W
             (S (String.length (element (historyStart W feature name)))) lf
             feature name recursive sameType).
Proof.
  intros Hshrink Hlinks. unfold getElementHistory.
  apply historyLoop_ends; [assumption | assumption | lia].
Qed.

(** C1 on the code.  On a feature graph whose generation records are
    circular, the recursive walk of [getElementHistory] goes through any
    number of rounds, each of which adds an item, and none of which leaves
    the loop: no amount of fuel yields a result.  The sibling
    [getElementSource] keeps the set of visited (document, tag) pairs and
    leaves the same graph on the third round. *)
Theorem history_walk_has_no_cycle_guard :
  (forall n lf sameType,
     exists st,
       historyRounds circularWorld n (S lf) true
         (if sameType : bool then "E"%char else zeroChar)
         (historyStart circularWorld 1 "x")
       = Some (Continue st)
       /\ length (ret st) = n)
  /\ (forall fuel lf sameType,
        getElementHistory circularWorld fuel (S lf) 1 "x" true sameType = None)
  /\ getElementSource circularWorld 3 1 (Some 1%nat) 1%nat "x" zeroChar
     = Some ([(0, "x"%string); (2, "y"%string); (1, "x"%string)], CircularMapping).
Proof.
  assert (Hstart : onCycle (historyStart circularWorld 1 "x")).
  { left. repeat split; reflexivity. }
  split; [|split].
  - intros n lf sameType.
    assert (Hty : (if sameType then "E"%char else zeroChar) = zeroChar
                  \/ (if sameType then "E"%char else zeroChar) = "E"%char).
    { destruct sameType; auto. }
    destruct (circular_rounds lf _ _ n Hty Hstart) as (st & Hrun & _ & Hlen).
    exists st. split; [exact Hrun|]. rewrite Hlen. simpl. lia.
  - intros fuel lf sameType. unfold getElementHistory.
    apply circular_loop; [|exact Hstart].
    destruct sameType; [right | left]; reflexivity.
  - vm_compute. reflexivity.
Qed.

End HistoryFacts.

(** ** Properties of [Feature::getElementFromSource] *)

Section FromSourceFacts.
Import FromSource.
Context (Q : Query).

Lemma checkHistory_before_match elementName cs res name tag :
  matchesSource Q (name, tag) = false ->
  exists res', checkHistory Q elementName cs (0, res) name tag = (false, (0, res'))
               \/ exists tc, checkHistory Q elementName cs (0, res) name tag = (true, (tc, res')).
Proof.
  unfold matchesSource, checkHistory. simpl. intros ->. simpl.
  destruct (String.eqb name elementName); [|eauto].
  destruct (negb _); eauto.
Qed.

Lemma checkHistory_on_match elementName cs res name tag :
  matchesSource Q (name, tag) = true ->
  exists stop res', checkHistory Q elementName cs (0, res) name tag = (stop, (1, res')).
Proof.
  unfold matchesSource, checkHistory. simpl. intros ->. simpl.
  destruct (String.eqb name elementName); [|eauto].
  destruct (negb _); eauto.
Qed.

(** Once the tag of the source was met, [tagChanges] counts the steps
    with another tag, and the step that takes it past 3 is the last. *)
Lemma tagChanges_budget elementName cs steps tc res :
  1 <= tc <= 3 ->
  (Z.of_nat (tagChangesIn Q (invoked steps (checkHistory Q elementName cs) (tc, res)))
   <= 4 - tc).
Proof.
  revert tc res. induction steps as [|[n t] steps IH]; intros tc res Htc.
  - unfold tagChangesIn. simpl. lia.
  - cbn [invoked]. unfold tagChangesIn in *.
    destruct (checkHistory Q elementName cs (tc, res) n t) as [stop [tc' res']] eqn:Hcb.
    cbn [List.filter]. unfold matchesSource at 1. cbn [snd].
    unfold checkHistory in Hcb.
    destruct (Z.eqb (Z.abs t) (ownerID Q)) eqn:Hm; cbn [negb].
    + assert (Htc0 : Z.eqb tc 0 = false) by (apply Z.eqb_neq; lia).
      rewrite Htc0 in Hcb. cbn iota beta in Hcb.
      assert (tc' = tc).
      { destruct (String.eqb n elementName); [destruct (negb _)|]; congruence. }
      subst tc'. destruct stop; [simpl; lia|]. apply IH. lia.
    + cbn [length].
      assert (Htc0 : Z.eqb tc 0 = false) by (apply Z.eqb_neq; lia).
      rewrite Htc0 in Hcb. cbn [negb] in Hcb. cbn iota beta in Hcb.
      destruct (3 <? tc + 1) eqn:Hcut.
      * injection Hcb as <- <- <-. simpl. lia.
      * apply Z.ltb_ge in Hcut.
        assert (tc' = tc + 1).
        { destruct (String.eqb n elementName); [destruct (negb _)|]; congruence. }
        subst tc'. destruct stop; [simpl; lia|].
        specialize (IH (tc + 1) res'). lia.
Qed.

(** C7.  In any trace that [checkHistory] watches, starting with
    [tagChanges] at zero, the callback is invoked on at most 3 steps with
    another tag after the first step whose tag is the identity of the
    source object. *)
Theorem trace_cut_after_three_changes elementName cs steps res :
  (tagChangesIn Q
     (afterFirstMatch Q (invoked steps (checkHistory Q elementName cs) (0%Z, res)))
   <= 3)%nat.
Proof.
  revert res. induction steps as [|[n t] steps IH]; intros res.
  - unfold tagChangesIn. simpl. lia.
  - cbn [invoked afterFirstMatch].
    destruct (checkHistory Q elementName cs (0, res) n t) as [stop st'] eqn:Hcb.
    cbn [afterFirstMatch].
    destruct (matchesSource Q (n, t)) eqn:Hm.
    + destruct (checkHistory_on_match elementName cs res n t Hm) as (stop' & res' & Heq).
      rewrite Heq in Hcb. injection Hcb as <- <-.
      destruct stop'; [unfold tagChangesIn; simpl; lia|].
      pose proof (tagChanges_budget elementName cs steps 1 res') as Hb. lia.
    + destruct (checkHistory_before_match elementName cs res n t Hm)
        as (res' & [Heq | (tc & Heq)]); rewrite Heq in Hcb; injection Hcb as <- <-.
      * apply IH.
      * unfold tagChangesIn. simpl. lia.
Qed.

(** The same bound on the steps that are looked at: the third step with
    another tag ends the trace before its name is compared. *)
Lemma checkHistory_cut elementName cs res name tag :
  matchesSource Q (name, tag) = false ->
  checkHistory Q elementName cs (3, res) name tag = (true, (4, res)).
Proof.
  unfold matchesSource, checkHistory. simpl. intros ->. reflexivity.
Qed.

Lemma shortcut_log res log :
  shortcut Q = (res, log) ->
  (shortcutApplies Q = true
   /\ log = [CallTraceElement (getMappedName Q (sourceIndex Q) false)])
  \/ (shortcutApplies Q = false /\ res = [] /\ log = []).
Proof.
  unfold shortcut. destruct (shortcutApplies Q).
  - intros [= <- <-]. left. split; reflexivity.
  - intros [= <- <-]. right. repeat split.
Qed.

Lemma shortcutApplies_spec :
  shortcutApplies Q = true ->
  sourceType Q <> TopAbs_SHAPE
  /\ MappedName_valid (sourceName Q) = true
  /\ countSubShapes Q (sourceType Q) = srcCountSubShapes Q (sourceType Q).
Proof.
  unfold shortcutApplies. intros H.
  apply andb_true_iff in H as [H Hcount]. apply andb_true_iff in H as [Htype Hname].
  split; [|split].
  - apply negb_true_iff, bool_decide_eq_false in Htype. exact Htype.
  - exact Hname.
  - apply Nat.eqb_eq. exact Hcount.
Qed.

Lemma scan_log single indices res log res' log' :
  scan Q single indices res log = (res', log') ->
  exists calls, log' = log ++ calls.
Proof.
  revert res log. induction indices as [|i indices IH]; intros res log; simpl.
  - intros [= <- <-]. exists []. symmetry. apply app_nil_r.
  - destruct (single && negb _)%bool.
    + intros [= <- <-]. eexists. reflexivity.
    + intros H. apply IH in H as [calls ->]. rewrite <- app_assoc. eexists. reflexivity.
Qed.

(** C6.  A run whose first call into the target shape is a trace has
    taken the shortcut, which requires a known type, a mapped source name
    and equal sub-shape counts of that type in target and source.  When
    the shortcut trace yields an element, that is the result and the trace
    is the only call: neither the geometric search nor the scan over the
    elements of the type takes place. *)
Theorem shortcut_match_skips_search (obj src : option Obj) (single : bool) res log :
  getElementFromSource Q obj src single = (res, log) ->
  (forall mapped rest,
     log = CallTraceElement mapped :: rest ->
     sourceType Q <> TopAbs_SHAPE
     /\ MappedName_valid (sourceName Q) = true
     /\ countSubShapes Q (sourceType Q) = srcCountSubShapes Q (sourceType Q)
     /\ mapped = getMappedName Q (sourceIndex Q) false)
  /\ (obj <> None -> src <> None ->
      shortcutApplies Q = true -> (shortcut Q).1 <> [] ->
      res = (shortcut Q).1
      /\ log = [CallTraceElement (getMappedName Q (sourceIndex Q) false)]).
Proof.
  intros Hrun. unfold getElementFromSource in Hrun.
  destruct obj as [o|], src as [s|];
    try (injection Hrun as <- <-; split; [intros ? ? [=] | intros; congruence]).
  destruct (shortcut Q) as [res0 log0] eqn:Hsc.
  destruct (shortcut_log _ _ Hsc) as [[Happ ->] | (Happ & -> & ->)].
  - pose proof (shortcutApplies_spec Happ) as (Hty & Hname & Hcount).
    split.
    + intros mapped rest Hlog.
      assert (Hhead : exists tail,
                 log = CallTraceElement (getMappedName Q (sourceIndex Q) false) :: tail).
      { rewrite Happ in Hrun. simpl in Hrun.
        destruct (negb (Nat.eqb (length res0) 0)).
        - injection Hrun as <- <-. eexists; reflexivity.
        - destruct (negb (Nat.eqb (length (searchSubShape Q)) 0)).
          + injection Hrun as <- <-. eexists; reflexivity.
          + destruct (negb _ || _)%bool.
            * injection Hrun as <- <-. eexists; reflexivity.
            * apply scan_log in Hrun as [calls ->]. eexists; reflexivity. }
      destruct Hhead as [tail Hhead]. rewrite Hhead in Hlog.
      injection Hlog as <- _. auto.
    + intros _ _ _ Hres. simpl in Hres. rewrite Happ in Hrun. simpl in Hrun.
      destruct res0 as [|e res0]; [congruence|]. simpl in Hrun.
      injection Hrun as <- <-. split; reflexivity.
  - split.
    + intros mapped rest Hlog. exfalso. rewrite Happ in Hrun. simpl in Hrun.
      destruct (negb (Nat.eqb (length (searchSubShape Q)) 0)).
      * injection Hrun as <- <-. discriminate.
      * destruct (negb _ || _)%bool.
        -- injection Hrun as <- <-. discriminate.
        -- apply scan_log in Hrun as [calls ->]. discriminate.
    + intros _ _ Happ'. congruence.
Qed.

Lemma scan_finds_nothing single indices log :
  (forall cs, (traceFor Q (sourceName Q) cs []).2 = []) ->
  (scan Q single indices [] log).1 = [].
Proof.
  intros Hnone. revert log. induction indices as [|i indices IH]; intros log.
  - reflexivity.
  - cbn [scan]. rewrite Hnone. cbn [length Nat.eqb negb].
    rewrite andb_false_r. apply IH.
Qed.

(** C8.  A failed lookup ends in the empty vector: for a null target or
    source object (without any call into a shape), for a source element
    that does not resolve when nothing congruent is found, and when neither
    the shortcut nor the geometric search nor any trace of the scan finds
    an element.  When the shortcut has found nothing and the geometric
    search finds names, the result is one element per name, or the
    element of the first name when [single] is set. *)
Theorem failed_lookup_is_empty (obj src : option Obj) (single : bool) :
  (obj = None \/ src = None -> getElementFromSource Q obj src single = ([], []))
  /\ (resolveSource Q = (""%string, ""%string) -> searchSubShape Q = [] ->
      (getElementFromSource Q obj src single).1 = [])
  /\ ((forall cs, (traceFor Q (sourceName Q) cs []).2 = []) -> searchSubShape Q = [] ->
      (getElementFromSource Q obj src single).1 = [])
  /\ (obj <> None -> src <> None ->
      (shortcut Q).1 = [] -> searchSubShape Q <> [] ->
      (getElementFromSource Q obj src single).1
      = (fun n => mkMappedElement (getMappedName Q (IndexedName_ofString Q n) true)
                                  (IndexedName_ofString Q n))
          <$> (if single then take 1 (searchSubShape Q) else searchSubShape Q)).
Proof.
  split; [|split; [|split]].
  - intros [-> | ->]; [reflexivity|]. destruct obj; reflexivity.
  - intros Hsrc Hnone. unfold getElementFromSource.
    destruct obj, src; try reflexivity.
    assert (Hname : sourceName Q = ""%string).
    { unfold sourceName. rewrite Hsrc. reflexivity. }
    assert (Happ : shortcutApplies Q = false).
    { unfold shortcutApplies. rewrite Hname.
      destruct (negb (bool_decide (sourceType Q = TopAbs_SHAPE))); reflexivity. }
    unfold shortcut. rewrite Happ, Hnone, Hname. reflexivity.
  - intros Htrace Hnone. unfold getElementFromSource.
    destruct obj, src; try reflexivity.
    assert (Hsc : (shortcut Q).1 = []).
    { unfold shortcut. destruct (shortcutApplies Q); [apply Htrace | reflexivity]. }
    destruct (shortcut Q) as [res0 log0]. simpl in Hsc. subst res0.
    rewrite Hnone. simpl. rewrite andb_false_r.
    destruct (negb _ || _)%bool; [reflexivity|].
    apply scan_finds_nothing. exact Htrace.
  - intros Hobj Hsrc Hsc Hnames. unfold getElementFromSource.
    destruct obj; [|congruence]. destruct src; [|congruence].
    destruct (shortcut Q) as [res0 log0]. simpl in Hsc. subst res0.
    simpl. rewrite andb_false_r.
    destruct (searchSubShape Q) as [|found names]; [congruence|]. reflexivity.
Qed.

End FromSourceFacts.

(** ** Properties of [Feature::getRelatedElements] *)

Section RelatedFacts.
Import History Related.
Context {Shape : Type} (W : World Shape) (X : ShapeOps Shape).

Lemma scanRelated_ends fuel lf owner shape type srcType source indices retMap :
  shrinking W -> linksEnd W lf ->
  (forall i, (String.length (getMappedNameOf X shape i) < fuel)%nat) ->
  is_Some (scanRelated W X fuel lf owner shape type srcType source indices retMap).
Proof.
  intros Hshrink Hlinks Hfuel. revert retMap.
  induction indices as [|i indices IH]; intros retMap; cbn [scanRelated].
  - eexists; reflexivity.
  - cbn [MappedElement.name].
    destruct (negb (MappedName_valid _)); [apply IH|].
    destruct (getElementSource_ends W fuel lf owner shape
                (getMappedNameOf X shape
                   (IndexedName_fromConst (shapeName X type) (Z.of_nat i)))
                srcType Hshrink Hlinks (Hfuel _)) as [src ->].
    cbn. apply IH.
Qed.

(** With shrinking records every query completes, given fuel beyond the
    length of the names that are traced. *)
Lemma getRelatedElements_ends fuel lf obj name sameType withCache cache :
  shrinking W -> linksEnd W lf ->
  (String.length
     (MappedElement.name (getElementName X (getTopoShapeOwner W obj).1 name)) < fuel)%nat ->
  (forall i, (String.length (getMappedNameOf X (getTopoShapeOwner W obj).1 i) < fuel)%nat) ->
  is_Some (getRelatedElements W X fuel lf obj name sameType withCache cache).
Proof.
  intros Hshrink Hlinks Hname Hall. unfold getRelatedElements.
  destruct (getTopoShapeOwner W obj) as [shape owner]. cbn [fst] in *.
  destruct (negb (MappedName_valid _)); [eexists; reflexivity|].
  destruct (if withCache then _ else _); [eexists; reflexivity|].
  destruct (bool_decide _); [eexists; reflexivity|].
  destruct (getElementSource_ends W fuel lf owner shape
              (MappedElement.name (getElementName X shape name))
              (if sameType
               then elementType W shape (MappedElement.name (getElementName X shape name))
               else zeroChar)
              Hshrink Hlinks Hname) as [source ->].
  cbn. destruct (firstIndexed W shape source.1); [eexists; reflexivity|].
  destruct (scanRelated_ends fuel lf owner shape
              (shapeTypeOfChar X
                 (elementType W shape (MappedElement.name (getElementName X shape name))))
              (if sameType
               then elementType W shape (MappedElement.name (getElementName X shape name))
               else zeroChar)
              source.1
              (seq 1 (countSubShapes X shape
                        (shapeTypeOfChar X
                           (elementType W shape
                              (MappedElement.name (getElementName X shape name))))))
              [] Hshrink Hlinks Hall) as [retMap ->].
  cbn. eexists; reflexivity.
Qed.


End RelatedFacts.

(** *** Concrete runs of the searches *)

Section SearchRuns.
Import FromSource.

(** The bound of three further tags is met: after the first tag 7 the
    callback sees the tags 4, 3 and 2 and ends the trace on the last. *)
Example three_changes_reached :
  invoked longTrace (checkHistory twoEdges "zz" nullIndexedName) (0, [])
  = [("a", 5); ("b", -7); ("c", 4); ("d", 7); ("e", 3); ("f", 2)]%string
  /\ tagChangesIn twoEdges
       (afterFirstMatch twoEdges
          (invoked longTrace (checkHistory twoEdges "zz" nullIndexedName) (0, [])))
     = 3%nat.
Proof. split; vm_compute; reflexivity. Qed.

(** The name of the step that ends the trace is not compared: [f] would
    match on the third further tag and is not found. *)
Example cut_step_is_not_compared :
  (traceElement longTrace (checkHistory twoEdges "f" nullIndexedName) (0, [])).2 = []
  /\ (traceElement longTrace (checkHistory twoEdges "e" nullIndexedName) (0, [])).2 <> [].
Proof. split; vm_compute; [reflexivity | discriminate]. Qed.

Lemma shortcut_match_skips_search_witness :
  (sourceType twoEdges <> TopAbs_SHAPE
   /\ MappedName_valid (sourceName twoEdges) = true
   /\ countSubShapes twoEdges (sourceType twoEdges)
      = srcCountSubShapes twoEdges (sourceType twoEdges)
   /\ "t1"%string = getMappedName twoEdges (sourceIndex twoEdges) false)
  /\ ([mkMappedElement ";tEdge1" (mkIndexedName "Edge" 1)] = (shortcut twoEdges).1
      /\ [CallTraceElement "t1"]
         = [CallTraceElement (getMappedName twoEdges (sourceIndex twoEdges) false)]).
Proof.
  pose proof (shortcut_match_skips_search twoEdges (Some 1%nat) (Some 2%nat) false
                [mkMappedElement ";tEdge1" (mkIndexedName "Edge" 1)]
                [CallTraceElement "t1"] eq_refl) as [Hfirst Hskip].
  split.
  - apply (Hfirst "t1"%string []). reflexivity.
  - apply Hskip.
    + discriminate.
    + discriminate.
    + reflexivity.
    + vm_compute. discriminate.
Defined.

Lemma failed_lookup_is_empty_witness :
  getElementFromSource twoEdges None (Some 2%nat) false = ([], [])
  /\ (getElementFromSource unresolved (Some 1%nat) (Some 2%nat) false).1 = []
  /\ (getElementFromSource unresolved (Some 1%nat) (Some 2%nat) true).1 = []
  /\ (getElementFromSource geometricOnly (Some 1%nat) (Some 2%nat) true).1
     = [mkMappedElement "t1" (mkIndexedName "Edge" 1)].
Proof.
  split; [|split; [|split]].
  - apply (proj1 (failed_lookup_is_empty twoEdges None (Some 2%nat) false)).
    left. reflexivity.
  - apply (proj1 (proj2 (failed_lookup_is_empty unresolved (Some 1%nat) (Some 2%nat) false)));
      reflexivity.
  - apply (proj1 (proj2 (proj2
             (failed_lookup_is_empty unresolved (Some 1%nat) (Some 2%nat) true)))).
    + intros cs. reflexivity.
    + reflexivity.
  - apply (proj2 (proj2 (proj2
             (failed_lookup_is_empty geometricOnly (Some 1%nat) (Some 2%nat) true)))).
    + discriminate.
    + discriminate.
    + vm_compute. reflexivity.
    + vm_compute. discriminate.
Defined.

End SearchRuns.

Section RelatedRuns.
Import History Related.


(** An empty result of the scan is stored like any other. *)
Example empty_scan_is_cached :
  getRelatedElements chainWorld chainOps 5 1 2 "w" true false ∅
  = Some ([], {[ ("w"%string, true) := [] ]}).
Proof. vm_compute. reflexivity. Qed.

End RelatedRuns.

(** ** Properties of [FilletBase] *)

Section FilletFacts.
Import FilletBase.
Context {R : Type}.
Implicit Types (f : Fillet R) (values : list (FilletElement R)).

Lemma to_uint_nonnil n : Nat.to_uint n <> Decimal.Nil.
Proof.
  intros H. pose proof (Unsigned.of_to n) as Hn. rewrite H in Hn.
  simpl in Hn. subst n. discriminate H.
Qed.

Lemma read_digits_uint d acc :
  read_digits (NilEmpty.string_of_uint d) (Some (Z.of_nat acc))
  = Some (Z.of_nat (Nat.of_uint_acc d acc)).
Proof.
  revert acc. induction d; intros acc; simpl; [reflexivity|..];
    rewrite Nat.tail_mul_spec;
    match goal with
    | |- read_digits _ (Some ?z) = Some (Z.of_nat (Nat.of_uint_acc _ ?n)) =>
        replace z with (Z.of_nat n)
          by (set (k := nat_of_ascii _); vm_compute in k; subst k; lia)
    end; apply IHd.
Qed.

Lemma read_digits_to_string n : read_digits (to_string n) None = Some (Z.of_nat n).
Proof.
  unfold to_string. pose proof (to_uint_nonnil n) as Hnil.
  rewrite <- (Unsigned.of_to n) at 2. unfold Nat.of_uint.
  destruct (Nat.to_uint n) as [|d|d|d|d|d|d|d|d|d|d]; [congruence|..]; simpl;
    match goal with
    | |- read_digits _ (Some ?z) = Some (Z.of_nat (Nat.of_uint_acc _ ?n)) =>
        change z with (Z.of_nat n)
    end; apply read_digits_uint.
Qed.

(** The text of a natural number starts with a digit. *)
Lemma to_string_head n :
  exists c rest, to_string n = String c rest /\ isspace c = false
                 /\ c <> "-"%char /\ c <> "+"%char.
Proof.
  unfold to_string. pose proof (to_uint_nonnil n) as Hnil.
  destruct (Nat.to_uint n); [congruence|..]; simpl;
    eexists; eexists; (split; [reflexivity|]); repeat split; discriminate.
Qed.

Lemma scan_d_minus body :
  scan_d (String "-" body)
  = match read_digits body None with
    | Some v =>
        if ((INT_MIN <=? - v) && (- v <=? INT_MAX))%bool
        then Converted (- v) else Unrepresentable
    | None => Unmatched
    end.
Proof. reflexivity. Qed.

Lemma scan_d_unsigned c rest :
  isspace c = false -> c <> "-"%char -> c <> "+"%char ->
  scan_d (String c rest)
  = match read_digits (String c rest) None with
    | Some v =>
        if ((INT_MIN <=? v) && (v <=? INT_MAX))%bool
        then Converted v else Unrepresentable
    | None => Unmatched
    end.
Proof.
  intros Hsp Hm Hp. unfold scan_d. cbn [skip_space]. rewrite Hsp.
  destruct c as [[] [] [] [] [] [] [] []]; try reflexivity; congruence.
Qed.

Lemma scan_d_int_to_string z :
  INT_MIN <= z <= INT_MAX -> scan_d (int_to_string z) = Converted z.
Proof.
  intros Hrange. unfold int_to_string.
  assert (Hin : ((INT_MIN <=? z) && (z <=? INT_MAX))%bool = true).
  { apply andb_true_iff. split; apply Z.leb_le; lia. }
  destruct (z <? 0) eqn:Hneg.
  - apply Z.ltb_lt in Hneg.
    change ("-" +:+ to_string (Z.to_nat (- z)))%string
      with (String "-" (to_string (Z.to_nat (- z)))).
    rewrite scan_d_minus, read_digits_to_string, Z2Nat.id by lia.
    replace (- - z) with z by lia. rewrite Hin. reflexivity.
  - apply Z.ltb_ge in Hneg.
    destruct (to_string_head (Z.to_nat z)) as (c & rest & Heq & Hsp & Hm & Hp).
    rewrite Heq, scan_d_unsigned by assumption.
    rewrite <- Heq, read_digits_to_string, Z2Nat.id by lia.
    rewrite Hin. reflexivity.
Qed.

Lemma sscanf_Edge_int_to_string z idx :
  INT_MIN <= z <= INT_MAX ->
  sscanf_Edge_d ("Edge" +:+ int_to_string z)%string idx = Some z.
Proof.
  intros Hrange. unfold sscanf_Edge_d.
  assert (Hpre : String.prefix "Edge" ("Edge" +:+ int_to_string z)%string = true).
  { simpl. destruct (_ +:+ _)%string; reflexivity. }
  rewrite Hpre.
  change (string_drop 4 ("Edge" +:+ int_to_string z)%string) with (int_to_string z).
  rewrite scan_d_int_to_string by exact Hrange. reflexivity.
Qed.

Lemma sscanf_edgeLink z idx :
  INT_MIN <= z <= INT_MAX -> sscanf_Edge_d (edgeLink z) idx = Some z.
Proof. apply sscanf_Edge_int_to_string. Qed.

Lemma updateEdgeIds_links values (ids : list Z) :
  length ids = length values ->
  Forall (fun id => INT_MIN <= id <= INT_MAX) ids ->
  exists w,
    updateEdgeIds values (edgeLink <$> ids)
    = Some ((fun p : FilletElement R * Z =>
               if Z.eqb p.2 0 then p.1
               else mkFilletElement p.2 (radius1 p.1) (radius2 p.1)) <$> zip values ids, w)
    /\ (Forall (fun id => id <> 0) ids -> w = []).
Proof.
  revert ids. induction values as [|v values IH]; intros [|id ids] Hlen Hrange;
    simpl in Hlen; try lia.
  - exists []. split; [reflexivity | auto].
  - apply Forall_cons in Hrange as [Hid Hrange].
    destruct (IH ids) as (w & Heq & Hw); [lia | exact Hrange |].
    cbn [updateEdgeIds fmap list_fmap].
    rewrite sscanf_edgeLink by exact Hid. cbn [mbind option_bind].
    change (list_fmap Z string edgeLink ids) with (edgeLink <$> ids). rewrite Heq. cbn [mbind option_bind fst snd zip zip_with].
    rewrite fmap_cons. cbn [fst snd].
    destruct (Z.eqb id 0) eqn:Hz; cbn [negb].
    + eexists. split; [reflexivity|].
      intros Hnz. apply Forall_cons in Hnz as [Hnz _]. apply Z.eqb_eq in Hz. contradiction.
    + exists w. split; [reflexivity|].
      intros Hnz. apply Forall_cons in Hnz as [_ Hnz]. auto.
Qed.

(** The sub-element names that [syncEdgeLink] writes are read back by
    [onUpdateElementReference] as the edge numbers they were made from:
    after [syncEdgeLink] the update leaves the feature as it is, for any
    edge numbers (all fit an [int]), also when there is no base object or
    no edge.  With a base object and edge numbers other than zero no
    warning is issued. *)
Theorem fillet_links_round_trip f :
  Forall (fun e => INT_MIN <= edgeid e <= INT_MAX) (Edges f) ->
  exists w,
    onUpdateElementReference true true (syncEdgeLink f) = Some (syncEdgeLink f, w)
    /\ Edges (syncEdgeLink f) = Edges f
    /\ (Base f <> None -> Forall (fun e => edgeid e <> 0) (Edges f) -> w = []).
Proof.
  intros Hrange.
  assert (HE : Edges (syncEdgeLink f) = Edges f).
  { unfold syncEdgeLink. destruct (Base f), (Edges f); reflexivity. }
  assert (Hsame : forall vs : list (FilletElement R),
            (fun p : FilletElement R * Z =>
               if Z.eqb p.2 0 then p.1
               else mkFilletElement p.2 (radius1 p.1) (radius2 p.1))
              <$> zip vs (edgeid <$> vs) = vs).
  { induction vs as [|[id r1 r2] l IHl]; [reflexivity|].
    cbn. rewrite IHl. destruct (Z.eqb id 0); reflexivity. }
  assert (Hup : exists w,
            updateEdgeIds (Edges f) (EdgeLinks (syncEdgeLink f)).2 = Some (Edges f, w)
            /\ (Base f <> None -> Forall (fun e => edgeid e <> 0) (Edges f) -> w = [])).
  { unfold syncEdgeLink.
    destruct (Base f) as [base|]; [destruct (Edges f) as [|e es] eqn:Hedges|].
    - exists []. split; [reflexivity | auto].
    - cbn [EdgeLinks snd]. rewrite <- Hedges in *.
      destruct (updateEdgeIds_links (Edges f) (edgeid <$> Edges f)) as (w & Heq & Hw).
      { rewrite length_fmap. reflexivity. }
      { apply Forall_fmap. exact Hrange. }
      rewrite Hsame in Heq. exists w. split.
      + rewrite <- Heq. f_equal. rewrite <- list_fmap_compose. reflexivity.
      + intros _ Hnz. apply Hw. apply Forall_fmap. exact Hnz.
    - cbn [EdgeLinks snd].
      destruct (Edges f) as [|e es]; eexists; (split; [reflexivity | congruence]). }
  destruct Hup as (w & Hup & Hw). exists w.
  split; [|split; [exact HE | exact Hw]].
  unfold onUpdateElementReference. cbn [negb orb]. rewrite HE, Hup. cbn.
  destruct (syncEdgeLink f) as [b e l]. cbn in *. subst e. reflexivity.
Qed.

(** [onUpdateElementReference] changes edge numbers only: the base
    object, the links, the number of entries and both radii of every entry
    stay as they are. *)
Theorem fillet_update_keeps_radii (isEdgeLinks attached : bool) f f' w :
  onUpdateElementReference isEdgeLinks attached f = Some (f', w) ->
  Base f' = Base f
  /\ EdgeLinks f' = EdgeLinks f
  /\ length (Edges f') = length (Edges f)
  /\ radius1 <$> Edges f' = radius1 <$> Edges f
  /\ radius2 <$> Edges f' = radius2 <$> Edges f.
Proof.
  unfold onUpdateElementReference.
  destruct (negb isEdgeLinks || negb attached)%bool.
  { intros [= <- <-]. repeat split; reflexivity. }
  destruct (updateEdgeIds (Edges f) (EdgeLinks f).2) as [[values ws]|] eqn:Hup;
    cbn; [|discriminate].
  intros [= <- <-]. cbn [Base EdgeLinks Edges].
  split; [reflexivity|]. split; [reflexivity|].
  revert Hup. generalize (EdgeLinks f).2 as subs. generalize (Edges f) as vs.
  clear. intros vs. revert values ws.
  induction vs as [|v vs IH]; intros values ws subs; cbn [updateEdgeIds].
  - intros [= <- <-]. repeat split; reflexivity.
  - destruct subs as [|sub subs].
    + intros [= <- <-]. repeat split; reflexivity.
    + destruct (sscanf_Edge_d sub 0) as [idx|]; cbn; [|discriminate].
      destruct (updateEdgeIds vs subs) as [[rest wr]|] eqn:Hrest; cbn; [|discriminate].
      destruct (IH _ _ _ Hrest) as (Hlen & Hr1 & Hr2).
      destruct (negb (Z.eqb idx 0)); intros [= <- <-]; cbn;
        rewrite Hlen, Hr1, Hr2; repeat split; reflexivity.
Qed.



End FilletFacts.

(** ** Runs of the fillet links on numbered radii *)

Section FilletRuns.
Import FilletBase.

Lemma fillet_links_round_trip_witness :
  Forall (fun e : FilletElement nat => INT_MIN <= edgeid e <= INT_MAX) (Edges twoFillets)
  /\ onUpdateElementReference true true (syncEdgeLink twoFillets)
     = Some (syncEdgeLink twoFillets, []).
Proof.
  assert (Hrange : Forall (fun e : FilletElement nat => INT_MIN <= edgeid e <= INT_MAX)
                          (Edges twoFillets)).
  { repeat (constructor; [vm_compute; split; discriminate|]). constructor. }
  split; [exact Hrange|].
  destruct (fillet_links_round_trip twoFillets Hrange) as (w & Hrun & _ & Hw).
  rewrite Hrun. rewrite Hw; [reflexivity | discriminate |].
  repeat (constructor; [discriminate|]). constructor.
Defined.

Lemma fillet_update_keeps_radii_witness :
  onUpdateElementReference true true relinked
  = Some (mkFillet (Some 1%nat)
                   [mkFilletElement 4 10%nat 10%nat; mkFilletElement 7 20%nat 25%nat]
                   (Some 1%nat, ["Edge4"; "Face7"]%string),
          [InvalidLink "Face7"])
  /\ radius1 <$> [mkFilletElement 4 10%nat 10%nat; mkFilletElement 7 20%nat 25%nat]
     = radius1 <$> Edges relinked.
Proof.
  assert (Hrun : onUpdateElementReference true true relinked
                 = Some (mkFillet (Some 1%nat)
                           [mkFilletElement 4 10%nat 10%nat; mkFilletElement 7 20%nat 25%nat]
                           (Some 1%nat, ["Edge4"; "Face7"]%string),
                         [InvalidLink "Face7"])).
  { vm_compute. reflexivity. }
  split; [exact Hrun|].
  apply (fillet_update_keeps_radii true true relinked _ _ Hrun).
Defined.



End FilletRuns.

(** ** Properties of the element cache *)

Section ElementCacheFacts.
Import ElementCache.
Context {H Opt : Type} (K : @ShapeOps H Opt).
Implicit Types (st : @Caches H) (c : gmap string (@Entry H)).

Lemma starts_with_refl (k : string) : starts_with k k = true.
Proof.
  unfold starts_with. induction k as [|a k IH]; simpl; [reflexivity|].
  destruct (ascii_dec a a); [exact IH | congruence].
Qed.

Lemma elem_of_cache_keys c (k : string) : k ∈ (map_to_list c).*1 <-> is_Some (c !! k).
Proof.
  rewrite list_elem_of_fmap. split.
  - intros ([k' e] & -> & Hin). apply elem_of_map_to_list in Hin. eauto.
  - intros [e He]. exists (k, e). split; [reflexivity|].
    apply elem_of_map_to_list. exact He.
Qed.

Lemma keysInOrder_elem c (k : string) : k ∈ keysInOrder c <-> is_Some (c !! k).
Proof.
  unfold keysInOrder. rewrite merge_sort_Permutation. apply elem_of_cache_keys.
Qed.

Lemma evictStep_none c key : evictStep None c key = c.
Proof.
  unfold evictStep.
  destruct (existsb (fun k => starts_with key k) (map_to_list c).*1) eqn:Hex; cbn [negb].
  - reflexivity.
  - apply delete_id. destruct (c !! key) as [e|] eqn:Hk; [|reflexivity].
    exfalso. apply not_true_iff_false in Hex. apply Hex.
    apply existsb_exists. exists key. split; [|apply starts_with_refl].
    apply list_elem_of_In, elem_of_cache_keys. eauto.
Qed.

Lemma evictLoop_none keys c : evictLoop None keys c = c.
Proof.
  unfold evictLoop. induction keys as [|k keys IH]; cbn [foldl]; [reflexivity|].
  rewrite evictStep_none. exact IH.
Qed.

Lemma evictLoop_prefix p keys c (k : string) :
  evictLoop (Some p) keys c !! k
  = if (bool_decide (k ∈ keys) && starts_with k p)%bool then None else c !! k.
Proof.
  unfold evictLoop. revert c. induction keys as [|key keys IH]; intros c; cbn [foldl].
  - rewrite bool_decide_eq_false_2 by apply not_elem_of_nil. reflexivity.
  - rewrite IH. unfold evictStep.
    destruct (decide (k = key)) as [->|Hne].
    + rewrite (bool_decide_eq_true_2 (key ∈ key :: keys)) by apply list_elem_of_here.
      cbn [andb]. destruct (starts_with key p) eqn:Hp.
      * rewrite andb_true_r. rewrite lookup_delete_eq.
        destruct (bool_decide _); reflexivity.
      * rewrite andb_false_r. reflexivity.
    + assert (Hcons : bool_decide (k ∈ key :: keys) = bool_decide (k ∈ keys)).
      { apply bool_decide_ext. rewrite elem_of_cons. tauto. }
      rewrite Hcons.
      destruct (starts_with key p); [|reflexivity].
      rewrite lookup_delete_ne by congruence. reflexivity.
Qed.

Lemma cacheStep_keeps map prefix propShape c element (k : string) e :
  c !! k = Some e -> cacheStep K map prefix propShape c element !! k = Some e.
Proof.
  intros Hk. unfold cacheStep. destruct element as [el|]; [|exact Hk].
  destruct (String.eqb el "" || hasMissingElement K el)%bool; [exact Hk|].
  destruct (match prefix with Some _ => _ | None => _ end); [exact Hk|].
  destruct (c !! el) as [e'|] eqn:Hel; [exact Hk|].
  rewrite lookup_insert_ne; [exact Hk|]. intros ->. congruence.
Qed.

Lemma cacheLoop_keeps map prefix propShape elements c (k : string) e :
  c !! k = Some e ->
  foldl (cacheStep K map prefix propShape) c elements !! k = Some e.
Proof.
  revert c. induction elements as [|el elements IH]; intros c Hk; cbn [foldl].
  - exact Hk.
  - apply IH. apply cacheStep_keeps. exact Hk.
Qed.

Lemma cacheStep_lookup map prefix propShape c element (k : string) :
  cacheStep K map prefix propShape c element !! k
  = match c !! k with
    | Some e => Some e
    | None => if (bool_decide (element = Some k) && eligible K map prefix k)%bool
              then Some (freshEntry K prefix propShape k) else None
    end.
Proof.
  destruct (c !! k) as [e|] eqn:Hk; [apply cacheStep_keeps; exact Hk|].
  unfold cacheStep, eligible. destruct element as [el|].
  2:{ rewrite bool_decide_eq_false_2 by discriminate. exact Hk. }
  destruct (decide (el = k)) as [->|Hne].
  - rewrite bool_decide_eq_true_2 by reflexivity. cbn [andb].
    destruct (String.eqb k ""); cbn [orb negb andb]; [exact Hk|].
    destruct (hasMissingElement K k); cbn [negb andb]; [exact Hk|].
    destruct prefix as [p|]; cbn.
    + destruct (starts_with k p); cbn; [|exact Hk].
      rewrite Hk. apply lookup_insert_eq.
    + destruct (existsb _ map); cbn; [exact Hk|].
      rewrite Hk. apply lookup_insert_eq.
  - rewrite bool_decide_eq_false_2 by congruence. cbn [andb].
    destruct (String.eqb el "" || hasMissingElement K el)%bool; [exact Hk|].
    destruct (match prefix with Some _ => _ | None => _ end); [exact Hk|].
    destruct (c !! el); [exact Hk|].
    rewrite lookup_insert_ne by exact Hne. exact Hk.
Qed.

Lemma cacheLoop_lookup map prefix propShape elements c (k : string) :
  foldl (cacheStep K map prefix propShape) c elements !! k
  = match c !! k with
    | Some e => Some e
    | None => if (bool_decide (Some k ∈ elements) && eligible K map prefix k)%bool
              then Some (freshEntry K prefix propShape k) else None
    end.
Proof.
  revert c. induction elements as [|el elements IH]; intros c; cbn [foldl].
  - rewrite bool_decide_eq_false_2 by apply not_elem_of_nil.
    destruct (c !! k); reflexivity.
  - rewrite IH, cacheStep_lookup.
    destruct (c !! k) as [e|]; [reflexivity|].
    destruct (eligible K map prefix k); rewrite ?andb_true_r, ?andb_false_r.
    + destruct (decide (el = Some k)) as [->|Hne].
      * rewrite !bool_decide_eq_true_2; [reflexivity | apply list_elem_of_here | reflexivity].
      * rewrite (bool_decide_eq_false_2 (el = Some k)) by exact Hne.
        apply (f_equal (fun b : bool => if b then _ else _)).
        apply bool_decide_ext. rewrite elem_of_cons. split; [tauto|].
        intros [Heq|Hin]; [congruence | exact Hin].
    + destruct (bool_decide _); reflexivity.
Qed.

Lemma changedShape_found map prop acc prefix propShape :
  foldl (fun found (v : string * PropRef) =>
           if bool_decide (prop = v.2) then Some (Some v.1, v.2) else found)
        acc map = Some (Some prefix, propShape) ->
  acc = Some (Some prefix, propShape) \/ propShape = prop.
Proof.
  revert acc. induction map as [|v map IH]; intros acc; cbn [foldl].
  - intros ->. left. reflexivity.
  - intros Hf. apply IH in Hf as [Hf| ->]; [|right; reflexivity].
    case_bool_decide as Hv; [|left; exact Hf].
    right. congruence.
Qed.

Lemma changedShape_registered map prop prefix propShape :
  changedShape map prop = Some (Some prefix, propShape) ->
  propShape = prop /\ prop <> ShapeRef /\ map <> [].
Proof.
  unfold changedShape. case_bool_decide as Hs; [discriminate|].
  intros Hf. split; [|split; [exact Hs|]].
  - apply changedShape_found in Hf as [Hf|Hf]; [discriminate | exact Hf].
  - intros ->. discriminate.
Qed.

Lemma eligible_prefix map p (k : string) :
  eligible K map (Some p) k = true -> starts_with k p = true.
Proof. unfold eligible. intros Ha. apply andb_true_iff in Ha. tauto. Qed.

(** A change of [Shape] while prefixes are registered erases no entry of
    the cache: every entry stays as it was, and the only new entries are
    fresh ones for referenced elements that pass the filters. *)
Theorem shape_change_evicts_nothing recording elements st (k : string) :
  prefixMap st <> [] ->
  cache (onBeforeChange K ShapeRef recording elements st) !! k
  = match cache st !! k with
    | Some e => Some e
    | None =>
        if (recording && bool_decide (Some k ∈ elements)
            && eligible K (prefixMap st) None k)%bool
        then Some (freshEntry K None ShapeRef k) else None
    end.
Proof.
  intros Hmap. unfold onBeforeChange, changedShape.
  rewrite bool_decide_eq_true_2 by reflexivity.
  destruct (prefixMap st) as [|v map] eqn:Hm; [congruence|].
  cbn [cache]. rewrite evictLoop_none.
  destruct recording; cbn [andb].
  - apply cacheLoop_lookup.
  - destruct (cache st !! k); reflexivity.
Qed.

Lemma registered_change_lookup prop p propShape recording elements st
    (k : string) :
  changedShape (prefixMap st) prop = Some (Some p, propShape) ->
  propShape = prop /\
  cache (onBeforeChange K prop recording elements st) !! k
  = if starts_with k p
    then if (recording && bool_decide (Some k ∈ elements)
             && eligible K (prefixMap st) (Some p) k)%bool
         then Some (freshEntry K (Some p) prop k) else None
    else cache st !! k.
Proof.
  intros Hc. destruct (changedShape_registered _ _ _ _ Hc) as (-> & Hs & Hmap).
  split; [reflexivity|].
  unfold onBeforeChange. rewrite Hc.
  destruct (prefixMap st) as [|v map] eqn:Hm; [congruence|].
  cbn [cache].
  assert (Hev : evictLoop (Some p) (keysInOrder (cache st)) (cache st) !! k
                = if starts_with k p then None else cache st !! k).
  { rewrite evictLoop_prefix. destruct (starts_with k p) eqn:Hp.
    - rewrite andb_true_r. case_bool_decide as Hin; [reflexivity|].
      destruct (cache st !! k) as [e|] eqn:Hk; [|reflexivity].
      exfalso. apply Hin, keysInOrder_elem. eauto.
    - rewrite andb_false_r. reflexivity. }
  destruct recording; cbn [andb].
  - rewrite cacheLoop_lookup, Hev.
    destruct (starts_with k p) eqn:Hp; [reflexivity|].
    destruct (cache st !! k) as [e|]; [reflexivity|].
    destruct (eligible K (v :: map) (Some p) k) eqn:Ha.
    + apply eligible_prefix in Ha. congruence.
    + rewrite andb_false_r. reflexivity.
  - exact Hev.
Qed.

(** A change of a property that is neither [Shape] nor registered leaves
    the caches as they are. *)
Theorem unrelated_change_keeps_caches prop recording elements st :
  prop <> ShapeRef ->
  Forall (fun v : string * PropRef => v.2 <> prop) (prefixMap st) ->
  onBeforeChange K prop recording elements st = st.
Proof.
  intros Hs Hall. unfold onBeforeChange, changedShape.
  rewrite bool_decide_eq_false_2 by exact Hs.
  assert (Hf : foldl (fun found (v : string * PropRef) =>
                        if bool_decide (prop = v.2) then Some (Some v.1, v.2) else found)
                     None (prefixMap st) = None).
  { induction Hall as [|v map Hv Hall IH]; cbn [foldl]; [reflexivity|].
    rewrite bool_decide_eq_false_2 by congruence. exact IH. }
  rewrite Hf. reflexivity.
Qed.

Lemma shape_change_lookup recording elements st (k : string) :
  prefixMap st = [] ->
  cache (onBeforeChange K ShapeRef recording elements st) !! k
  = if (recording && bool_decide (Some k ∈ elements)
        && negb (String.eqb k "") && negb (hasMissingElement K k))%bool
    then Some (mkEntry (getSubTopoShape K ShapeRef k) [] false) else None.
Proof.
  intros Hmap. unfold onBeforeChange, changedShape.
  rewrite bool_decide_eq_true_2 by reflexivity. rewrite Hmap. cbn [cache].
  destruct recording; cbn [andb]; [|apply lookup_empty].
  rewrite cacheLoop_lookup, lookup_empty. unfold eligible, freshEntry.
  cbn [existsb negb from_option string_drop]. rewrite andb_true_r.
  rewrite <- andb_assoc. reflexivity.
Qed.

(** Registering a property puts the pair of prefix and property at the
    end of the prefix list and leaves the cache alone, for every
    property, [Shape] included.  A change of the property then settles
    on the prefix of this latest registration, whatever was registered
    for it before, unless the property is [Shape]: a change of [Shape]
    settles on no prefix even after [Shape] was registered with one. *)
Theorem latest_registration_decides fuel prefix prop st :
  registerElementCache fuel prefix (Some prop) st
  = Some (mkCaches (prefixMap st ++ [(prefix, prop)]) (cache st))
  /\ changedShape (prefixMap st ++ [(prefix, prop)]) prop
     = Some (if bool_decide (prop = ShapeRef) then None else Some prefix, prop).
Proof.
  split; [reflexivity|].
  unfold changedShape. case_bool_decide as Hshape; [subst prop; reflexivity|].
  rewrite foldl_app. cbn [foldl snd fst].
  rewrite bool_decide_eq_true_2 by reflexivity. reflexivity.
Qed.

(** Unregistering a prefix ends only when the list is empty or its first
    entry carries the prefix; otherwise no number of rounds ends the
    loop, because the iterator is never advanced. *)
Theorem unregister_looks_at_first_only fuel prefix st :
  registerElementCache (S fuel) prefix None st
  = match prefixMap st with
    | [] => Some (mkCaches [] (cache st))
    | first :: rest =>
        if String.eqb first.1 prefix then Some (mkCaches rest (cache st)) else None
    end.
Proof.
  unfold registerElementCache.
  assert (Hl : unregisterLoop (S fuel) prefix (prefixMap st)
               = match prefixMap st with
                 | [] => Some []
                 | first :: rest => if String.eqb first.1 prefix then Some rest else None
                 end).
  { induction fuel as [|fuel IH].
    - cbn. destruct (prefixMap st) as [|first rest]; [reflexivity|].
      destruct (String.eqb first.1 prefix); reflexivity.
    - change (unregisterLoop (S (S fuel)) prefix (prefixMap st))
        with (match prefixMap st with
              | [] => Some (prefixMap st)
              | first :: rest =>
                  if String.eqb first.1 prefix then Some rest
                  else unregisterLoop (S fuel) prefix (prefixMap st)
              end).
      rewrite IH. destruct (prefixMap st) as [|first rest]; [reflexivity|].
      destruct (String.eqb first.1 prefix); reflexivity. }
  rewrite Hl. destruct (prefixMap st) as [|first rest]; [reflexivity|].
  destruct (String.eqb first.1 prefix); reflexivity.
Qed.

(** A search is done once: whatever a call returns, a second call for the
    same element returns the same names, with any options, and leaves the
    caches as the first call left them. *)
Theorem search_is_memoised element options st found st1 :
  searchElementCache K element options st = (found, st1) ->
  forall options', searchElementCache K element options' st1 = (found, st1).
Proof.
  unfold searchElementCache. intros Hs options'.
  destruct (String.eqb element "") eqn:He.
  { injection Hs as <- <-. reflexivity. }
  destruct (cache st !! element) as [e|] eqn:Hl.
  2:{ injection Hs as <- <-. rewrite Hl. reflexivity. }
  destruct (shape e) as [sh|] eqn:Hsh.
  2:{ injection Hs as <- <-. rewrite Hl, Hsh. reflexivity. }
  destruct (searched e) eqn:Hd.
  { injection Hs as <- <-. rewrite Hl, Hsh, Hd. reflexivity. }
  destruct (searchedShape (prefixMap st) element) as [propShape prefix].
  injection Hs as <- <-. cbn [cache prefixMap].
  rewrite lookup_insert_eq. cbn [shape searched names]. reflexivity.
Qed.

(** A change of a registered property erases the entries whose key starts
    with its prefix and leaves every other key alone; under the prefix
    only fresh entries of referenced elements are found afterwards, and
    only while changes are recorded. *)
Theorem registered_change_evicts_prefix prop p propShape recording elements st :
  changedShape (prefixMap st) prop = Some (Some p, propShape) ->
  let st' := onBeforeChange K prop recording elements st in
  propShape = prop /\
  (forall k : string, starts_with k p = false -> cache st' !! k = cache st !! k) /\
  (forall (k : string) e, starts_with k p = true -> cache st' !! k = Some e ->
     recording = true /\ Some k ∈ elements /\ e = freshEntry K (Some p) prop k) /\
  (forall k : string, recording = true -> Some k ∈ elements ->
     eligible K (prefixMap st) (Some p) k = true ->
     cache st' !! k = Some (freshEntry K (Some p) prop k)).
Proof.
  intros Hc st'. subst st'.
  assert (Hl := fun k => registered_change_lookup prop p propShape recording elements st k Hc).
  split; [apply (Hl ""%string)|]. split; [|split].
  - intros k Hp. destruct (Hl k) as [_ ->]. rewrite Hp. reflexivity.
  - intros k e Hp. destruct (Hl k) as [_ ->]. rewrite Hp.
    destruct recording; [|discriminate]. cbn [andb].
    case_bool_decide as Hin; [|discriminate]. cbn [andb].
    destruct (eligible K (prefixMap st) (Some p) k); [|discriminate].
    intros [= <-]. auto.
  - intros k -> Hin Ha. destruct (Hl k) as [_ ->].
    rewrite (eligible_prefix _ _ _ Ha), Ha.
    rewrite bool_decide_eq_true_2 by exact Hin. reflexivity.
Qed.

(** Without registered prefixes a change of [Shape] empties the cache;
    while changes are recorded it then holds one fresh entry for each
    referenced element that is named and not missing, and nothing else. *)
Theorem shape_change_rebuilds_cache recording elements st :
  prefixMap st = [] ->
  let st' := onBeforeChange K ShapeRef recording elements st in
  (recording = false -> cache st' = ∅) /\
  (forall (k : string) e, cache st' !! k = Some e ->
     Some k ∈ elements /\ k <> ""%string /\ hasMissingElement K k = false /\
     e = mkEntry (getSubTopoShape K ShapeRef k) [] false) /\
  (recording = true -> forall k : string, Some k ∈ elements -> k <> ""%string ->
     hasMissingElement K k = false ->
     cache st' !! k = Some (mkEntry (getSubTopoShape K ShapeRef k) [] false)).
Proof.
  intros Hmap st'. subst st'.
  assert (Hl := fun k => shape_change_lookup recording elements st k Hmap).
  split; [|split].
  - intros ->. apply map_eq. intros k. rewrite Hl, lookup_empty. reflexivity.
  - intros k e. rewrite Hl.
    destruct recording; [|discriminate]. cbn [andb].
    case_bool_decide as Hin; [|discriminate]. cbn [andb].
    destruct (String.eqb k "") eqn:Hk; [discriminate|]. cbn [negb andb].
    destruct (hasMissingElement K k); [discriminate|]. cbn [negb].
    intros [= <-]. apply String.eqb_neq in Hk. auto.
  - intros -> k Hin Hk Hm. rewrite Hl, Hm.
    rewrite bool_decide_eq_true_2 by exact Hin.
    apply String.eqb_neq in Hk. rewrite Hk. reflexivity.
Qed.

Lemma string_take_drop n s : (string_take n s ++ string_drop n s)%string = s.
Proof.
  revert s. induction n as [|n IH]; intros [|a s]; try reflexivity.
  change (String a (string_take n s +:+ string_drop n s) = String a s).
  f_equal. apply IH.
Qed.

Lemma strrchr_pos_none s ch : strrchr_pos s ch = None -> strchr s ch = None.
Proof.
  induction s as [|a s IH]; cbn; [reflexivity|].
  destruct (strrchr_pos s ch); [discriminate|].
  destruct (Ascii.eqb a ch); [discriminate|]. intros _. apply IH. reflexivity.
Qed.

Lemma strrchr_pos_some s ch k :
  strrchr_pos s ch = Some k ->
  strchr (string_drop (S k) s) ch = None /\
  string_take (S k) s = (string_take k s ++ String ch "")%string.
Proof.
  revert k. induction s as [|a s IH]; intros k; cbn [strrchr_pos]; [discriminate|].
  destruct (strrchr_pos s ch) as [k'|] eqn:Hk.
  - intros [= <-]. destruct (IH k' eq_refl) as [Hd Ht]. split.
    + exact Hd.
    + change (string_take (S (S k')) (String a s)) with (String a (string_take (S k') s)).
      rewrite Ht. reflexivity.
  - destruct (Ascii.eqb a ch) eqn:Ha; [|discriminate].
    intros [= <-]. apply Ascii.eqb_eq in Ha as ->. split.
    + cbn. apply strrchr_pos_none. exact Hk.
    + cbn. destruct s; reflexivity.
Qed.

(** The prefix goes in right after the last dot of a found name, or in
    front of a name without dot: the name is cut into a head that is
    empty or ends in a dot and a tail without dot, and the prefix is put
    between the two. *)
Theorem prefix_goes_after_last_dot prefix name :
  exists head tail : string,
    name = (head ++ tail)%string /\
    insertPrefix prefix name = (head ++ prefix ++ tail)%string /\
    strchr tail "." = None /\
    (head = ""%string \/ exists h, head = (h ++ ".")%string).
Proof.
  unfold insertPrefix. destruct (strrchr_pos name ".") as [k|] eqn:Hk.
  - destruct (strrchr_pos_some _ _ _ Hk) as [Hd Ht].
    exists (string_take (S k) name), (string_drop (S k) name).
    split; [symmetry; apply string_take_drop|].
    split; [reflexivity|]. split; [exact Hd|].
    right. exists (string_take k name). exact Ht.
  - exists ""%string, name. split; [reflexivity|]. split; [reflexivity|].
    split; [apply strrchr_pos_none; exact Hk | left; reflexivity].
Qed.

(** After a recorded change of a registered property, the first search
    for a referenced element under its prefix looks the stored sub-shape
    up in that property and returns the names found there with the
    prefix put in, provided the shape of the element name without the
    prefix exists and no earlier registration claims the name. *)
Theorem search_after_registered_change prop p elements st (k : string) sh options :
  changedShape (prefixMap st) prop = Some (Some p, prop) ->
  searchedShape (prefixMap st) k = (prop, Some p) ->
  Some k ∈ elements ->
  eligible K (prefixMap st) (Some p) k = true ->
  getSubTopoShape K prop (string_drop (String.length p) k) = Some sh ->
  (searchElementCache K k options (onBeforeChange K prop true elements st)).1
  = insertPrefix p <$> searchSubShape K prop sh options.
Proof.
  intros Hc Hs Hin Ha Hsub.
  destruct (registered_change_lookup prop p prop true elements st k Hc) as [_ Hl].
  rewrite (eligible_prefix _ _ _ Ha) in Hl.
  rewrite bool_decide_eq_true_2 in Hl by exact Hin.
  rewrite Ha in Hl. cbn [andb] in Hl.
  unfold searchElementCache. rewrite Hl.
  assert (Hne : String.eqb k "" = false).
  { unfold eligible in Ha. destruct (String.eqb k ""); [discriminate | reflexivity]. }
  rewrite Hne. unfold freshEntry. cbn [shape searched names from_option].
  rewrite Hsub.
  assert (Hpm : prefixMap (onBeforeChange K prop true elements st) = prefixMap st).
  { unfold onBeforeChange. rewrite Hc. reflexivity. }
  rewrite Hpm, Hs. reflexivity.
Qed.

(** After a recorded change of [Shape] with no prefix registered, the
    first search for a referenced element returns what the search of its
    stored sub-shape in [Shape] finds; an element that is not referenced
    gives no name. *)
Theorem search_after_shape_change elements st (k : string) options :
  prefixMap st = [] ->
  (searchElementCache K k options (onBeforeChange K ShapeRef true elements st)).1
  = if (bool_decide (Some k ∈ elements) && negb (String.eqb k "")
        && negb (hasMissingElement K k))%bool
    then match getSubTopoShape K ShapeRef k with
         | Some sh => searchSubShape K ShapeRef sh options
         | None => []
         end
    else [].
Proof.
  intros Hmap.
  pose proof (shape_change_lookup true elements st k Hmap) as Hl.
  cbn [andb] in Hl. unfold searchElementCache.
  destruct (String.eqb k "") eqn:Hne.
  { rewrite andb_false_r. reflexivity. }
  rewrite Hl. cbn [negb]. rewrite andb_true_r.
  destruct (bool_decide (Some k ∈ elements) && negb (hasMissingElement K k))%bool;
    [|reflexivity].
  cbn [shape searched names]. destruct (getSubTopoShape K ShapeRef k) as [sh|]; [|reflexivity].
  assert (Hpm : prefixMap (onBeforeChange K ShapeRef true elements st) = []).
  { unfold onBeforeChange, changedShape. rewrite bool_decide_eq_true_2 by reflexivity.
    exact Hmap. }
  rewrite Hpm. reflexivity.
Qed.

End ElementCacheFacts.

(** ** Runs of the element cache *)

Section ElementCacheRuns.
Import ElementCache.

Lemma shape_change_evicts_nothing_witness :
  prefixMap withTool <> []
  /\ cache (onBeforeChange boxOps ShapeRef true [Some "Face1"%string] withTool)
       !! "Tool;Face1"%string
     = Some (mkEntry (Some 7%nat) ["Face9"%string] true).
Proof.
  assert (Hmap : prefixMap withTool <> []) by discriminate.
  split; [exact Hmap|].
  rewrite (shape_change_evicts_nothing boxOps true [Some "Face1"%string] withTool
             "Tool;Face1"%string Hmap).
  vm_compute. reflexivity.
Defined.

Lemma registered_change_evicts_prefix_witness :
  changedShape (prefixMap withTool) toolProp = Some (Some "Tool;"%string, toolProp)
  /\ cache (onBeforeChange boxOps toolProp true
              [Some "Tool;Face1"%string; None; Some "Face1"%string] withTool)
       !! "Edge1"%string
     = cache withTool !! "Edge1"%string
  /\ cache (onBeforeChange boxOps toolProp true
              [Some "Tool;Face1"%string; None; Some "Face1"%string] withTool)
       !! "Tool;Face1"%string
     = Some (mkEntry (Some 2%nat) [] false).
Proof.
  assert (Hc : changedShape (prefixMap withTool) toolProp
               = Some (Some "Tool;"%string, toolProp)) by reflexivity.
  split; [exact Hc|].
  destruct (registered_change_evicts_prefix boxOps toolProp "Tool;"%string toolProp true
              [Some "Tool;Face1"%string; None; Some "Face1"%string] withTool Hc)
    as (_ & Hout & _ & Hin).
  split.
  - apply Hout. reflexivity.
  - rewrite Hin; [reflexivity | reflexivity | | reflexivity].
    apply list_elem_of_here.
Defined.

Lemma unrelated_change_keeps_caches_witness :
  onBeforeChange boxOps (OtherRef 5) true [Some "Face1"%string] withTool = withTool.
Proof.
  apply (unrelated_change_keeps_caches boxOps (OtherRef 5) true [Some "Face1"%string] withTool).
  - discriminate.
  - repeat (constructor; [discriminate|]). constructor.
Defined.

Lemma shape_change_rebuilds_cache_witness :
  prefixMap noPrefix = []
  /\ cache (onBeforeChange boxOps ShapeRef true [Some "Face1"%string] noPrefix)
       !! "Face1"%string
     = Some (mkEntry (Some 1%nat) [] false)
  /\ cache (onBeforeChange boxOps ShapeRef false [Some "Face1"%string] noPrefix) = ∅.
Proof.
  split; [reflexivity|].
  destruct (shape_change_rebuilds_cache boxOps true [Some "Face1"%string] noPrefix eq_refl)
    as (_ & _ & Hin).
  destruct (shape_change_rebuilds_cache boxOps false [Some "Face1"%string] noPrefix eq_refl)
    as (Hoff & _ & _).
  split.
  - rewrite Hin; [reflexivity | reflexivity | apply list_elem_of_here | discriminate | reflexivity].
  - apply Hoff. reflexivity.
Defined.

Lemma search_is_memoised_witness :
  searchElementCache boxOps "Tool;Face1" tt
    (onBeforeChange boxOps toolProp true [Some "Tool;Face1"%string] withTool)
  = (["Tool;Face2"; "Pad.Tool;Face3"]%string,
     mkCaches (prefixMap withTool)
       (<["Tool;Face1"%string :=
            mkEntry (Some 2%nat) ["Tool;Face2"; "Pad.Tool;Face3"]%string true]>
          (cache (onBeforeChange boxOps toolProp true [Some "Tool;Face1"%string] withTool))))
  /\ (searchElementCache boxOps "Tool;Face1" tt
        (mkCaches (prefixMap withTool)
           (<["Tool;Face1"%string :=
                mkEntry (Some 2%nat) ["Tool;Face2"; "Pad.Tool;Face3"]%string true]>
              (cache (onBeforeChange boxOps toolProp true
                        [Some "Tool;Face1"%string] withTool))))).1
     = ["Tool;Face2"; "Pad.Tool;Face3"]%string.
Proof.
  assert (Hrun : searchElementCache boxOps "Tool;Face1" tt
                   (onBeforeChange boxOps toolProp true [Some "Tool;Face1"%string] withTool)
                 = (["Tool;Face2"; "Pad.Tool;Face3"]%string,
                    mkCaches (prefixMap withTool)
                      (<["Tool;Face1"%string :=
                           mkEntry (Some 2%nat) ["Tool;Face2"; "Pad.Tool;Face3"]%string true]>
                         (cache (onBeforeChange boxOps toolProp true
                                   [Some "Tool;Face1"%string] withTool))))).
  { vm_compute. reflexivity. }
  split; [exact Hrun|].
  rewrite (search_is_memoised boxOps _ _ _ _ _ Hrun tt). reflexivity.
Defined.

Lemma search_after_registered_change_witness :
  (changedShape (prefixMap withTool) toolProp = Some (Some "Tool;"%string, toolProp)
   /\ searchedShape (prefixMap withTool) "Tool;Face1" = (toolProp, Some "Tool;"%string)
   /\ eligible boxOps (prefixMap withTool) (Some "Tool;"%string) "Tool;Face1" = true
   /\ getSubTopoShape boxOps toolProp (string_drop (String.length "Tool;") "Tool;Face1")
      = Some 2%nat)
  /\ (searchElementCache boxOps "Tool;Face1" tt
        (onBeforeChange boxOps toolProp true [Some "Tool;Face1"%string] withTool)).1
     = ["Tool;Face2"; "Pad.Tool;Face3"]%string.
Proof.
  split; [repeat split; reflexivity|].
  rewrite (search_after_registered_change boxOps toolProp "Tool;"%string
             [Some "Tool;Face1"%string] withTool "Tool;Face1"%string 2%nat tt
             eq_refl eq_refl (list_elem_of_here _ _) eq_refl eq_refl).
  reflexivity.
Defined.

Lemma search_after_shape_change_witness :
  prefixMap noPrefix = []
  /\ (searchElementCache boxOps "Face1" tt
        (onBeforeChange boxOps ShapeRef true [Some "Face1"%string] noPrefix)).1
     = ["Face6"%string].
Proof.
  split; [reflexivity|].
  rewrite (search_after_shape_change boxOps [Some "Face1"%string] noPrefix
             "Face1"%string tt eq_refl).
  vm_compute. reflexivity.
Defined.

End ElementCacheRuns.

(** ** Invariants of the two walks *)

Section WalkFacts.
Import History.
Context {Shape : Type} (W : World Shape).

Lemma sourceRound_ret lf type st out :
  sourceRound W lf type st = Some out ->
  match out with
  | SReturn r _ => r = sRet st
  | SContinue st' =>
      exists tag original, tag <> 0 /\ sRet st' = sRet st ++ [(tag, original)]
  end.
Proof.
  unfold sourceRound.
  destruct (shapeElementHistory W _ _) as [[tag original] history].
  destruct (Z.eqb tag 0) eqn:Htag; [intros [= <-]; reflexivity|].
  apply Z.eqb_neq in Htag.
  destruct (sOwner st) as [owner|]; cbn.
  - destruct (followLinks W lf owner _ _) as [[[o doc] d]|]; cbn; [|discriminate].
    repeat match goal with
           | |- context [if ?b then _ else _] => destruct b; cbn
           | |- context [match ?x with Some _ => _ | None => _ end] => destruct x; cbn
           | |- context [let '(_, _) := ?x in _] => destruct x; cbn
           end;
      intros [= <-]; try reflexivity; eauto.
  - repeat match goal with
           | |- context [if ?b then _ else _] => destruct b; cbn
           | |- context [match ?x with Some _ => _ | None => _ end] => destruct x; cbn
           | |- context [let '(_, _) := ?x in _] => destruct x; cbn
           end;
      intros [= <-]; try reflexivity; eauto.
Qed.

Lemma sourceLoop_ret fuel lf type st r why :
  sourceLoop W fuel lf type st = Some (r, why) ->
  exists rest, r = sRet st ++ rest /\ Forall (fun e : Z * MappedName => e.1 <> 0) rest.
Proof.
  revert st. induction fuel as [|fuel IH]; intros st; cbn [sourceLoop]; [discriminate|].
  destruct (sourceRound W lf type st) as [out|] eqn:Hround; [|discriminate].
  apply sourceRound_ret in Hround. destruct out as [st'|r' why'].
  - destruct Hround as (tag & original & Htag & Hret). intros Hloop.
    apply IH in Hloop as (rest & -> & Hrest). rewrite Hret, <- app_assoc.
    exists ((tag, original) :: rest). split; [reflexivity|].
    constructor; [exact Htag | exact Hrest].
  - intros [= <- <-]. exists []. rewrite app_nil_r. split; [exact Hround | constructor].
Qed.

(** The list that [getElementSource] returns starts with the given name
    under the tag zero, and no later entry has the tag zero. *)
Theorem source_starts_at_name fuel lf owner shape name type r why :
  getElementSource W fuel lf owner shape name type = Some (r, why) ->
  exists rest, r = (0, name) :: rest
               /\ Forall (fun e : Z * MappedName => e.1 <> 0) rest.
Proof.
  unfold getElementSource. intros Hloop.
  apply sourceLoop_ret in Hloop as (rest & -> & Hrest).
  exists rest. split; [reflexivity | exact Hrest].
Qed.

Lemma historyRound_recursive lf ty st out :
  historyRound W lf true ty st = Some out ->
  exists item,
    hObj item = Some (feature st) /\ hTag item = getID W (feature st)
    /\ match out with
       | Return r => r = ret st ++ [item]
       | Continue st' => ret st' = ret st ++ [item]
       end.
Proof.
  unfold historyRound.
  destruct (shapeElementHistory W (shape st) (element st)) as [[tag original] intermediates].
  set (item := if (negb (IndexedName_valid _) && MappedName_valid _)%bool then _ else _).
  assert (Hitem : hObj item = Some (feature st) /\ hTag item = getID W (feature st)).
  { subst item. unfold newHistoryItem.
    destruct (negb _ && _)%bool; [destruct (IndexedName_valid _)|]; cbn; auto. }
  clearbody item. destruct Hitem as [Hobj Htag].
  destruct (Z.eqb tag 0); cbn.
  - intros [= <-]. exists item. auto.
  - destruct (followLinks W lf _ _ _) as [[[f doc] d]|]; cbn; [|discriminate].
    destruct (getObjectByID W _ _) as [o|]; cbn.
    + repeat match goal with
             | |- context [if ?b then _ else _] => destruct b; cbn
             end; intros [= <-]; exists item; auto.
    + intros [= <-]. exists item. auto.
Qed.

Lemma historyLoop_recursive fuel lf ty st r :
  historyLoop W fuel lf true ty st = Some r ->
  exists rest, r = ret st ++ rest /\ rest <> [] /\ Forall (ownItem W) rest.
Proof.
  revert st. induction fuel as [|fuel IH]; intros st; cbn [historyLoop]; [discriminate|].
  destruct (historyRound W lf true ty st) as [out|] eqn:Hround; [|discriminate].
  apply historyRound_recursive in Hround as (item & Hobj & Htag & Hout).
  assert (Hown : ownItem W item) by (exists (feature st); auto).
  destruct out as [st'|r'].
  - intros Hloop. apply IH in Hloop as (rest & -> & _ & Hrest).
    rewrite Hout, <- app_assoc. exists (item :: rest).
    split; [reflexivity|]. split; [discriminate|]. constructor; assumption.
  - intros [= <-]. exists [item]. split; [exact Hout|]. split; [discriminate|].
    constructor; [exact Hown | constructor].
Qed.

(** The recursive history is never empty, and each of its items names an
    object and carries the identity of that object as its tag. *)
Theorem history_items_name_their_object fuel lf f name sameType r :
  getElementHistory W fuel lf f name true sameType = Some r ->
  r <> [] /\ Forall (ownItem W) r.
Proof.
  unfold getElementHistory. intros Hloop.
  apply historyLoop_recursive in Hloop as (rest & -> & Hne & Hown).
  cbn [historyStart ret app]. split; assumption.
Qed.

(** Without recursion the history has two items: one for the feature
    and the element, and one that carries the tag and the original name
    of the generation record, with no index and no intermediate names;
    with the tag zero the second item names no object. *)
Theorem single_step_history fuel lf f name sameType r :
  getElementHistory W fuel lf f name false sameType = Some r ->
  let st := historyStart W f name in
  let record := shapeElementHistory W (shape st) (element st) in
  exists first last,
    r = [first; last]
    /\ hObj first = Some f /\ hTag first = getID W f
    /\ hTag last = record.1.1 /\ hElement last = record.1.2
    /\ hIndex last = nullIndexedName /\ hIntermediates last = []
    /\ (record.1.1 = 0 -> hObj last = None).
Proof.
  intros Hloop st record. subst record. unfold getElementHistory in Hloop.
  destruct fuel as [|fuel]; [discriminate|]. cbn [historyLoop] in Hloop.
  fold st in Hloop.
  assert (Hf : feature st = f) by reflexivity.
  assert (Hr : ret st = []) by reflexivity.
  revert Hloop. generalize (if sameType then elementType W (shape st) (element st)
                            else zeroChar) as ty.
  intros ty. unfold historyRound.
  destruct (shapeElementHistory W (shape st) (element st)) as [[tag original] intermediates].
  set (item := if (negb (IndexedName_valid _) && MappedName_valid _)%bool then _ else _).
  assert (Hitem : hObj item = Some f /\ hTag item = getID W f).
  { subst item. unfold newHistoryItem. rewrite Hf.
    destruct (negb _ && _)%bool; [destruct (IndexedName_valid _)|]; cbn; auto. }
  clearbody item. destruct Hitem as [Hobj Htag]. rewrite Hr. cbn [app fst snd].
  destruct (Z.eqb tag 0) eqn:Hz; cbn.
  - intros [= <-]. eexists item, _. split; [reflexivity|]. cbn. auto 10.
  - destruct (followLinks W lf _ _ _) as [[[f' doc] d]|]; cbn; [|discriminate].
    intros [= <-]. eexists item, _. split; [reflexivity|]. cbn.
    apply Z.eqb_neq in Hz. repeat split; auto. intros ->. congruence.
Qed.

End WalkFacts.

(** ** Bounds on the elements found from a source *)

Section SearchBounds.
Import FromSource.
Context (Q : Query).

Lemma checkHistory_grows elementName checkingSubname st name tag :
  let out := checkHistory Q elementName checkingSubname st name tag in
  out.2.2 = st.2 \/ (out.1 = true /\ exists e, out.2.2 = st.2 ++ [e]).
Proof.
  destruct st as [tagChanges res]. unfold checkHistory.
  destruct (if Z.eqb (Z.abs tag) (ownerID Q) then _ else _) as [cut tc].
  destruct cut; cbn; [left; reflexivity|].
  destruct (String.eqb name elementName); cbn; [|left; reflexivity].
  destruct (negb (String.eqb _ "")); cbn; [|left; reflexivity].
  right. split; [reflexivity|]. eexists. reflexivity.
Qed.

Lemma traceElement_grows elementName checkingSubname steps st :
  let res := (traceElement steps (checkHistory Q elementName checkingSubname) st).2 in
  res = st.2 \/ exists e, res = st.2 ++ [e].
Proof.
  revert st. induction steps as [|[n t] steps IH]; intros st; cbn [traceElement].
  - left. reflexivity.
  - pose proof (checkHistory_grows elementName checkingSubname st n t) as Hstep.
    destruct (checkHistory Q elementName checkingSubname st n t) as [stop st'].
    cbn in Hstep. destruct Hstep as [Hsame | [-> [e He]]].
    + destruct stop; [left; exact Hsame|].
      cbn zeta. rewrite <- Hsame. apply IH.
    + right. exists e. exact He.
Qed.

Lemma traceFor_grows elementName checkingSubname res :
  (traceFor Q elementName checkingSubname res).2 = res
  \/ exists e, (traceFor Q elementName checkingSubname res).2 = res ++ [e].
Proof.
  unfold traceFor. cbn [snd].
  apply (traceElement_grows elementName checkingSubname _ (0, res)).
Qed.

Lemma scan_grows single indices res log :
  (length (scan Q single indices res log).1 <= length res + length indices)%nat
  /\ (single = true -> (length res = 0)%nat ->
      (length (scan Q single indices res log).1 <= 1)%nat).
Proof.
  revert res log. induction indices as [|i indices IH]; intros res log; cbn [scan].
  - cbn. split; lia.
  - set (c := IndexedName_fromConst _ _).
    destruct (traceFor_grows (sourceName Q) c res) as [Hsame | [e He]].
    + rewrite Hsame.
      destruct (IH res (log ++ [CallTraceElement (traceFor Q (sourceName Q) c res).1]))
        as [Hlen Hone].
      destruct (single && negb (Nat.eqb (length res) 0))%bool eqn:Hstop; cbn [fst length].
      * split; [lia|]. intros _ Hz. lia.
      * split; [lia | exact Hone].
    + rewrite He.
      destruct (IH (res ++ [e])
                   (log ++ [CallTraceElement (traceFor Q (sourceName Q) c res).1]))
        as [Hlen _].
      rewrite length_app in *. cbn [length] in *.
      destruct single; cbn [andb].
      * replace (Nat.eqb (length res + 1) 0) with false
          by (symmetry; apply Nat.eqb_neq; lia).
        cbn [negb fst]. rewrite length_app. cbn [length]. split; [lia|]. intros _ Hz. lia.
      * split; [lia | discriminate].
Qed.

Lemma shortcut_grows : (length (shortcut Q).1 <= 1)%nat.
Proof.
  unfold shortcut. destruct (shortcutApplies Q); cbn [fst]; [|cbn; lia].
  destruct (traceFor_grows (sourceName Q) (sourceIndex Q) []) as [-> | [e ->]]; cbn; lia.
Qed.

Lemma search_tail_bound single res log :
  length res = 0%nat ->
  let out :=
    if negb (Nat.eqb (length (searchSubShape Q)) 0)
    then (geometric Q single (searchSubShape Q) res, log)
    else if (negb (MappedName_valid (sourceName Q))
             || bool_decide (sourceType Q = TopAbs_SHAPE))%bool then (res, log)
    else scan Q single (seq 0 (countSubShapes Q (sourceType Q))) res log in
  (single = true -> (length out.1 <= 1)%nat)
  /\ (length out.1 <= Nat.max 1 (Nat.max (length (searchSubShape Q))
                                         (countSubShapes Q (sourceType Q))))%nat.
Proof.
  intros Hres out. subst out.
  destruct (negb (Nat.eqb (length (searchSubShape Q)) 0)).
  - cbn [fst]. unfold geometric. rewrite length_app, length_fmap, Hres.
    destruct single; [rewrite length_take|]; split; try discriminate; try lia.
  - destruct (negb _ || _)%bool.
    + cbn [fst]. rewrite Hres. split; lia.
    + destruct (scan_grows single (seq 0 (countSubShapes Q (sourceType Q))) res log)
        as [Hlen Hone].
      rewrite length_seq, Hres in Hlen. split; [|lia].
      intros Hs. apply Hone; assumption.
Qed.

(** A trace adds at most one element, so a search that asks for a single
    element returns at most one, and any search returns no more elements
    than the geometric search found names or the shape has sub-shapes of
    the type. *)
Theorem found_elements_are_bounded obj src single :
  (single = true -> (length (getElementFromSource Q obj src single).1 <= 1)%nat)
  /\ (length (getElementFromSource Q obj src single).1
      <= Nat.max 1 (Nat.max (length (searchSubShape Q))
                            (countSubShapes Q (sourceType Q))))%nat.
Proof.
  unfold getElementFromSource.
  destruct obj as [o|]; [|cbn; split; lia]. destruct src as [s|]; [|cbn; split; lia].
  unfold shortcut. destruct (shortcutApplies Q); cbn [andb].
  - destruct (traceFor_grows (sourceName Q) (sourceIndex Q) []) as [Hsame | [e He]].
    + rewrite Hsame. cbn [length Nat.eqb negb].
      apply (search_tail_bound single [] _ eq_refl).
    + rewrite He. cbn [app length Nat.eqb negb fst]. split; lia.
  - apply (search_tail_bound single [] _ eq_refl).
Qed.

End SearchBounds.

(** ** The comparison of sources in [getRelatedElements] *)

Section RelatedOrigins.
Import History Related.
Context {Shape : Type} (W : World Shape) (X : ShapeOps Shape).

Lemma compareSources_le rsrc source idx : compareSources rsrc source idx <= idx + 1.
Proof.
  revert idx. induction rsrc as [|r rsrc IH]; intros idx; cbn [compareSources]; [lia|].
  destruct (idx <? 0); [lia|].
  destruct (source !! Z.to_nat idx) as [s|]; [|lia].
  destruct (negb (String.eqb r.2 s.2)); [lia|].
  specialize (IH (idx - 1)). lia.
Qed.

Lemma recorded_eqb (src source : list (Z * MappedName)) :
  src <> [] -> source <> [] ->
  (compareSources (rev src) source (Z.of_nat (length source) - 1)
   <? Z.of_nat (length source))
  = String.eqb (origin src) (origin source).
Proof.
  intros Hsrc Hsource.
  destruct (exists_last Hsrc) as (init & r & ->).
  destruct (exists_last Hsource) as (init' & s & ->).
  unfold origin. rewrite !last_last, rev_unit, length_app. cbn [length compareSources].
  replace (Z.of_nat (length init' + 1) - 1) with (Z.of_nat (length init')) by lia.
  replace (Z.of_nat (length init') <? 0) with false by (symmetry; apply Z.ltb_ge; lia).
  rewrite Nat2Z.id, list_lookup_middle by reflexivity.
  destruct (String.eqb r.2 s.2); cbn [negb].
  - pose proof (compareSources_le (rev init) (init' ++ [s]) (Z.of_nat (length init') - 1)).
    apply Z.ltb_lt. lia.
  - apply Z.ltb_ge. lia.
Qed.

(** A scanned element is recorded exactly when the oldest name of its
    sources is the oldest name of the sources of the queried element,
    whatever the tags and the names before it are. *)
Theorem recorded_iff_same_origin (src source : list (Z * MappedName)) :
  src <> [] -> source <> [] ->
  compareSources (rev src) source (Z.of_nat (length source) - 1)
    < Z.of_nat (length source)
  <-> origin src = origin source.
Proof.
  intros Hsrc Hsource. rewrite <- Z.ltb_lt, recorded_eqb by assumption.
  apply String.eqb_eq.
Qed.

Lemma getElementSource_nonempty fuel lf owner shape name type src :
  getElementSource W fuel lf owner shape name type = Some src -> src.1 <> [].
Proof.
  destruct src as [r why]. unfold getElementSource. intros Hloop.
  apply sourceLoop_ret in Hloop as (rest & -> & _). discriminate.
Qed.

Lemma retMap_push_Forall (P : MappedElement -> Prop) idx e m :
  P e -> Forall (fun kv : Z * list MappedElement => Forall P kv.2) m ->
  Forall (fun kv : Z * list MappedElement => Forall P kv.2) (retMap_push idx e m).
Proof.
  intros He. induction 1 as [|[k v] m Hv Hm IH]; cbn [retMap_push].
  - repeat constructor. exact He.
  - destruct (idx <? k).
    + constructor; [repeat constructor; exact He|]. constructor; assumption.
    + destruct (idx =? k).
      * constructor; [|exact Hm]. cbn. apply Forall_app. split; [exact Hv|].
        repeat constructor. exact He.
      * constructor; assumption.
Qed.

Lemma scanRelated_sameOrigin fuel lf owner shape type srcType source indices retMap retMap' :
  source <> [] ->
  Forall (fun kv : Z * list MappedElement =>
            Forall (sameOrigin W X fuel lf owner shape srcType source) kv.2) retMap ->
  scanRelated W X fuel lf owner shape type srcType source indices retMap = Some retMap' ->
  Forall (fun kv : Z * list MappedElement =>
            Forall (sameOrigin W X fuel lf owner shape srcType source) kv.2) retMap'.
Proof.
  intros Hsource. revert retMap.
  induction indices as [|i indices IH]; intros retMap Hall; cbn [scanRelated].
  - intros [= <-]. exact Hall.
  - cbn [MappedElement.name].
    set (index := IndexedName_fromConst (shapeName X type) (Z.of_nat i)).
    destruct (MappedName_valid (getMappedNameOf X shape index)) eqn:Hvalid; cbn [negb];
      [|apply IH; exact Hall].
    destruct (getElementSource W fuel lf owner shape (getMappedNameOf X shape index) srcType)
      as [src|] eqn:Hsrc; cbn; [|discriminate].
    apply IH.
    destruct (_ <? Z.of_nat (length source)) eqn:Hidx; [|exact Hall].
    apply retMap_push_Forall; [|exact Hall].
    split; [exact Hvalid|]. split; [reflexivity|].
    exists src. split; [exact Hsrc|].
    rewrite recorded_eqb in Hidx by
      (first [exact (getElementSource_nonempty _ _ _ _ _ _ _ Hsrc) | exact Hsource]).
    apply String.eqb_eq. exact Hidx.
Qed.

(** When no source of the queried element has an index in the shape,
    every element that [getRelatedElements] then returns is a named
    element of the shape whose sources end in the same oldest name as
    the sources of the queried element. *)
Theorem related_elements_share_origin fuel lf obj name (sameType withCache : bool)
    cache ret cache' source :
  let shape := (getTopoShapeOwner W obj).1 in
  let owner := (getTopoShapeOwner W obj).2 in
  let mapped := MappedElement.name (getElementName X shape name) in
  let srcType := if sameType then elementType W shape mapped else zeroChar in
  getRelatedElements W X fuel lf obj name sameType withCache cache = Some (ret, cache') ->
  (withCache = true -> getRelatedElementsCached cache mapped sameType = None) ->
  getElementSource W fuel lf owner shape mapped srcType = Some source ->
  firstIndexed W shape source.1 = None ->
  Forall (sameOrigin W X fuel lf owner shape srcType source.1) ret.
Proof.
  intros shape owner mapped srcType. subst shape owner mapped srcType.
  unfold getRelatedElements.
  destruct (getTopoShapeOwner W obj) as [shape owner]. cbn [fst snd].
  intros Hrun Hmiss Hsource Hnone.
  destruct (negb (MappedName_valid _)); [injection Hrun as <- <-; constructor|].
  assert (Hc : (if withCache
                then getRelatedElementsCached cache
                       (MappedElement.name (getElementName X shape name)) sameType
                else None) = None).
  { destruct withCache; [apply Hmiss|]; reflexivity. }
  rewrite Hc in Hrun.
  destruct (bool_decide _); [injection Hrun as <- <-; constructor|].
  rewrite Hsource in Hrun. cbn in Hrun. rewrite Hnone in Hrun.
  destruct (scanRelated W X fuel lf owner shape _ _ source.1 _ []) as [retMap|] eqn:Hscan;
    cbn in Hrun; [|discriminate].
  injection Hrun as <- <-.
  apply scanRelated_sameOrigin in Hscan;
    [|exact (getElementSource_nonempty _ _ _ _ _ _ _ Hsource) | constructor].
  destruct Hscan as [|first rest Hfirst _]; [constructor | exact Hfirst].
Qed.

End RelatedOrigins.

(** ** Runs of the walks and of the comparison of sources *)

Section WalkRuns.
Import History Related.

Lemma source_starts_at_name_witness :
  getElementSource chainWorld 3 1 (Some 2%nat) 2%nat "y" zeroChar
  = Some ([(0, "y"%string); (1, "x"%string)], OriginReached)
  /\ exists rest, [(0, "y"%string); (1, "x"%string)] = (0, "y"%string) :: rest
                  /\ Forall (fun e : Z * MappedName => e.1 <> 0) rest.
Proof.
  assert (Hrun : getElementSource chainWorld 3 1 (Some 2%nat) 2%nat "y" zeroChar
                 = Some ([(0, "y"%string); (1, "x"%string)], OriginReached))
    by (vm_compute; reflexivity).
  split; [exact Hrun|].
  apply (source_starts_at_name chainWorld 3 1 (Some 2%nat) 2%nat "y" zeroChar _ _ Hrun).
Defined.

Lemma history_items_name_their_object_witness :
  getElementHistory chainWorld 3 1 2 "y" true false
  = Some [mkHistoryItem (Some 2%nat) 2 "y" (mkIndexedName "Edge" 1) [];
          mkHistoryItem (Some 1%nat) 1 "x" (mkIndexedName "Edge" 1) []]
  /\ Forall (ownItem chainWorld)
       [mkHistoryItem (Some 2%nat) 2 "y" (mkIndexedName "Edge" 1) [];
        mkHistoryItem (Some 1%nat) 1 "x" (mkIndexedName "Edge" 1) []].
Proof.
  assert (Hrun : getElementHistory chainWorld 3 1 2 "y" true false
                 = Some [mkHistoryItem (Some 2%nat) 2 "y" (mkIndexedName "Edge" 1) [];
                         mkHistoryItem (Some 1%nat) 1 "x" (mkIndexedName "Edge" 1) []])
    by (vm_compute; reflexivity).
  split; [exact Hrun|].
  apply (history_items_name_their_object chainWorld 3 1 2 "y" false _ Hrun).
Defined.

Lemma single_step_history_witness :
  getElementHistory chainWorld 3 1 2 "y" false false
  = Some [mkHistoryItem (Some 2%nat) 2 "y" (mkIndexedName "Edge" 1) [];
          mkHistoryItem (Some 1%nat) 1 "x" nullIndexedName []]
  /\ exists first last,
       [mkHistoryItem (Some 2%nat) 2 "y" (mkIndexedName "Edge" 1) [];
        mkHistoryItem (Some 1%nat) 1 "x" nullIndexedName []] = [first; last]
       /\ hTag last = 1 /\ hElement last = "x"%string.
Proof.
  assert (Hrun : getElementHistory chainWorld 3 1 2 "y" false false
                 = Some [mkHistoryItem (Some 2%nat) 2 "y" (mkIndexedName "Edge" 1) [];
                         mkHistoryItem (Some 1%nat) 1 "x" nullIndexedName []])
    by (vm_compute; reflexivity).
  split; [exact Hrun|].
  destruct (single_step_history chainWorld 3 1 2 "y" false _ Hrun)
    as (first & last & Hr & _ & _ & Htag & Hel & _).
  exists first, last. split; [exact Hr|]. split; [exact Htag | exact Hel].
Defined.

Lemma strippingWorld_shrinks : shrinking strippingWorld.
Proof.
  intros shape n. cbn. destruct (String.eqb n "x;F") eqn:Hn; cbn.
  - apply String.eqb_eq in Hn as ->. cbn. lia.
  - intros Htag. contradiction.
Qed.

Lemma strippingWorld_links : linksEnd strippingWorld 1.
Proof. intros o doc d. cbn. rewrite Nat.eqb_refl. eexists. reflexivity. Qed.

Lemma getElementHistory_ends_witness :
  is_Some (getElementHistory strippingWorld 4 1 2 "x;F" true true).
Proof.
  apply (getElementHistory_ends strippingWorld 1 2 "x;F" true true
           strippingWorld_shrinks strippingWorld_links).
Defined.

Lemma recorded_iff_same_origin_witness :
  compareSources (rev [(0, "y"%string); (1, "x"%string)])
                 [(0, "z"%string); (1, "x"%string)] (2 - 1) < 2
  <-> origin [(0, "y"%string); (1, "x"%string)] = origin [(0, "z"%string); (1, "x"%string)].
Proof.
  apply (recorded_iff_same_origin [(0, "y"%string); (1, "x"%string)]
                                  [(0, "z"%string); (1, "x"%string)]); discriminate.
Defined.

Lemma related_elements_share_origin_witness :
  (getRelatedElements chainWorld chainOps 3 1 2 "z" false false ∅
   = Some ([mkMappedElement "y" (mkIndexedName "Edge" 1)],
           cacheRelatedElements ∅ "z" false [mkMappedElement "y" (mkIndexedName "Edge" 1)])
   /\ getElementSource chainWorld 3 1 (Some 2%nat) 2%nat "z" zeroChar
      = Some ([(0, "z"%string); (1, "x"%string)], OriginReached)
   /\ firstIndexed chainWorld 2%nat [(0, "z"%string); (1, "x"%string)] = None)
  /\ Forall (sameOrigin chainWorld chainOps 3 1 (Some 2%nat) 2%nat zeroChar
               [(0, "z"%string); (1, "x"%string)])
            [mkMappedElement "y" (mkIndexedName "Edge" 1)].
Proof.
  assert (Hrun : getRelatedElements chainWorld chainOps 3 1 2 "z" false false ∅
                 = Some ([mkMappedElement "y" (mkIndexedName "Edge" 1)],
                         cacheRelatedElements ∅ "z" false
                           [mkMappedElement "y" (mkIndexedName "Edge" 1)]))
    by (vm_compute; reflexivity).
  assert (Hsource : getElementSource chainWorld 3 1 (Some 2%nat) 2%nat "z" zeroChar
                    = Some ([(0, "z"%string); (1, "x"%string)], OriginReached))
    by (vm_compute; reflexivity).
  assert (Hnone : firstIndexed chainWorld 2%nat [(0, "z"%string); (1, "x"%string)] = None)
    by reflexivity.
  split; [auto|].
  apply (related_elements_share_origin chainWorld chainOps 3 1 2 "z" false false ∅ _ _
           ([(0, "z"%string); (1, "x"%string)], OriginReached) Hrun).
  - discriminate.
  - exact Hsource.
  - exact Hnone.
Defined.

End WalkRuns.

(** ** The loops over ancestors in [getExportElementName] *)

Section AncestorFacts.
Import ExportName.
Context {T : Type} (shape : TopoShape T).

Lemma eraseLoop_cases (kept rest v : list Z) :
  let r := eraseLoop kept rest v in
  r = kept ++ filter (fun a => contains a v = true) rest
  \/ (length r = 1%nat
      /\ r `sublist_of` kept ++ rest
      /\ kept ++ filter (fun a => contains a v = true) rest `sublist_of` r).
Proof.
  revert kept. induction rest as [|a rest IH]; intros kept; cbn [eraseLoop].
  - left. rewrite filter_nil, app_nil_r. reflexivity.
  - destruct (contains a v) eqn:Ha.
    + rewrite filter_cons_True by exact Ha.
      destruct (IH (kept ++ [a])) as [Heq | (Hlen & Hsub & Hsup)].
      * left. cbn zeta in Heq. rewrite Heq, <- app_assoc. reflexivity.
      * right. cbn zeta in *. rewrite <- app_assoc in Hsub, Hsup. auto.
    + rewrite filter_cons_False by (rewrite Ha; discriminate).
      destruct (Nat.eqb (length (kept ++ rest)) 1) eqn:Hone.
      * right. apply Nat.eqb_eq in Hone. split; [exact Hone|]. split.
        -- apply sublist_app; [reflexivity|]. apply sublist_cons. reflexivity.
        -- apply sublist_app; [reflexivity|]. apply sublist_filter.
      * destruct (IH kept) as [Heq | (Hlen & Hsub & Hsup)]; [left; exact Heq|].
        right. split; [exact Hlen|]. split; [|exact Hsup].
        etransitivity; [exact Hsub|].
        apply sublist_app; [reflexivity|]. apply sublist_cons. reflexivity.
Qed.

(** The erasure of the ancestors that an entry lacks only removes: what
    is left is in the order of the ancestors and holds every ancestor
    that the entry has; it is exactly those, unless the loop left early
    with one ancestor, which then was not compared with the entry. *)
Theorem erasure_keeps_shared_ancestors (ancestors v : list Z) :
  let shared := filter (fun a => contains a v = true) ancestors in
  eraseLoop [] ancestors v `sublist_of` ancestors
  /\ shared `sublist_of` eraseLoop [] ancestors v
  /\ (eraseLoop [] ancestors v <> shared -> length (eraseLoop [] ancestors v) = 1%nat).
Proof.
  intros shared. subst shared.
  destruct (eraseLoop_cases [] ancestors v) as [Heq | (Hlen & Hsub & Hsup)];
    cbn [app] in *.
  - rewrite Heq. split; [apply sublist_filter|]. split; [reflexivity|].
    intros Hne. contradiction.
  - split; [exact Hsub|]. split; [exact Hsup|]. intros _. exact Hlen.
Qed.

Lemma keepCommon_nil lists : keepCommon [] lists = [].
Proof.
  unfold keepCommon. induction lists as [|c lists IH]; cbn [foldl]; [reflexivity|].
  rewrite filter_nil. exact IH.
Qed.

Lemma decodeLoop_resolved em kind names lists ancestors :
  Forall2 (fun n current => nameAncestors shape em kind n = Some current) names lists ->
  ancestors <> [] ->
  decodeLoop shape em kind names ancestors = keepCommon ancestors lists.
Proof.
  intros Hall. revert ancestors.
  induction Hall as [|n current names lists Hn Hall IH]; intros ancestors Hne;
    [reflexivity|].
  cbn [decodeLoop]. unfold nameAncestors in Hn.
  destruct (IndexedName_valid (getIndexedName em n)); cbn [negb]; [|discriminate].
  destruct (getSubShape shape _ _) as [subshape|]; [|discriminate].
  injection Hn as <-.
  destruct ancestors as [|a ancestors]; [congruence|].
  unfold keepCommon. cbn [foldl].
  destruct (filter _ (a :: ancestors)) as [|b rest] eqn:Hf.
  - symmetry. apply keepCommon_nil.
  - apply IH. discriminate.
Qed.

(** When every decoded name resolves to a sub-shape and the first of
    them has ancestors, the loop leaves the ancestors of the first name
    that are ancestors of every other name, in their order. *)
Theorem decode_keeps_common_ancestors em kind n names first lists :
  nameAncestors shape em kind n = Some first ->
  Forall2 (fun n current => nameAncestors shape em kind n = Some current) names lists ->
  first <> [] ->
  decodeLoop shape em kind (n :: names) [] = keepCommon first lists.
Proof.
  intros Hn Hall Hne. cbn [decodeLoop]. unfold nameAncestors in Hn.
  destruct (IndexedName_valid (getIndexedName em n)); cbn [negb]; [|discriminate].
  destruct (getSubShape shape _ _) as [subshape|]; [|discriminate].
  injection Hn as <-. apply decodeLoop_resolved; assumption.
Qed.

(** A decoded name that has no index name, or whose index name has no
    sub-shape, empties the ancestors, whatever the names before it gave
    and whatever names follow. *)
Theorem unresolved_name_clears_ancestors em kind before n after ancestors :
  nameAncestors shape em kind n = None ->
  decodeLoop shape em kind (before ++ n :: after) ancestors = [].
Proof.
  intros Hn. revert ancestors.
  induction before as [|m before IH]; intros ancestors; cbn [app decodeLoop].
  - unfold nameAncestors in Hn.
    destruct (IndexedName_valid (getIndexedName em n)); cbn [negb]; [|reflexivity].
    destruct (getSubShape shape _ _); [discriminate | reflexivity].
  - destruct (negb _); [reflexivity|].
    destruct (getSubShape shape _ _); [|reflexivity].
    destruct ancestors; [apply IH|].
    destruct (filter _ _); [reflexivity | apply IH].
Qed.

(** The names handed to [setElementComboName] are at least one and at
    most [MaxLowerTopoNames], each is the valid name of a lower sub-shape
    of the element, and the suffix is empty or the index postfix
    followed by a position. *)
Theorem chosen_names_are_bounded kind idx lower idxName subshape names op :
  chooseNames shape kind idx lower idxName subshape = Ok (Some (names, op)) ->
  (1 <= length names <= MaxLowerTopoNames)%nat
  /\ Forall (fun n => MappedName_valid n = true
                      /\ exists ss, ss ∈ getSubTopoShapes shape subshape lower
                                    /\ n = subMappedName shape ss idxName) names
  /\ (op = ""%string \/ exists k, op = (indexPostfix shape +:+ to_string k)%string).
Proof.
  intros Hrun.
  destruct (chooseNames_run _ _ _ _ _ _ _ Hrun) as (es & Hpre & _ & _ & _ & -> & Hne).
  split; [|split].
  - rewrite length_take, length_fmap. destruct es; [congruence|].
    cbn [length]. unfold MaxLowerTopoNames. lia.
  - apply Forall_forall. intros n Hn.
    apply elem_of_take in Hn as (i & Hn & _).
    apply list_elem_of_lookup_2 in Hn.
    apply list_elem_of_fmap in Hn as ([n' anc] & -> & He).
    destruct Hpre as [tl Hpre].
    assert (Hin : (n', anc) ∈ lowerEntries shape kind idxName
                                (getSubTopoShapes shape subshape lower)).
    { rewrite Hpre. apply elem_of_app. left. exact He. }
    unfold lowerEntries in Hin. apply list_elem_of_omap in Hin as (ss & Hss & Hsome).
    cbn in Hsome. destruct (MappedName_valid (subMappedName shape ss idxName)) eqn:Hv;
      [|discriminate].
    injection Hsome as <- <-. cbn. split; [exact Hv|]. exists ss. auto.
  - destruct (chooseNames_suffix _ _ _ _ _ _ _ _ Hrun) as (anc & _ & _ & Hop).
    destruct (indexSuffix_cases _ _ _ _ Hop) as [Hnone Hsome].
    destruct (le_lt_dec (length anc) 1) as [Hle|Hlt].
    + left. apply Hnone. exact Hle.
    + right. destruct (Hsome Hlt) as (k & _ & ->). exists k. reflexivity.
Qed.

End AncestorFacts.

(** ** Runs of the loops over ancestors *)

Section AncestorRuns.
Import ExportName.

Lemma decode_keeps_common_ancestors_witness :
  (nameAncestors bigTwins edgeMap TopAbs_WIRE "a" = Some [1; 2]
   /\ Forall2 (fun n current => nameAncestors bigTwins edgeMap TopAbs_WIRE n = Some current)
              ["b"; "c"]%string [[1; 2]; [1; 2]])
  /\ decodeLoop bigTwins edgeMap TopAbs_WIRE ["a"; "b"; "c"]%string []
     = keepCommon [1; 2] [[1; 2]; [1; 2]].
Proof.
  assert (Hfirst : nameAncestors bigTwins edgeMap TopAbs_WIRE "a" = Some [1; 2])
    by (vm_compute; reflexivity).
  assert (Hrest : Forall2 (fun n current =>
                             nameAncestors bigTwins edgeMap TopAbs_WIRE n = Some current)
                          ["b"; "c"]%string [[1; 2]; [1; 2]]).
  { repeat (constructor; [vm_compute; reflexivity|]). constructor. }
  split; [split; assumption|].
  apply (decode_keeps_common_ancestors bigTwins edgeMap TopAbs_WIRE "a"%string
           ["b"; "c"]%string [1; 2] [[1; 2]; [1; 2]] Hfirst Hrest).
  discriminate.
Defined.

Lemma unresolved_name_clears_ancestors_witness :
  nameAncestors bigTwins edgeMap TopAbs_WIRE "zz" = None
  /\ decodeLoop bigTwins edgeMap TopAbs_WIRE (["a"%string] ++ "zz"%string :: ["b"%string]) [] = [].
Proof.
  assert (Hn : nameAncestors bigTwins edgeMap TopAbs_WIRE "zz" = None)
    by (vm_compute; reflexivity).
  split; [exact Hn|].
  apply (unresolved_name_clears_ancestors bigTwins edgeMap TopAbs_WIRE
           ["a"%string] "zz"%string ["b"%string] [] Hn).
Defined.

Lemma chosen_names_are_bounded_witness :
  chooseNames bigTwins TopAbs_WIRE 2 TopAbs_EDGE (IndexedName_fromConst "Edge" 1)
              (TopAbs_WIRE, 2)
  = Ok (Some (["a"; "b"; "c"; "d"; "e"; "f"; "g"; "h"; "i"; "j"]%string, ";:I1"%string))
  /\ (1 <= length ["a"; "b"; "c"; "d"; "e"; "f"; "g"; "h"; "i"; "j"]%string
      <= MaxLowerTopoNames)%nat
  /\ (";:I1"%string = ""%string
      \/ exists k, ";:I1"%string = (indexPostfix bigTwins +:+ to_string k)%string).
Proof.
  assert (Hrun : chooseNames bigTwins TopAbs_WIRE 2 TopAbs_EDGE
                   (IndexedName_fromConst "Edge" 1) (TopAbs_WIRE, 2)
                 = Ok (Some (["a"; "b"; "c"; "d"; "e"; "f"; "g"; "h"; "i"; "j"]%string,
                             ";:I1"%string)))
    by (vm_compute; reflexivity).
  split; [exact Hrun|].
  destruct (chosen_names_are_bounded bigTwins TopAbs_WIRE 2 TopAbs_EDGE
              (IndexedName_fromConst "Edge" 1) (TopAbs_WIRE, 2) _ _ Hrun)
    as (Hlen & _ & Hop).
  split; [exact Hlen | exact Hop].
Defined.

End AncestorRuns.

(** ** Properties of the element mapping flags *)

Section MappingFacts.
Import ElementMapping.
Context {Store Container BoolProp : Type} `{EqDecision Container}.
Context (P : @PropertySystem Store Container BoolProp).

Lemma propDisableMapping_keeps s c : (propDisableMapping P s c false).1 = s.
Proof.
  unfold propDisableMapping.
  destruct (getPropertyByName P s c) as [p|]; [|reflexivity].
  case_bool_decide; reflexivity.
Qed.

Lemma propDisableMapping_own s c forced s' p :
  lawful P ->
  propDisableMapping P s c forced = (s', Some p) ->
  getPropertyByName P s' c = Some p /\ getContainer P s' p = c.
Proof.
  intros (_ & _ & _ & _ & Hadd). unfold propDisableMapping.
  destruct (getPropertyByName P s c) as [q|] eqn:Hq.
  - case_bool_decide as Hown.
    + intros [= <- <-]. auto.
    + destruct forced; cbn [negb]; [|discriminate].
      specialize (Hadd s c). destruct (addDynamicProperty P s c) as [s1 p1].
      intros [= <- <-]. exact Hadd.
  - destruct forced; cbn [negb]; [|discriminate].
    specialize (Hadd s c). destruct (addDynamicProperty P s c) as [s1 p1].
    intros [= <- <-]. exact Hadd.
Qed.

Lemma propDisableMapping_found s c p :
  getPropertyByName P s c = Some p -> getContainer P s p = c ->
  forall forced, propDisableMapping P s c forced = (s, Some p).
Proof.
  intros Hp Hc forced. unfold propDisableMapping. rewrite Hp.
  rewrite bool_decide_eq_true_2 by exact Hc. reflexivity.
Qed.

(** After element mapping is disabled for a container, the container is
    reported as disabled, whether the flag existed or had to be created;
    enabling it for a container that has no flag of its own creates
    none and leaves the store as it is. *)
Theorem disabling_is_observed s c :
  lawful P ->
  isElementMappingDisabled P (disableElementMapping P s (Some c) true) (Some c) = true
  /\ ((propDisableMapping P s c false).2 = None ->
      disableElementMapping P s (Some c) false = s).
Proof.
  intros Hlaw. split.
  - unfold disableElementMapping.
    destruct (propDisableMapping P s c true) as [s' [p|]] eqn:Hprop.
    2:{ unfold propDisableMapping in Hprop.
        destruct (match getPropertyByName P s c with Some _ => _ | None => _ end);
          [discriminate|]. cbn in Hprop.
        destruct (addDynamicProperty P s c). discriminate. }
    destruct (propDisableMapping_own _ _ _ _ _ Hlaw Hprop) as [Hp Hc].
    destruct Hlaw as (Hget & Hname & Hcont & _ & _).
    assert (Hlive : live P s' p) by (exists c; exact Hp).
    unfold isElementMappingDisabled.
    rewrite (propDisableMapping_found (setValue P s' p true) c p).
    + cbn [snd]. rewrite Hget by exact Hlive. reflexivity.
    + rewrite Hname by exact Hlive. exact Hp.
    + rewrite Hcont by exact Hlive. exact Hc.
  - intros Hnone. unfold disableElementMapping.
    pose proof (propDisableMapping_keeps s c) as Hs.
    destruct (propDisableMapping P s c false) as [s' prop]. cbn in Hnone, Hs.
    subst. reflexivity.
Qed.

(** The flag of the document decides for its objects: when the document
    has the flag set, an object of it is reported as disabled even after
    element mapping was enabled for the object itself. *)
Theorem document_flag_overrides_object s c doc q :
  lawful P ->
  getDocument P c = Some doc -> c <> doc ->
  propDisableMapping P s doc false = (s, Some q) -> getValue P s q = true ->
  isElementMappingDisabled P (disableElementMapping P s (Some c) false) (Some c) = true.
Proof.
  intros Hlaw Hdoc Hne Hq Hval.
  destruct (propDisableMapping_own _ _ _ _ _ Hlaw Hq) as [Hqn Hqc].
  unfold disableElementMapping.
  pose proof (propDisableMapping_keeps s c) as Hs.
  destruct (propDisableMapping P s c false) as [s' [p|]] eqn:Hprop; cbn in Hs; subst s'.
  - destruct (propDisableMapping_own _ _ _ _ _ Hlaw Hprop) as [Hp Hc].
    destruct Hlaw as (Hget & Hname & Hcont & Hother & _).
    assert (Hlive : live P s p) by (exists c; exact Hp).
    assert (Hpq : q <> p) by (intros ->; congruence).
    unfold isElementMappingDisabled.
    rewrite (propDisableMapping_found (setValue P s p false) c p);
      [|rewrite Hname by exact Hlive; exact Hp | rewrite Hcont by exact Hlive; exact Hc].
    cbn [snd]. rewrite Hget by exact Hlive. rewrite Hdoc.
    rewrite (propDisableMapping_found (setValue P s p false) doc q);
      [|rewrite Hname by exact Hlive; exact Hqn | rewrite Hcont by exact Hlive; exact Hqc].
    cbn [snd]. rewrite Hother by assumption. exact Hval.
  - unfold isElementMappingDisabled. rewrite Hprop. cbn [snd]. rewrite Hdoc, Hq.
    cbn [snd]. exact Hval.
Qed.

End MappingFacts.

(** ** Runs of the element mapping flags *)

Section MappingRuns.
Import ElementMapping.

Lemma flagTable_lawful : lawful flagTable.
Proof.
  unfold lawful, live. cbn. repeat split.
  - intros s p v [c Hc]. destruct (s !! c) eqn:Hs; [|discriminate].
    injection Hc as ->. rewrite lookup_alter_eq, Hs. reflexivity.
  - intros s p v c _. destruct (decide (c = p)) as [->|Hne].
    + rewrite lookup_alter_eq. destruct (s !! p); reflexivity.
    + rewrite lookup_alter_ne by congruence. reflexivity.
  - intros s p v q _ Hne. rewrite lookup_alter_ne by congruence. reflexivity.
  - rewrite lookup_insert_eq. reflexivity.
Qed.

Lemma disabling_is_observed_witness :
  isElementMappingDisabled flagTable
    (disableElementMapping flagTable ∅ (Some 3%nat) true) (Some 3%nat) = true
  /\ disableElementMapping flagTable ∅ (Some 3%nat) false = ∅.
Proof.
  destruct (disabling_is_observed flagTable ∅ 3%nat flagTable_lawful) as [Hon Hoff].
  split; [exact Hon|]. apply Hoff. reflexivity.
Defined.

Lemma document_flag_overrides_object_witness :
  (getDocument flagTable 3%nat = Some 0%nat
   /\ propDisableMapping flagTable {[ 0%nat := true; 3%nat := true ]} 0%nat false
      = ({[ 0%nat := true; 3%nat := true ]}, Some 0%nat)
   /\ getValue flagTable {[ 0%nat := true; 3%nat := true ]} 0%nat = true)
  /\ isElementMappingDisabled flagTable
       (disableElementMapping flagTable {[ 0%nat := true; 3%nat := true ]} (Some 3%nat) false)
       (Some 3%nat) = true.
Proof.
  split; [repeat split; reflexivity|].
  apply (document_flag_overrides_object flagTable {[ 0%nat := true; 3%nat := true ]}
           3%nat 0%nat 0%nat flagTable_lawful).
  - reflexivity.
  - discriminate.
  - reflexivity.
  - reflexivity.
Defined.

End MappingRuns.

(** ** Properties of [checkLinkVisibility] *)

Section LinkFacts.
Import LinkVisibility.
Context {Obj : Type} (D : @Objects Obj).

Lemma visitDot_none check obj sub l : foldl (visitDot D check obj sub) None l = None.
Proof. induction l as [|p l IH]; [reflexivity | exact IH]. Qed.

Lemma dots_from_bounds i s :
  Forall (fun p => (i <= p < i + String.length s)%nat) (dots_from i s).
Proof.
  revert i. induction s as [|a s IH]; intros i; cbn [dots_from String.length];
    [constructor|].
  assert (Hrest : Forall (fun p => (i <= p < i + S (String.length s))%nat)
                         (dots_from (S i) s)).
  { eapply Forall_impl; [apply IH|]. cbn. intros p Hp. lia. }
  destruct (Ascii.eqb a "."); [constructor; [lia | exact Hrest] | exact Hrest].
Qed.

Lemma dots_from_sorted i s : StronglySorted lt (dots_from i s).
Proof.
  revert i. induction s as [|a s IH]; intros i; cbn [dots_from]; [constructor|].
  destruct (Ascii.eqb a "."); [|apply IH].
  constructor; [apply IH|].
  eapply Forall_impl; [apply dots_from_bounds|]. cbn. intros p Hp. lia.
Qed.

Lemma take_set_char n c s :
  ElementCache.string_take n (set_char n c s) = ElementCache.string_take n s.
Proof.
  revert s. induction n as [|n IH]; intros [|a s]; try reflexivity.
  cbn. rewrite IH. reflexivity.
Qed.

Lemma range_of_marked sub pos :
  ElementCache.string_take (S pos) (marked sub pos) = ElementCache.string_take (S pos) sub.
Proof. apply take_set_char. Qed.

Lemma take_starts_with m n s :
  (m <= n)%nat ->
  starts_with (ElementCache.string_take n s) (ElementCache.string_take m s) = true.
Proof.
  unfold starts_with. revert n s. induction m as [|m IH]; intros n s Hle.
  - cbn. destruct (ElementCache.string_take n s); reflexivity.
  - destruct n as [|n]; [lia|]. destruct s as [|a s]; [reflexivity|].
    cbn. destruct (ascii_dec a a); [|congruence]. apply IH. lia.
Qed.

Lemma length_string_take n s :
  (n <= String.length s)%nat -> String.length (ElementCache.string_take n s) = n.
Proof.
  revert s. induction n as [|n IH]; intros [|a s] Hle; cbn in *; try lia.
  rewrite IH; lia.
Qed.

Lemma length_set_char i c s : String.length (set_char i c s) = String.length s.
Proof.
  revert i. induction s as [|a s IH]; intros [|i]; cbn; try reflexivity.
  rewrite IH. reflexivity.
Qed.

Lemma length_string_app (a b : string) :
  String.length (a +:+ b) = (String.length a + String.length b)%nat.
Proof.
  induction a as [|x a IH]; [reflexivity|].
  change (S (String.length (a +:+ b)) = S (String.length a + String.length b)).
  f_equal. exact IH.
Qed.

Lemma string_drop_app (a b : string) : string_drop (String.length a) (a +:+ b) = b.
Proof. induction a as [|x a IH]; [reflexivity | exact IH]. Qed.

Lemma nul_free_take n s : nul_free s = true -> nul_free (ElementCache.string_take n s) = true.
Proof.
  revert s. induction n as [|n IH]; intros [|a s]; try reflexivity.
  cbn. intros Hs. apply andb_true_iff in Hs as [Ha Hs].
  rewrite Ha. cbn. apply IH. exact Hs.
Qed.

Lemma marked_not_started sub i n s :
  (i < n)%nat -> (i < String.length sub)%nat -> nul_free sub = true ->
  starts_with (set_char i NUL sub +:+ s) (ElementCache.string_take n sub) = false.
Proof.
  unfold starts_with. revert i n. induction sub as [|a sub IH]; intros i n Hin Hlen Hfree;
    [cbn in Hlen; lia|].
  cbn in Hfree. apply andb_true_iff in Hfree as [Ha Hfree].
  destruct n as [|n]; [lia|]. destruct i as [|i].
  - change (String.prefix (String a (ElementCache.string_take n sub))
                          (String NUL (sub +:+ s)) = false).
    cbn [String.prefix]. destruct (ascii_dec a NUL) as [->|Hne]; [|reflexivity].
    rewrite Ascii.eqb_refl in Ha. discriminate.
  - change (String.prefix (String a (ElementCache.string_take n sub))
                          (String a (set_char i NUL sub +:+ s)) = false).
    cbn [String.prefix]. destruct (ascii_dec a a); [|congruence].
    apply IH; [lia | cbn in Hlen; lia | exact Hfree].
Qed.

Lemma visitDot_keeps check obj sub st pos pos' :
  (pos' <= pos)%nat ->
  ElementCache.string_take (S pos) sub ∈ hiddens st ->
  visitDot D check obj sub (Some st) pos' = None
  \/ exists st', visitDot D check obj sub (Some st) pos' = Some st'
                 /\ ElementCache.string_take (S pos) sub ∈ hiddens st'.
Proof.
  intros Hle Hin. unfold visitDot. cbn [mbind option_bind]. rewrite range_of_marked.
  set (kept := filter _ (hiddens st)).
  assert (Hkept : ElementCache.string_take (S pos) sub ∈ kept).
  { apply elem_of_filter. split; [apply take_starts_with; lia | exact Hin]. }
  clearbody kept.
  destruct (check && _)%bool; [left; reflexivity|].
  destruct (getSubObject D obj _) as [sobj|]; [|left; reflexivity]. cbn.
  destruct (negb (getNameInDocument D sobj)); [left; reflexivity|].
  right. destruct (checkLink D sobj); eexists; (split; [reflexivity|]); cbn [hiddens].
  - apply elem_of_union. left. exact Hkept.
  - exact Hkept.
Qed.

Lemma visits_keep check obj sub pos l st :
  Forall (fun p => (p <= pos)%nat) l ->
  ElementCache.string_take (S pos) sub ∈ hiddens st ->
  foldl (visitDot D check obj sub) (Some st) l = None
  \/ exists st', foldl (visitDot D check obj sub) (Some st) l = Some st'
                 /\ ElementCache.string_take (S pos) sub ∈ hiddens st'.
Proof.
  intros Hall. revert st. induction Hall as [|p l Hp Hall IH]; intros st Hin; cbn [foldl].
  - right. eauto.
  - destruct (visitDot_keeps check obj sub st pos p Hp Hin) as [-> | (st' & -> & Hin')].
    + left. apply visitDot_none.
    + apply IH. exact Hin'.
Qed.

(** With [check] set, a path one of whose prefixes up to a dot is among
    the hidden names, as given or as declared by the object itself, is
    answered with [false]. *)
Theorem hidden_path_fails_check st obj a subname pos :
  let sub := ElementCache.string_take (findElementName D (String a subname))
                                      (String a subname) in
  pos ∈ dots sub ->
  ElementCache.string_take (S pos) sub ∈ hiddens (enter D st obj) ->
  checkLinkVisibility D st true (Some obj) (Some (String a subname)) = None.
Proof.
  intros sub Hpos Hin. unfold checkLinkVisibility.
  destruct (negb (getNameInDocument D obj)); [reflexivity|].
  fold sub. cbn zeta.
  assert (Hrun : foldl (visitDot D true obj sub) (Some (enter D st obj)) (dots sub) = None).
  { apply list_elem_of_split in Hpos as (l1 & l2 & Hsplit).
    pose proof (dots_from_sorted 0 sub) as Hsorted. fold (dots sub) in Hsorted.
    pose proof (dots_from_bounds 0 sub) as Hbound. fold (dots sub) in Hbound.
    rewrite Hsplit in *. rewrite foldl_app. cbn [foldl].
    assert (Hl1 : Forall (fun p => (p <= pos)%nat) l1).
    { apply Forall_forall. intros p Hp.
      assert (Hlt : (p < pos)%nat); [|lia].
      clear -Hsorted Hp. induction l1 as [|x l1 IH]; [apply elem_of_nil in Hp; contradiction|].
      cbn in Hsorted. apply StronglySorted_inv in Hsorted as [Hs Hall].
      apply elem_of_cons in Hp as [->|Hp]; [|apply IH; assumption].
      rewrite Forall_forall in Hall. apply Hall. apply elem_of_app. right.
      apply list_elem_of_here. }
    destruct (visits_keep true obj sub pos l1 _ Hl1 Hin) as [-> | (st' & -> & Hin')].
    - apply visitDot_none.
    - assert (Hvisit : visitDot D true obj sub (Some st') pos = None).
      { unfold visitDot. cbn [mbind option_bind]. rewrite range_of_marked.
        rewrite bool_decide_eq_true_2; [reflexivity|].
        exists (ElementCache.string_take (S pos) sub). split.
        - apply elem_of_filter. split; [apply take_starts_with; lia | exact Hin'].
        - apply length_string_take.
          apply Forall_app in Hbound as [_ Hbound].
          apply Forall_cons in Hbound as [Hbound _]. lia. }
      rewrite Hvisit. apply visitDot_none. }
  rewrite Hrun. reflexivity.
Qed.

Lemma visitDot_declared check obj sub from lp st pos st' :
  (forall h, h ∈ hiddens st -> declaredAt D obj sub from lp h) ->
  (forall p, lp = Some p -> (p < pos)%nat) ->
  (pos < String.length sub)%nat -> nul_free sub = true ->
  visitDot D check obj sub (Some st) pos = Some st' ->
  forall h, h ∈ hiddens st' -> declaredAt D obj sub from (Some pos) h.
Proof.
  intros Hinv Hlp Hpos Hfree. unfold visitDot. cbn [mbind option_bind].
  rewrite range_of_marked. set (kept := filter _ (hiddens st)).
  assert (Hkept : forall h, h ∈ kept -> h ∈ from).
  { intros h Hh. apply elem_of_filter in Hh as [Hstart Hh].
    destruct (Hinv h Hh) as [Hfrom | (p & sobj & s & -> & _ & _ & _ & ->)];
      [exact Hfrom|].
    specialize (Hlp p eq_refl). unfold marked in Hstart.
    rewrite marked_not_started in Hstart by (first [exact Hfree | lia]).
    discriminate. }
  clearbody kept.
  destruct (check && _)%bool; [discriminate|].
  destruct (getSubObject D obj _) as [sobj|] eqn:Hsobj; [|discriminate]. cbn.
  destruct (negb (getNameInDocument D sobj)); [discriminate|].
  destruct (checkLink D sobj) eqn:Hlink; intros [= <-] h Hh; cbn [hiddens] in Hh.
  - apply elem_of_union in Hh as [Hh|Hh]; [left; apply Hkept; exact Hh|].
    apply elem_of_list_to_set, list_elem_of_fmap in Hh as (s & -> & Hs).
    right. exists pos, sobj, s. auto.
  - left. apply Hkept. exact Hh.
Qed.

Lemma visits_declared check obj sub from l lp st st' :
  (forall h, h ∈ hiddens st -> declaredAt D obj sub from lp h) ->
  StronglySorted lt l ->
  (forall p, lp = Some p -> Forall (lt p) l) ->
  Forall (fun p => (p < String.length sub)%nat) l ->
  nul_free sub = true ->
  foldl (visitDot D check obj sub) (Some st) l = Some st' ->
  forall h, h ∈ hiddens st' ->
    declaredAt D obj sub from (match last l with Some p => Some p | None => lp end) h.
Proof.
  revert lp st. induction l as [|p l IH]; intros lp st Hinv Hsorted Hlp Hbound Hfree;
    cbn [foldl].
  - intros [= <-]. exact Hinv.
  - apply StronglySorted_inv in Hsorted as [Hsorted Hp].
    apply Forall_cons in Hbound as [Hpb Hbound].
    destruct (visitDot D check obj sub (Some st) p) as [st1|] eqn:Hvisit;
      [|rewrite visitDot_none; discriminate].
    intros Hrun h Hh.
    assert (Hlast : match last (p :: l) with Some q => Some q | None => lp end
                    = match last l with Some q => Some q | None => Some p end).
    { rewrite last_cons. destruct (last l); reflexivity. }
    rewrite Hlast.
    apply (IH (Some p) st1); try assumption.
    + apply (visitDot_declared check obj sub from lp st p st1); try assumption.
      intros q Hq. specialize (Hlp q Hq). apply Forall_cons in Hlp as [Hlt _]. exact Hlt.
    + intros q [= <-]. exact Hp.
Qed.

(** Of the hidden names that links declare along the path, only those
    of the link at the last dot come back: every returned name is what
    is left of a name that was given or that the object itself declared,
    or a name declared by the sub-object at the last dot.  The names
    declared at an earlier dot are stored behind a zero character and
    are erased at the next dot. *)
Theorem earlier_links_hide_nothing st check obj a subname st' r :
  let sub := ElementCache.string_take (findElementName D (String a subname))
                                      (String a subname) in
  nul_free (String a subname) = true ->
  checkLinkVisibility D st check (Some obj) (Some (String a subname)) = Some st' ->
  r ∈ hiddens st' ->
  remainderOf sub (hiddens (enter D st obj)) r
  \/ exists pos sobj s,
       last (dots sub) = Some pos
       /\ getSubObject D obj (c_str (marked sub pos)) = Some sobj
       /\ checkLink D sobj = true
       /\ s ∈ getHiddenSubnames D sobj
       /\ s <> ""%string /\ r = c_str s.
Proof.
  intros sub Hfree. unfold checkLinkVisibility.
  destruct (negb (getNameInDocument D obj)); [discriminate|].
  fold sub. cbn zeta.
  destruct (foldl (visitDot D check obj sub) (Some (enter D st obj)) (dots sub))
    as [st1|] eqn:Hrun; [|discriminate].
  cbn. intros [= <-] Hr. cbn [hiddens] in Hr.
  apply elem_of_map in Hr as (h & -> & Hh).
  apply elem_of_filter in Hh as [Hlen Hh].
  assert (Hsub : nul_free sub = true) by (apply nul_free_take; exact Hfree).
  pose proof (visits_declared check obj sub (hiddens (enter D st obj)) (dots sub) None
                (enter D st obj) st1) as Hdecl.
  assert (Hstart : forall h, h ∈ hiddens (enter D st obj) ->
                     declaredAt D obj sub (hiddens (enter D st obj)) None h)
    by (intros h' Hh'; left; exact Hh').
  assert (Hnone : forall p, @None nat = Some p -> Forall (lt p) (dots sub))
    by discriminate.
  assert (Hbound : Forall (fun p => (p < String.length sub)%nat) (dots sub)).
  { eapply Forall_impl; [apply (dots_from_bounds 0 sub)|]. cbn. intros p Hp. lia. }
  destruct (Hdecl Hstart (dots_from_sorted 0 sub) Hnone Hbound Hsub Hrun h Hh)
    as [Hfrom | (pos & sobj & s & Hlast & Hsobj & Hlink & Hs & ->)].
  - left. exists h. auto.
  - right. exists pos, sobj, s.
    destruct (last (dots sub)) as [q|] eqn:Hq; [|discriminate].
    injection Hlast as ->.
    rewrite length_string_app in Hlen. unfold marked in Hlen at 1.
    rewrite length_set_char in Hlen.
    split; [reflexivity|]. split; [exact Hsobj|]. split; [exact Hlink|].
    split; [exact Hs|]. split.
    + intros ->. cbn in Hlen. lia.
    + replace (String.length sub) with (String.length (marked sub pos))
        by apply length_set_char.
      rewrite string_drop_app. reflexivity.
Qed.

End LinkFacts.

(** ** Runs of [checkLinkVisibility] *)

Section LinkRuns.
Import LinkVisibility.

Lemma hidden_path_fails_check_witness :
  (1%nat ∈ dots (ElementCache.string_take (findElementName nested "a.b.Face1") "a.b.Face1")
   /\ "a."%string ∈ hiddens (enter nested (mkState {[ "a."%string ]} None) 1%nat))
  /\ checkLinkVisibility nested (mkState {[ "a."%string ]} None) true (Some 1%nat)
       (Some "a.b.Face1"%string) = None.
Proof.
  assert (Hdot : 1%nat ∈ dots (ElementCache.string_take
                                 (findElementName nested "a.b.Face1") "a.b.Face1"))
    by (vm_compute; apply list_elem_of_here).
  assert (Hin : "a."%string ∈ hiddens (enter nested (mkState {[ "a."%string ]} None) 1%nat))
    by (apply elem_of_singleton_2; reflexivity).
  split; [split; assumption|].
  apply (hidden_path_fails_check nested (mkState {[ "a."%string ]} None) 1%nat
           "a"%char ".b.Face1"%string 1%nat Hdot Hin).
Defined.

Lemma earlier_links_hide_nothing_witness :
  (nul_free "a.b.Face1" = true
   /\ checkLinkVisibility nested (mkState ∅ None) true (Some 1%nat) (Some "a.b.Face1"%string)
      = Some (mkState {[ "c."%string ]} (Some 3%nat)))
  /\ (remainderOf "a.b." (hiddens (enter nested (mkState ∅ None) 1%nat)) "c."
      \/ exists pos sobj s,
           last (dots "a.b.") = Some pos
           /\ getSubObject nested 1%nat (c_str (marked "a.b." pos)) = Some sobj
           /\ checkLink nested sobj = true
           /\ s ∈ getHiddenSubnames nested sobj
           /\ s <> ""%string /\ "c."%string = c_str s).
Proof.
  assert (Hrun : checkLinkVisibility nested (mkState ∅ None) true (Some 1%nat)
                   (Some "a.b.Face1"%string)
                 = Some (mkState {[ "c."%string ]} (Some 3%nat)))
    by (vm_compute; reflexivity).
  split; [split; [reflexivity | exact Hrun]|].
  apply (earlier_links_hide_nothing nested (mkState ∅ None) true 1%nat
           "a"%char ".b.Face1"%string _ "c."%string eq_refl Hrun).
  apply elem_of_singleton_2. reflexivity.
Defined.

End LinkRuns.
